(** * drawbridge: the synchronisation relay, its browser client and its CLI

    A shallow embedding of
      - [src/App.jsx]   (module [App]):    the fingerprint and the echo filter,
      - the relay server (module [Server]): store, broadcast hub, file watcher,
                                            export hand-shake,
      - [cli/index.js]  (module [Cli]):    the [update] and [delete] commands.

    An element's [version] is an integer, read as the binary64 number
    nearest to it; the sums the code makes of versions are binary64 sums
    (module [Js]).  Counts and wall-clock milliseconds, which stay far below
    [2^53], are integers of [Z]; texts are [string]; handlers are functions
    from a state and an event to the next state and the list of effects
    they perform, in program order. *)

From Stdlib Require Import ZArith List String Ascii Bool Lia Permutation.
From Stdlib Require Import Decimal DecimalString DecimalPos DecimalZ.
From Stdlib Require QArith.
Import ListNotations.

Local Open Scope string_scope.
Local Open Scope list_scope.
Local Open Scope Z_scope.

(** ** JavaScript primitives used by the three programs *)

Module Js.

(** The decimal digits of an integer: what [String(n)] and [`${n}`] give for
    an integer below [2^53] in magnitude, such as the count of an array's
    elements (an array has fewer than [2^32]). *)
Definition decimal (n : Z) : string :=
  NilZero.string_of_int (Z.to_int n).

(** A number whose value is an integer: a finite binary64 value, held as
    the integer it is, an infinity, or NaN. *)
Inductive number :=
| Int (z : Z)
| Infinity
| NegInfinity
| NaN.

Definition number_eqb (a b : number) : bool :=
  match a, b with
  | Int x, Int y => x =? y
  | Infinity, Infinity => true
  | NegInfinity, NegInfinity => true
  | _, _ => false
  end.

(** The binary64 number nearest to an integer: 53 significant bits, ties
    to the even significand, an infinity from [2^1024] on. *)
Definition round64 (z : Z) : number :=
  let a := Z.abs z in
  if a <? 2 ^ 53 then Int z
  else
    let e := Z.log2 a - 52 in
    let q := a / 2 ^ e in
    let r := a mod 2 ^ e in
    let half := 2 ^ (e - 1) in
    let m := if r <? half then q
             else if half <? r then q + 1
             else if Z.even q then q else q + 1 in
    let v := m * 2 ^ e in
    if 2 ^ 1024 <=? v then (if z <? 0 then NegInfinity else Infinity)
    else Int (Z.sgn z * v).

(** [a + b] on such numbers: the exact sum, rounded. *)
Definition add (a b : number) : number :=
  match a, b with
  | NaN, _ | _, NaN => NaN
  | Infinity, NegInfinity | NegInfinity, Infinity => NaN
  | Infinity, _ | _, Infinity => Infinity
  | NegInfinity, _ | _, NegInfinity => NegInfinity
  | Int x, Int y => round64 (x + y)
  end.

(** [a || 0]: zero and NaN are falsy. *)
Definition or_0 (a : number) : number :=
  match a with
  | Int z => if z =? 0 then Int 0 else Int z
  | NaN => Int 0
  | other => other
  end.

(** What [JSON.stringify] and [JSON.parse] leave of a number in a
    property: the integer, or [null] for an infinity and NaN. *)
Definition to_property (a : number) : option Z :=
  match a with
  | Int z => Some z
  | _ => None
  end.

(** With [k] digits: the integers [s] and [n] with [s * 10^(n-k)] rounding
    to [x], the closest if two do, the even one on a tie; [x] has [n]
    decimal digits. *)
Definition with_digits (x n k : Z) : option (Z * Z) :=
  let p := 10 ^ (n - k) in
  let lo := x / p in
  let hi := lo + 1 in
  let ok_lo := number_eqb (round64 (lo * p)) (Int x) in
  let ok_hi := number_eqb (round64 (hi * p)) (Int x) in
  let s := if ok_lo && ok_hi then
             if x - lo * p <? hi * p - x then lo
             else if hi * p - x <? x - lo * p then hi
             else if Z.even lo then lo else hi
           else if ok_lo then lo else hi in
  if ok_lo || ok_hi
  then if s =? 10 ^ k then Some (1, n + 1) else Some (s, n)
  else None.

(** The shortest such digits, trying [k], [k + 1], ... *)
Fixpoint shortest (fuel : nat) (x n k : Z) : Z * Z :=
  match fuel with
  | O => (x, n)
  | S fuel' =>
      match with_digits x n k with
      | Some found => found
      | None => shortest fuel' x n (k + 1)
      end
  end.

Definition zeros (n : Z) : string :=
  string_of_list_ascii (repeat "0"%char (Z.to_nat n)).

(** [Number::toString] for a positive integer value from [2^53] on: the
    shortest digits that identify the number (at most 17), followed by
    zeros up to 21 digits and in exponent form beyond. *)
Definition large_toString (x : Z) : string :=
  let '(s, n) := shortest 17 x (Z.of_nat (String.length (decimal x))) 1 in
  let digits := decimal s in
  if n <=? 21 then (digits ++ zeros (n - Z.of_nat (String.length digits)))%string
  else
    match digits with
    | EmptyString => EmptyString
    | String d EmptyString => String d ("e+" ++ decimal (n - 1))%string
    | String d more => String d ("." ++ more ++ "e+" ++ decimal (n - 1))%string
    end.

(** [String(x)] / [`${x}`].  An integer below [2^53] in magnitude is its
    own shortest decimal. *)
Definition Number_toString (x : number) : string :=
  match x with
  | NaN => "NaN"
  | Infinity => "Infinity"
  | NegInfinity => "-Infinity"
  | Int z =>
      if Z.abs z <? 2 ^ 53 then decimal z
      else if z <? 0 then String "-" (large_toString (- z))
      else large_toString z
  end.

(** Characters of a text up to its first colon, and the text after it. *)
Fixpoint split_colon (s : string) : string * string :=
  match s with
  | EmptyString => (EmptyString, EmptyString)
  | String c rest =>
      if Ascii.eqb c ":" then (EmptyString, rest)
      else let '(a, b) := split_colon rest in (String c a, b)
  end.

Fixpoint colon_free (s : string) : bool :=
  match s with
  | EmptyString => true
  | String c rest => negb (Ascii.eqb c ":") && colon_free rest
  end.

End Js.

(** ** The drawing element, as far as the programs read it *)

Record element := {
  id : string;
  type : string;
  version : option Z;               (* [None]: the property is missing or null *)
  versionNonce : Z;
  isDeleted : bool;                 (* truthiness of the property *)
  updated : Z;
  props : list (string * string);   (* every other property *)
}.

(** [el.version || 0]: the property holds the binary64 number nearest to
    the integer written in the document. *)
Definition version_or_0 (el : element) : Js.number :=
  match version el with
  | Some v => Js.or_0 (Js.round64 v)
  | None => Js.Int 0
  end.

(** The document, with the properties the client and the CLI read. *)
Record appstate := { viewBackgroundColor : option string }.

Definition attachments := list (string * string).

Module Scene.
Record t := {
  type : string;
  version : Z;
  elements : option (list element);   (* [None]: missing or falsy *)
  appState : appstate;
  files : attachments;
}.
End Scene.

(** ** [src/App.jsx] *)

Module App.

(** The [for (const el of elements)] loop, on the pair [(count, vSum)].
    [count] stays below the length of an array, where [count++] is exact;
    [vSum] is a binary64 sum. *)
Fixpoint fingerprint_loop (elements : list element) (count : Z) (vSum : Js.number)
  : Z * Js.number :=
  match elements with
  | [] => (count, vSum)
  | el :: rest =>
      if negb (isDeleted el)
      then fingerprint_loop rest (count + 1) (Js.add vSum (version_or_0 el))
      else fingerprint_loop rest count vSum
  end.

(** [`${count}:${vSum}`] *)
Definition template (count : Z) (vSum : Js.number) : string :=
  (Js.decimal count ++ ":" ++ Js.Number_toString vSum)%string.

(** [sceneFingerprint(elements)]; [None] is a null or undefined argument. *)
Definition sceneFingerprint (elements : option (list element)) : string :=
  match elements with
  | None => "0:0"
  | Some [] => "0:0"
  | Some els =>
      let '(count, vSum) := fingerprint_loop els 0 (Js.Int 0) in template count vSum
  end.

(** The fingerprint as the specification words it. *)
Definition active (E : list element) : list element :=
  filter (fun el => negb (isDeleted el)) E.

Definition activeCount (E : list element) : Z :=
  Z.of_nat (List.length (active E)).

Definition versionSum (E : list element) : Z :=
  fold_right (fun el acc => match version el with Some v => v | None => 0 end + acc)
             0 (active E).

Definition flag_version (el : element) : bool * option Z :=
  (isDeleted el, version el).

(** The version as the document writes it, 0 when it writes none. *)
Definition written (el : element) : Z :=
  match version el with Some v => v | None => 0 end.

(** The sum of the magnitudes of the versions of the active elements: while
    it is below [2^53], every sum of some of them is exact. *)
Definition magnitude (E : list element) : Z :=
  fold_right (fun el acc => Z.abs (written el) + acc) 0 (active E).

(** The push message, as the client reads it. *)
Module Msg.
Record t := {
  type : string;
  data : option Scene.t;              (* [None]: [msg.data] is undefined *)
}.
End Msg.

Definition CONNECTING : Z := 0.
Definition OPEN : Z := 1.
Definition CLOSING : Z := 2.
Definition CLOSED : Z := 3.

(** The component's state.  [excalidrawAPI] is null until the editor hands
    over its API; the API is seen as the scene the editor holds.
    [wsRef] is [wsRef.current], a socket seen as its [readyState].
    [timer] is the call armed by [debounce], with its arguments. *)
Record client := {
  excalidrawAPI : option (list element);
  wsRef : option Z;
  lastRemoteFingerprint : string;
  connected : bool;
  reconnectTimer : bool;
  timer : option (list element * appstate * option attachments);
}.

Inductive effect :=
| ws_send (msg : Msg.t)
| post_export_png (rendered : list element).

Inductive event :=
| api_ready                                   (* [setExcalidrawAPI(api)]; the effect runs *)
| ws_onopen
| ws_onmessage (data : option Msg.t)          (* [None]: [JSON.parse] throws *)
| ws_onclose
| ws_onerror
| reconnect_fired
| onChange (elements : list element) (appState : appstate) (files : option attachments)
| debounce_fired.

Definition mount : client :=
  {| excalidrawAPI := None; wsRef := None; lastRemoteFingerprint := "0:0";
     connected := false; reconnectTimer := false; timer := None |}.

(** [connect()]: a new socket, stored in [wsRef.current]. *)
Definition connect (c : client) : client :=
  {| excalidrawAPI := excalidrawAPI c; wsRef := Some CONNECTING;
     lastRemoteFingerprint := lastRemoteFingerprint c;
     connected := connected c; reconnectTimer := reconnectTimer c;
     timer := timer c |}.

(** The [useEffect] on [excalidrawAPI]: [if (excalidrawAPI) connect()]. *)
Definition useEffect (c : client) : client :=
  match excalidrawAPI c with
  | Some _ => connect c
  | None => c
  end.

Definition setConnected (b : bool) (c : client) : client :=
  {| excalidrawAPI := excalidrawAPI c; wsRef := wsRef c;
     lastRemoteFingerprint := lastRemoteFingerprint c;
     connected := b; reconnectTimer := reconnectTimer c; timer := timer c |}.

Definition set_readyState (st : Z) (c : client) : client :=
  {| excalidrawAPI := excalidrawAPI c;
     wsRef := match wsRef c with Some _ => Some st | None => None end;
     lastRemoteFingerprint := lastRemoteFingerprint c;
     connected := connected c; reconnectTimer := reconnectTimer c;
     timer := timer c |}.

Definition set_reconnectTimer (b : bool) (c : client) : client :=
  {| excalidrawAPI := excalidrawAPI c; wsRef := wsRef c;
     lastRemoteFingerprint := lastRemoteFingerprint c;
     connected := connected c; reconnectTimer := b; timer := timer c |}.

Definition set_timer (t : option (list element * appstate * option attachments))
    (c : client) : client :=
  {| excalidrawAPI := excalidrawAPI c; wsRef := wsRef c;
     lastRemoteFingerprint := lastRemoteFingerprint c;
     connected := connected c; reconnectTimer := reconnectTimer c; timer := t |}.

(** The [scene-update] branch of [ws.onmessage]: the fingerprint is stored,
    then [updateScene] replaces the editor's elements. *)
Definition apply_scene_update (incoming : list element) (c : client) : client :=
  {| excalidrawAPI := Some incoming; wsRef := wsRef c;
     lastRemoteFingerprint := sceneFingerprint (Some incoming);
     connected := connected c; reconnectTimer := reconnectTimer c;
     timer := timer c |}.

(** [msg.data.elements || []] *)
Definition elements_or_empty (d : Scene.t) : list element :=
  match Scene.elements d with
  | Some els => els
  | None => []
  end.

(** [ws.onmessage].  An exception anywhere in the [try] block (unparseable
    text, [msg.data] undefined) ends the handler in its [catch]. *)
Definition onmessage (data : option Msg.t) (c : client) : client * list effect :=
  match data with
  | None => (c, [])
  | Some msg =>
      let after_update :=
        if (Msg.type msg =? "scene-update")%string then
          match excalidrawAPI c with
          | Some _ =>
              match Msg.data msg with
              | Some d => Some (apply_scene_update (elements_or_empty d) c)
              | None => None
              end
          | None => Some c
          end
        else Some c in
      match after_update with
      | None => (c, [])
      | Some c1 =>
          if (Msg.type msg =? "export-request")%string then
            match excalidrawAPI c1 with
            | Some scene => (c1, [post_export_png (active scene)])
            | None => (c1, [])
            end
          else (c1, [])
      end
  end.

(** The function wrapped by [debounce] in [sendUpdate]. *)
Definition sendUpdate_body (elements : list element) (appState : appstate)
    (files : option attachments) (c : client) : list effect :=
  match wsRef c with
  | None => []
  | Some st =>
      if negb (st =? OPEN) then []
      else
        let fp := sceneFingerprint (Some elements) in
        if (fp =? lastRemoteFingerprint c)%string then []
        else
          [ws_send
             {| Msg.type := "scene-update";
                Msg.data := Some
                  {| Scene.type := "excalidraw";
                     Scene.version := 2;
                     Scene.elements := Some elements;
                     Scene.appState :=
                       {| viewBackgroundColor :=
                            Some match viewBackgroundColor appState with
                                 | Some "" | None => "#ffffff"
                                 | Some col => col
                                 end |};
                     Scene.files := match files with Some f => f | None => [] end |} |}]
  end.

Definition step (c : client) (e : event) : client * list effect :=
  match e with
  | api_ready =>
      match excalidrawAPI c with
      | Some _ => (c, [])
      | None =>
          (useEffect {| excalidrawAPI := Some []; wsRef := wsRef c;
                        lastRemoteFingerprint := lastRemoteFingerprint c;
                        connected := connected c;
                        reconnectTimer := reconnectTimer c; timer := timer c |}, [])
      end
  | ws_onopen =>
      match wsRef c with
      | Some _ => (setConnected true (set_readyState OPEN c), [])
      | None => (c, [])
      end
  | ws_onmessage data =>
      match wsRef c with
      | Some _ => onmessage data c
      | None => (c, [])
      end
  | ws_onerror => (set_readyState CLOSING c, [])
  | ws_onclose =>
      match wsRef c with
      | Some _ => (set_reconnectTimer true (setConnected false (set_readyState CLOSED c)), [])
      | None => (c, [])
      end
  | reconnect_fired =>
      if reconnectTimer c then (connect (set_reconnectTimer false c), []) else (c, [])
  | onChange elements appState files =>
      (set_timer (Some (elements, appState, files)) c, [])
  | debounce_fired =>
      match timer c with
      | Some (elements, appState, files) =>
          let c' := set_timer None c in
          (c', sendUpdate_body elements appState files c')
      | None => (c, [])
      end
  end.

Fixpoint run (c : client) (trace : list event) : client * list effect :=
  match trace with
  | [] => (c, [])
  | e :: rest =>
      let '(c1, out1) := step c e in
      let '(c2, out2) := run c1 rest in
      (c2, out1 ++ out2)
  end.



End App.

(** ** The relay server *)

Module Server.

(** JSON values, as [JSON.parse] builds them. *)
#[local] Unset Elimination Schemes.
Inductive json :=
| JNull
| JBool (b : bool)
| JNum (n : Z)
| JStr (s : string)
| JArr (items : list json)
| JObj (props : list (string * json)).
#[local] Set Elimination Schemes.

(** A text on the wire or in the file, seen through [JSON.parse]: the
    serialisation of a value (whatever its whitespace), or a text that does
    not parse. *)
Inductive text :=
| Text_json (v : json)
| Text_other (s : string).

(** [JSON.parse]; [None] stands for the [SyntaxError]. *)
Definition JSON_parse (t : text) : option json :=
  match t with
  | Text_json v => Some v
  | Text_other _ => None
  end.

Definition JSON_stringify (v : json) : text := Text_json v.

Definition DEFAULT_CANVAS : text :=
  JSON_stringify
    (JObj [("type", JStr "excalidraw");
           ("version", JNum 2);
           ("elements", JArr []);
           ("appState", JObj [("viewBackgroundColor", JStr "#ffffff")]);
           ("files", JObj [])]).

Definition DEBOUNCE_MS : Z := 300.

(** Reading a property: of [null] it throws, of an object without it, and
    of the other values for the names read here, it is [undefined]. *)
Inductive read :=
| Throws
| Undefined
| Value (v : json).

Fixpoint assoc (k : string) (props : list (string * json)) : option json :=
  match props with
  | [] => None
  | (k', v) :: rest => if (k' =? k)%string then Some v else assoc k rest
  end.

Definition prop (v : json) (k : string) : read :=
  match v with
  | JNull => Throws
  | JObj props =>
      match assoc k props with
      | Some x => Value x
      | None => Undefined
      end
  | _ => Undefined
  end.

Definition bytes := list Byte.byte.

Inductive body :=
| body_json (v : json)
| body_png (b : bytes).

(** What a handler does to the outside, in program order. *)
Inductive effect :=
| writeFileSync (t : text)
| ws_send (ws : nat) (message : text)
| respond (res : nat) (status : Z) (b : body).

(** A member of [wss.clients]. *)
Record socket := { ws_id : nat; readyState : Z }.

(** An armed [setTimeout]: its handle, the [res] its callback captured and
    its delay. *)
Record timeout := { handle : nat; timeout_res : nat; delay : Z }.

(** The closure stored in [pendingExportResolve], by what it captured. *)
Record resolver := { captured_timeout : nat; captured_res : nat }.

Record relay := {
  CANVAS_FILE : option text;               (* [None]: the file does not exist *)
  lastWriteFromClient : Z;
  pendingExportResolve : option resolver;
  timers : list timeout;
  next_handle : nat;
  clients : list socket;
}.

Inductive event :=
| GET_canvas (res : nat)
| PUT_canvas (res : nat) (req_body : json) (now : Z)
| GET_export_png (res : nat)
| POST_export_png (res : nat) (req_body : bytes)
| timeout_fired (h : nat)
| connection (ws : nat)
| ws_message (ws : nat) (raw : text) (now : Z)
| ws_state (ws : nat) (st : Z)              (* the transport changes state *)
| ws_close (ws : nat)
| watcher_change (now : Z)
| file_written (t : text)                   (* by another process *)
| file_removed.

Definition set_file (f : option text) (s : relay) : relay :=
  {| CANVAS_FILE := f; lastWriteFromClient := lastWriteFromClient s;
     pendingExportResolve := pendingExportResolve s; timers := timers s;
     next_handle := next_handle s; clients := clients s |}.

Definition set_lastWrite (now : Z) (s : relay) : relay :=
  {| CANVAS_FILE := CANVAS_FILE s; lastWriteFromClient := now;
     pendingExportResolve := pendingExportResolve s; timers := timers s;
     next_handle := next_handle s; clients := clients s |}.

Definition set_export (p : option resolver) (ts : list timeout) (n : nat)
    (s : relay) : relay :=
  {| CANVAS_FILE := CANVAS_FILE s; lastWriteFromClient := lastWriteFromClient s;
     pendingExportResolve := p; timers := ts;
     next_handle := n; clients := clients s |}.

Definition set_clients (cl : list socket) (s : relay) : relay :=
  {| CANVAS_FILE := CANVAS_FILE s; lastWriteFromClient := lastWriteFromClient s;
     pendingExportResolve := pendingExportResolve s; timers := timers s;
     next_handle := next_handle s; clients := cl |}.

(** The module's top level: the file is created when it does not exist. *)
Definition startup (file : option text) : relay * list effect :=
  let s := {| CANVAS_FILE := file; lastWriteFromClient := 0;
              pendingExportResolve := None; timers := [];
              next_handle := O; clients := [] |} in
  match file with
  | None => (set_file (Some DEFAULT_CANVAS) s, [writeFileSync DEFAULT_CANVAS])
  | Some _ => (s, [])
  end.

(** [readCanvas()]; both [readFileSync] on a missing file and [JSON.parse]
    on a bad text throw into the [catch]. *)
Definition readCanvas (s : relay) : json :=
  match CANVAS_FILE s with
  | Some raw =>
      match JSON_parse raw with
      | Some v => v
      | None => match JSON_parse DEFAULT_CANVAS with Some v => v | None => JNull end
      end
  | None => match JSON_parse DEFAULT_CANVAS with Some v => v | None => JNull end
  end.

(** [writeCanvas(data)] at wall-clock time [now]. *)
Definition writeCanvas (now : Z) (data : json) (s : relay) : relay * list effect :=
  let t := JSON_stringify data in
  (set_file (Some t) (set_lastWrite now s), [writeFileSync t]).

(** [broadcast(message, excludeSocket)]; [None] is the [null] argument. *)
Definition broadcast (message : text) (excludeSocket : option nat)
    (cl : list socket) : list effect :=
  flat_map
    (fun client =>
       if negb (match excludeSocket with
                | Some x => Nat.eqb (ws_id client) x
                | None => false
                end)
          && (readyState client =? 1)
       then [ws_send (ws_id client) message]
       else [])
    cl.

Definition scene_update (data : json) : text :=
  JSON_stringify (JObj [("type", JStr "scene-update"); ("data", data)]).

Definition export_request : text :=
  JSON_stringify (JObj [("type", JStr "export-request")]).

Definition error (message : string) : body :=
  body_json (JObj [("error", JStr message)]).

Definition ok : body := body_json (JObj [("ok", JBool true)]).

(** [app.put("/api/canvas")] *)
Definition put_canvas (res : nat) (req_body : json) (now : Z) (s : relay)
  : relay * list effect :=
  let '(s1, written) := writeCanvas now req_body s in
  (s1, written ++ broadcast (scene_update req_body) None (clients s1)
               ++ [respond res 200 ok]).

(** [clearTimeout(h)] *)
Definition clearTimeout (h : nat) (ts : list timeout) : list timeout :=
  filter (fun t => negb (Nat.eqb (handle t) h)) ts.

(** [app.get("/api/export-png")] *)
Definition get_export_png (res : nat) (s : relay) : relay * list effect :=
  match pendingExportResolve s with
  | Some _ => (s, [respond res 409 (error "Export already in progress")])
  | None =>
      let h := next_handle s in
      let s1 :=
        set_export (Some {| captured_timeout := h; captured_res := res |})
                   (timers s ++ [{| handle := h; timeout_res := res; delay := 10000 |}])
                   (S h) s in
      (s1, broadcast export_request None (clients s1))
  end.

(** The callback given to [setTimeout], run when the timer fires. *)
Definition export_timed_out (t : timeout) (s : relay) : relay * list effect :=
  match pendingExportResolve s with
  | Some _ =>
      (set_export None (timers s) (next_handle s) s,
       [respond (timeout_res t) 504 (error "Export timed out — is the browser open?")])
  | None => (s, [])
  end.

(** A timer fires once, and only while armed. *)
Definition fire (h : nat) (s : relay) : relay * list effect :=
  match find (fun t => Nat.eqb (handle t) h) (timers s) with
  | Some t =>
      export_timed_out t
        (set_export (pendingExportResolve s) (clearTimeout h (timers s))
                    (next_handle s) s)
  | None => (s, [])
  end.

(** [app.post("/api/export-png")]; the first branch calls the stored
    closure, then answers the poster. *)
Definition post_export_png (res : nat) (req_body : bytes) (s : relay)
  : relay * list effect :=
  match pendingExportResolve s with
  | Some r =>
      (set_export None (clearTimeout (captured_timeout r) (timers s))
                  (next_handle s) s,
       [respond (captured_res r) 200 (body_png req_body); respond res 200 ok])
  | None => (s, [respond res 400 (error "No pending export request")])
  end.

(** [wss.on("connection")]: the library has added the socket to
    [wss.clients]; the handler sends it the current canvas. *)
Definition on_connection (ws : nat) (s : relay) : relay * list effect :=
  let others := filter (fun c => negb (Nat.eqb (ws_id c) ws)) (clients s) in
  let s1 := set_clients (others ++ [{| ws_id := ws; readyState := 1 |}]) s in
  let canvas := readCanvas s1 in
  (s1, [ws_send ws (scene_update canvas)]).

(** [ws.on("message")].  Every exception ends in the [catch], which only
    logs: a text that does not parse, [msg] being [null], and
    [writeFileSync] refusing the [undefined] that [JSON.stringify] makes of
    a missing [data] (the time stamp is already taken then). *)
Definition on_message (ws : nat) (raw : text) (now : Z) (s : relay)
  : relay * list effect :=
  match JSON_parse raw with
  | None => (s, [])
  | Some msg =>
      match prop msg "type" with
      | Value (JStr type) =>
          if (type =? "scene-update")%string then
            match prop msg "data" with
            | Value data =>
                let '(s1, written) := writeCanvas now data s in
                (s1, written ++ broadcast raw (Some ws) (clients s1))
            | _ => (set_lastWrite now s, [])
            end
          else (s, [])
      | _ => (s, [])
      end
  end.

(** [watcher.on("change")] *)
Definition on_change (now : Z) (s : relay) : relay * list effect :=
  if now - lastWriteFromClient s <? DEBOUNCE_MS + 200 then (s, [])
  else
    let canvas := readCanvas s in
    (s, broadcast (scene_update canvas) None (clients s)).

Definition set_state (ws : nat) (st : Z) (cl : list socket) : list socket :=
  map (fun c => if Nat.eqb (ws_id c) ws
                then {| ws_id := ws; readyState := st |} else c) cl.

Definition step (s : relay) (e : event) : relay * list effect :=
  match e with
  | GET_canvas res => (s, [respond res 200 (body_json (readCanvas s))])
  | PUT_canvas res req_body now => put_canvas res req_body now s
  | GET_export_png res => get_export_png res s
  | POST_export_png res req_body => post_export_png res req_body s
  | timeout_fired h => fire h s
  | connection ws => on_connection ws s
  | ws_message ws raw now => on_message ws raw now s
  | ws_state ws st => (set_clients (set_state ws st (clients s)) s, [])
  | ws_close ws =>
      (set_clients (filter (fun c => negb (Nat.eqb (ws_id c) ws)) (clients s)) s, [])
  | watcher_change now => on_change now s
  | file_written t => (set_file (Some t) s, [])
  | file_removed => (set_file None s, [])
  end.

Fixpoint run (s : relay) (trace : list event) : relay * list effect :=
  match trace with
  | [] => (s, [])
  | e :: rest =>
      let '(s1, out1) := step s e in
      let '(s2, out2) := run s1 rest in
      (s2, out1 ++ out2)
  end.

(** The slot and the timers agree: no request and no timer, or one request
    and exactly its timer. *)
Definition export_consistent (s : relay) : Prop :=
  match pendingExportResolve s with
  | None => timers s = []
  | Some r =>
      timers s = [{| handle := captured_timeout r;
                     timeout_res := captured_res r; delay := 10000 |}]
  end.

Definition sent_to (ws : nat) (e : effect) : bool :=
  match e with
  | ws_send w _ => Nat.eqb w ws
  | _ => false
  end.

Definition is_write (e : effect) : bool :=
  match e with
  | writeFileSync _ => true
  | _ => false
  end.

(** The handlers that call [readCanvas]. *)
Definition reads_canvas (ev : event) : bool :=
  match ev with
  | GET_canvas _ | connection _ | watcher_change _ => true
  | _ => false
  end.

Definition open_ids (cl : list socket) : list nat :=
  map ws_id (filter (fun c => readyState c =? 1) cl).

(** [w] is the socket left out of a broadcast. *)
Definition excluded (excludeSocket : option nat) (w : nat) : bool :=
  match excludeSocket with
  | Some x => Nat.eqb w x
  | None => false
  end.

(** The effect answers the HTTP request whose response object is [res]. *)
Definition answers (res : nat) (e : effect) : bool :=
  match e with
  | respond r _ _ => Nat.eqb r res
  | _ => false
  end.

(** The event is an HTTP request whose response object is [res]. *)
Definition carries (res : nat) (ev : event) : bool :=
  match ev with
  | GET_canvas r | PUT_canvas r _ _ | GET_export_png r | POST_export_png r _ =>
      Nat.eqb r res
  | _ => false
  end.

(** No closure held by the relay captured [res]. *)
Definition forgotten (res : nat) (s : relay) : Prop :=
  match pendingExportResolve s with
  | Some r => captured_res r <> res
  | None => True
  end.

(** The canvas [readCanvas] falls back to. *)
Definition default_canvas : json :=
  JObj [("type", JStr "excalidraw");
        ("version", JNum 2);
        ("elements", JArr []);
        ("appState", JObj [("viewBackgroundColor", JStr "#ffffff")]);
        ("files", JObj [])].

(** The schema check the specification describes: the document's [version]
    is the one the relay writes. *)
Definition schema_matches (v : json) : bool :=
  match prop v "version" with
  | Value (JNum n) => n =? 2
  | _ => false
  end.

(** The contract of [load] as the specification words it, for the read
    that serves [GET /api/canvas]: a missing, unparseable or schema-mismatched
    file is replaced by the default document, which is returned; any other
    file is returned as parsed. *)
Definition load_as_specified (s : relay) (res : nat) : Prop :=
  let after := fst (step s (GET_canvas res)) in
  let repaired :=
    CANVAS_FILE after = Some DEFAULT_CANVAS /\ readCanvas s = default_canvas in
  match CANVAS_FILE s with
  | None => repaired
  | Some raw =>
      match JSON_parse raw with
      | None => repaired
      | Some v => if schema_matches v then readCanvas s = v else repaired
      end
  end.

(** The message is a scene-update that carries a document: the one case
    in which [ws.on("message")] gets through [writeCanvas]. *)
Definition carries_document (raw : text) : bool :=
  match JSON_parse raw with
  | Some msg =>
      match prop msg "type", prop msg "data" with
      | Value (JStr type), Value _ => (type =? "scene-update")%string
      | _, _ => false
      end
  | None => false
  end.

(** The message is a scene-update without one: [writeCanvas] takes the time
    and [writeFileSync] throws. *)
Definition lacks_document (raw : text) : bool :=
  match JSON_parse raw with
  | Some msg =>
      match prop msg "type", prop msg "data" with
      | Value (JStr type), Value _ => false
      | Value (JStr type), _ => (type =? "scene-update")%string
      | _, _ => false
      end
  | None => false
  end.

(** The time at which the event makes the relay save the canvas, if it
    does. *)
Definition save_time (e : event) : option Z :=
  match e with
  | PUT_canvas _ _ now => Some now
  | ws_message _ raw now => if carries_document raw then Some now else None
  | _ => None
  end.

(** The time of the relay's latest save in a trace; [start] when the trace
    has none. *)
Fixpoint last_save (start : Z) (trace : list event) : Z :=
  match trace with
  | [] => start
  | e :: rest =>
      last_save (match save_time e with Some now => now | None => start end) rest
  end.

Definition stamps_without_saving (e : event) : bool :=
  match e with
  | ws_message _ raw _ => lacks_document raw
  | _ => false
  end.

End Server.

(** ** [cli/index.js]: the [update] and [delete] commands *)

Module Cli.

(** The canvas file as [existsSync] and [JSON.parse] see it. *)
Inductive file_state :=
| Absent
| Unparseable
| Holds (canvas : Scene.t).

(** What a run of the CLI finds around it.  [server_get] is the document
    that [GET /api/canvas] answers with an ok status, [None] when the fetch
    throws or is not ok; [server_put] tells whether the [PUT] is answered
    ok. *)
Record env := {
  CANVAS_FILE : string;
  useFile : bool;
  server_get : option Scene.t;
  server_put : bool;
  file : file_state;
}.

Inductive effect :=
| PUT (canvas : Scene.t)
| writeFileSync (canvas : Scene.t)
| console_log (line : string)
| console_error (line : string)
| process_exit (code : Z).

(** [main().catch]: the message is printed and the process exits with 1. *)
Definition uncaught (message : string) : list effect :=
  [console_error message; process_exit 1].

Definition SyntaxError : string := "Unexpected token in JSON".
Definition elements_undefined : string :=
  "Cannot read properties of undefined".

(** [readCanvas()]: the document, or the effects that end the process. *)
Definition readCanvas (e : env) : Scene.t + list effect :=
  match (if useFile e then None else server_get e) with
  | Some canvas => inl canvas
  | None =>
      match file e with
      | Holds canvas => inl canvas
      | Unparseable => inr (uncaught SyntaxError)
      | Absent =>
          inr [console_error "Server not reachable and no local canvas file found.";
               process_exit 1]
      end
  end.

(** [writeCanvas(data)] *)
Definition writeCanvas (e : env) (data : Scene.t) : list effect :=
  if negb (useFile e) && server_put e
  then [PUT data; console_log "Canvas updated (synced to browser)"]
  else [writeFileSync data; console_log ("Written to " ++ CANVAS_FILE e)%string].

(** The parsed [updates] argument of [update]: the properties it sets.
    Its [version], [versionNonce] and [updated] are overwritten by the
    command and so are left out. *)
Record patch := {
  set_id : option string;
  set_type : option string;
  set_isDeleted : option bool;
  set_props : list (string * string);
}.

Fixpoint lookup (k : string) (l : list (string * string)) : option string :=
  match l with
  | [] => None
  | (k', v) :: rest => if (k' =? k)%string then Some v else lookup k rest
  end.

(** [{...a, ...b}] on the free-form properties. *)
Definition spread (a b : list (string * string)) : list (string * string) :=
  map (fun kv => (fst kv, match lookup (fst kv) b with
                          | Some v => v
                          | None => snd kv
                          end)) a
  ++ filter (fun kv => match lookup (fst kv) a with
                       | Some _ => false
                       | None => true
                       end) b.

Definition or_else {A : Type} (o : option A) (d : A) : A :=
  match o with
  | Some x => x
  | None => d
  end.

(** The object literal assigned to [canvas.elements[idx]]. *)
Definition updated_element (el : element) (updates : patch) (nonce now : Z) : element :=
  {| id := or_else (set_id updates) (id el);
     type := or_else (set_type updates) (type el);
     version := Js.to_property (Js.add (version_or_0 el) (Js.Int 1));
     versionNonce := nonce;
     isDeleted := or_else (set_isDeleted updates) (isDeleted el);
     updated := now;
     props := spread (props el) (set_props updates) |}.

(** [elements.findIndex(p)]; [None] is the [-1]. *)
Fixpoint findIndex (p : element -> bool) (l : list element) : option nat :=
  match l with
  | [] => None
  | el :: rest =>
      if p el then Some O
      else match findIndex p rest with
           | Some i => Some (S i)
           | None => None
           end
  end.

Fixpoint assign (idx : nat) (x : element) (l : list element) : list element :=
  match l, idx with
  | [], _ => []
  | _ :: rest, O => x :: rest
  | el :: rest, S i => el :: assign i x rest
  end.

Definition with_elements (canvas : Scene.t) (els : list element) : Scene.t :=
  {| Scene.type := Scene.type canvas; Scene.version := Scene.version canvas;
     Scene.elements := Some els; Scene.appState := Scene.appState canvas;
     Scene.files := Scene.files canvas |}.

(** [case "update"].  [args] are the positional arguments, [updates] the
    result of [JSON.parse] on the rest ([None] when it throws), [nonce] the
    random draw and [now] the clock. *)
Definition update (args : list string) (updates : option patch)
    (nonce now : Z) (e : env) : list effect :=
  match args with
  | [] => [console_error "Usage: drawbridge update <id> <json>"; process_exit 1]
  | "" :: _ => [console_error "Usage: drawbridge update <id> <json>"; process_exit 1]
  | target :: _ =>
      match updates with
      | None => uncaught SyntaxError
      | Some updates =>
          match readCanvas e with
          | inr stop => stop
          | inl canvas =>
              match Scene.elements canvas with
              | None => uncaught elements_undefined
              | Some els =>
                  match findIndex (fun el => (id el =? target)%string) els with
                  | None =>
                      [console_error ("Element '" ++ target ++ "' not found")%string;
                       process_exit 1]
                  | Some idx =>
                      match nth_error els idx with
                      | Some el =>
                          writeCanvas e
                            (with_elements canvas
                               (assign idx (updated_element el updates nonce now) els))
                          ++ [console_log ("Updated element '" ++ target ++ "'")%string]
                      | None => uncaught elements_undefined
                      end
                  end
              end
          end
      end
  end.

(** [idsToDelete.has(el.id)] *)
Definition has (ids : list string) (el : element) : bool :=
  existsb (fun i => (i =? id el)%string) ids.

(** The body of the loop in [case "delete"], for a listed element. *)
Definition deleted_element (el : element) (now : Z) : element :=
  {| id := id el; type := type el;
     version := Js.to_property (Js.add (version_or_0 el) (Js.Int 1));
     versionNonce := versionNonce el;
     isDeleted := true;
     updated := now;
     props := props el |}.

(** The loop of [case "delete"]: the elements after it, and [count]. *)
Fixpoint delete_loop (ids : list string) (now : Z) (els : list element)
  : list element * Z :=
  match els with
  | [] => ([], 0)
  | el :: rest =>
      let '(rest', count) := delete_loop ids now rest in
      if has ids el then (deleted_element el now :: rest', count + 1)
      else (el :: rest', count)
  end.

(** [case "delete"] *)
Definition delete (args : list string) (now : Z) (e : env) : list effect :=
  match args with
  | [] => [console_error "Usage: drawbridge delete <id> [id...]"; process_exit 1]
  | _ =>
      match readCanvas e with
      | inr stop => stop
      | inl canvas =>
          match Scene.elements canvas with
          | None => uncaught elements_undefined
          | Some els =>
              let '(els', count) := delete_loop args now els in
              writeCanvas e (with_elements canvas els')
              ++ [console_log ("Deleted " ++ Js.decimal count
                                          ++ " element(s)")%string]
          end
      end
  end.

Definition is_write (x : effect) : bool :=
  match x with
  | PUT _ | writeFileSync _ => true
  | _ => false
  end.

(** No element of the document carries the identifier. *)
Definition unknown (target : string) (els : list element) : Prop :=
  forall el, In el els -> id el <> target.

(** The command was rejected: it ended the process with status 1 and
    wrote nothing, neither to the server nor to the file. *)
Definition rejected (out : list effect) : Prop :=
  filter is_write out = [] /\ In (process_exit 1) out.

End Cli.

(** ** [lib/elements.js] *)

Module Elements.

(** The values the factory handles.  Numbers are rationals: the only
    number that is not integral, the [lineHeight] of 1.25, is an exact one. *)
#[local] Unset Elimination Schemes.
Inductive value :=
| VNull
| VBool (b : bool)
| VNum (q : QArith_base.Q)
| VStr (s : string)
| VArr (items : list value)
| VObj (props : list (string * value)).
#[local] Set Elimination Schemes.

(** An object: its own properties in insertion order.  Property names are
    taken not to be array indices, which JavaScript would list first. *)
Definition object := list (string * value).

(** [o[k]] on an object; [None] is [undefined]. *)
Fixpoint get (k : string) (o : object) : option value :=
  match o with
  | [] => None
  | (k', v) :: rest => if (k' =? k)%string then Some v else get k rest
  end.

(** [o[k] = v]: an existing property keeps its place. *)
Fixpoint set (k : string) (v : value) (o : object) : object :=
  match o with
  | [] => [(k, v)]
  | (k', v') :: rest =>
      if (k' =? k)%string then (k, v) :: rest else (k', v') :: set k v rest
  end.

(** [{...a, ...b}], and an object literal that ends in [...b]. *)
Definition spread (a b : object) : object :=
  fold_left (fun acc kv => set (fst kv) (snd kv) acc) b a.

Definition keys (o : object) : list string := map fst o.

Definition truthy (v : value) : bool :=
  match v with
  | VNull => false
  | VBool b => b
  | VNum q => negb (QArith_base.Qnum q =? 0)
  | VStr s => negb (s =? "")%string
  | VArr _ | VObj _ => true
  end.

(** What one call of [baseElement] draws from the outside. *)
Record entropy := {
  randomId : string;
  seed : Z;                 (* the first [randomSeed()] *)
  nonce : Z;                (* the second [randomSeed()] *)
  now : Z;                  (* [Date.now()] *)
}.

Definition integer (n : Z) : value := VNum (QArith_base.Qmake n 1).

Definition digit36 (d : N) : ascii :=
  match String.get (N.to_nat d) "0123456789abcdefghijklmnopqrstuvwxyz" with
  | Some c => c
  | None => "0"%char
  end.

(** The digits of [n] in base 36, most significant first, before [acc]. *)
Fixpoint digits36 (fuel : nat) (n : N) (acc : string) : string :=
  match fuel with
  | O => acc
  | S fuel' =>
      let acc' := String (digit36 (n mod 36)%N) acc in
      if (n / 36 =? 0)%N then acc' else digits36 fuel' (n / 36)%N acc'
  end.

(** [n.toString(36)]; a number has fewer base-36 digits than bits. *)
Definition toString36 (n : N) : string :=
  digits36 (S (N.to_nat (N.log2 n))) n "".

(** [s.padStart(4, "0")] *)
Definition padStart4 (s : string) : string :=
  (string_of_list_ascii (repeat "0"%char (4 - String.length s)) ++ s)%string.

(** [nextIndex()] when [_indexCounter] is [i]. *)
Definition nextIndex (i : N) : string :=
  ("z" ++ padStart4 (toString36 i))%string.

(** [baseElement(overrides)] when [_indexCounter] is [i]. *)
Definition baseElement (e : entropy) (i : N) (overrides : object) : object :=
  spread
    [("id", VStr (randomId e));
     ("fillStyle", VStr "solid");
     ("strokeWidth", integer 2);
     ("strokeStyle", VStr "solid");
     ("roughness", integer 1);
     ("opacity", integer 100);
     ("angle", integer 0);
     ("strokeColor", VStr "#1e1e1e");
     ("backgroundColor", VStr "transparent");
     ("seed", integer (seed e));
     ("version", integer 1);
     ("versionNonce", integer (nonce e));
     ("updated", integer (now e));
     ("isDeleted", VBool false);
     ("groupIds", VArr []);
     ("frameId", VNull);
     ("index", VStr (nextIndex i));
     ("roundness", VNull);
     ("boundElements", VNull);
     ("link", VNull);
     ("locked", VBool false)]
    overrides.

(** [rect(x, y, width, height, opts)] *)
Definition rect (e : entropy) (i : N) (x y width height : value) (opts : object)
  : object :=
  baseElement e i
    (spread [("type", VStr "rectangle"); ("x", x); ("y", y);
             ("width", width); ("height", height);
             ("roundness", VObj [("type", integer 3)])]
            opts).

(** [ellipse(x, y, width, height, opts)] *)
Definition ellipse (e : entropy) (i : N) (x y width height : value) (opts : object)
  : object :=
  baseElement e i
    (spread [("type", VStr "ellipse"); ("x", x); ("y", y);
             ("width", width); ("height", height)]
            opts).

(** [diamond(x, y, width, height, opts)] *)
Definition diamond (e : entropy) (i : N) (x y width height : value) (opts : object)
  : object :=
  baseElement e i
    (spread [("type", VStr "diamond"); ("x", x); ("y", y);
             ("width", width); ("height", height)]
            opts).

(** A call that returns or throws an [Error] with a message. *)
Inductive result (A : Type) :=
| Returned (a : A)
| Threw (message : string).
Arguments Returned {A} a.
Arguments Threw {A} message.

Definition is_string (v : value) (s : string) : bool :=
  match v with
  | VStr s' => (s' =? s)%string
  | _ => false
  end.

(** The [typeDefaults] object that [normalize] builds for [partial]. *)
Definition typeDefaults (type : value) (partial : object) : object :=
  let t0 : object := [] in
  let t1 :=
    if is_string type "text" then
      let t := set "lineHeight" (VNum (QArith_base.Qmake 5 4))
                 (set "containerId" VNull
                    (set "autoResize" (VBool true)
                       (set "verticalAlign" (VStr "top")
                          (set "textAlign" (VStr "left")
                             (set "fontFamily" (integer 5)
                                (set "fontSize" (integer 20) t0)))))) in
      match get "text" partial with
      | Some text => if truthy text then set "originalText" text t else t
      | None => t
      end
    else t0 in
  let t2 :=
    if is_string type "rectangle"
    then set "roundness" (VObj [("type", integer 3)]) t1 else t1 in
  if is_string type "arrow"
  then set "startArrowhead" VNull (set "endArrowhead" (VStr "arrow") t2)
  else t2.

Definition no_type : string := "Element must have a 'type' field".

(** [normalize(partial)] when [_indexCounter] is [i]: the result and the
    counter afterwards.  Only an object can have a [type]; every other
    value is falsy or reads [undefined] there. *)
Definition normalize (draw : N -> entropy) (i : N) (partial : value)
  : result object * N :=
  match partial with
  | VObj p =>
      match get "type" p with
      | Some type =>
          if truthy type then
            let defaults := baseElement (draw i) i [] in
            (Returned (spread (spread (spread [] defaults) (typeDefaults type p)) p),
             (i + 1)%N)
          else (Threw no_type, i)
      | None => (Threw no_type, i)
      end
  | _ => (Threw no_type, i)
  end.

(** [normalizeAll(elements)]: [map] stops at the first exception. *)
Fixpoint normalizeAll (draw : N -> entropy) (i : N) (elements : list value)
  : result (list object) * N :=
  match elements with
  | [] => (Returned [], i)
  | el :: rest =>
      match normalize draw i el with
      | (Returned o, i1) =>
          match normalizeAll draw i1 rest with
          | (Returned os, i2) => (Returned (o :: os), i2)
          | (Threw m, i2) => (Threw m, i2)
          end
      | (Threw m, i1) => (Threw m, i1)
      end
  end.

(** [el.id] and [el.version]: reading a property of [null] throws, of an
    object gives the property, of any other value gives [undefined] for
    these two names. *)
Definition member (el : value) (k : string) : result (option value) :=
  match el with
  | VNull => Threw "Cannot read properties of null"
  | VObj p => Returned (get k p)
  | _ => Returned None
  end.

(** Key equality of a [Map] (SameValueZero) on what [el.id] can be:
    primitives are compared by value; arrays and objects built by
    [JSON.parse] are each their own key. *)
Definition same_key (a b : option value) : bool :=
  match a, b with
  | None, None => true
  | Some VNull, Some VNull => true
  | Some (VBool x), Some (VBool y) => Bool.eqb x y
  | Some (VNum x), Some (VNum y) => QArith_base.Qeq_bool x y
  | Some (VStr x), Some (VStr y) => (x =? y)%string
  | _, _ => false
  end.

(** The [Map]: its entries in insertion order. *)
Definition Map := list (option value * value).

(** [map.set(key, v)] *)
Fixpoint Map_set (key : option value) (v : value) (m : Map) : Map :=
  match m with
  | [] => [(key, v)]
  | (key', v') :: rest =>
      if same_key key' key then (key', v) :: rest
      else (key', v') :: Map_set key v rest
  end.

(** [map.get(key)] *)
Fixpoint Map_get (key : option value) (m : Map) : option value :=
  match m with
  | [] => None
  | (key', v) :: rest => if same_key key' key then Some v else Map_get key rest
  end.

(** The first loop of [mergeElements]. *)
Fixpoint index_existing (existing : list value) (m : Map) : result Map :=
  match existing with
  | [] => Returned m
  | el :: rest =>
      match member el "id" with
      | Returned key => index_existing rest (Map_set key el m)
      | Threw msg => Threw msg
      end
  end.

(** [el.version != null] *)
Definition has_version (version : option value) : bool :=
  match version with
  | None | Some VNull => false
  | Some _ => true
  end.

(** The second loop of [mergeElements]. *)
Fixpoint merge_incoming (draw : N -> entropy) (i : N) (incoming : list value)
    (m : Map) : result Map * N :=
  match incoming with
  | [] => (Returned m, i)
  | el :: rest =>
      match member el "version" with
      | Threw msg => (Threw msg, i)
      | Returned version =>
          if has_version version then
            match member el "id" with
            | Returned key => merge_incoming draw i rest (Map_set key el m)
            | Threw msg => (Threw msg, i)
            end
          else
            match normalize draw i el with
            | (Returned normalized, i1) =>
                merge_incoming draw i1 rest
                  (Map_set (get "id" normalized) (VObj normalized) m)
            | (Threw msg, i1) => (Threw msg, i1)
            end
      end
  end.

(** [mergeElements(existing, incoming)] *)
Definition mergeElements (draw : N -> entropy) (i : N)
    (existing incoming : list value) : result (list value) * N :=
  match index_existing existing [] with
  | Threw msg => (Threw msg, i)
  | Returned m =>
      match merge_incoming draw i incoming m with
      | (Returned m', i') => (Returned (map snd m'), i')
      | (Threw msg, i') => (Threw msg, i')
      end
  end.

(** The identifier an element is filed under. *)
Definition id_of (el : value) : option value :=
  match el with
  | VObj p => get "id" p
  | _ => None
  end.

(** An element as the commands produce and store it: an object with a
    string [id] and a [version]. *)
Definition stored (el : value) : Prop :=
  exists p s, el = VObj p /\ get "id" p = Some (VStr s)
              /\ has_version (get "version" p) = true.

(** No two elements are filed under the same key. *)
Fixpoint distinct_ids (els : list value) : Prop :=
  match els with
  | [] => True
  | el :: rest =>
      (forall other, In other rest -> same_key (id_of el) (id_of other) = false)
      /\ distinct_ids rest
  end.

(** The names [baseElement] defines. *)
Definition base_keys : list string :=
  ["id"; "fillStyle"; "strokeWidth"; "strokeStyle"; "roughness"; "opacity";
   "angle"; "strokeColor"; "backgroundColor"; "seed"; "version"; "versionNonce";
   "updated"; "isDeleted"; "groupIds"; "frameId"; "index"; "roundness";
   "boundElements"; "link"; "locked"].

(** An element with a string [id]. *)
Definition keyed (el : value) : Prop :=
  exists p s, el = VObj p /\ get "id" p = Some (VStr s).

(** The string [id] of an element, [""] when it has none. *)
Definition string_id (el : value) : string :=
  match id_of el with
  | Some (VStr s) => s
  | _ => ""
  end.

(** The members of a list in the order of their first occurrence. *)
Fixpoint firsts (ks : list string) : list string :=
  match ks with
  | [] => []
  | k :: rest => k :: filter (fun x => negb (x =? k)%string) (firsts rest)
  end.

(** The last element of a list that has the identifier. *)
Fixpoint last_with (s : string) (els : list value) : option value :=
  match els with
  | [] => None
  | el :: rest =>
      match last_with s rest with
      | Some x => Some x
      | None => if same_key (id_of el) (Some (VStr s)) then Some el else None
      end
  end.

(** The first element of a list that has the identifier. *)
Definition find_id (s : string) (els : list value) : option value :=
  find (fun el => same_key (id_of el) (Some (VStr s))) els.

Definition skey (s : string) : option value := Some (VStr s).

(** One step of either loop of [mergeElements] on an element that needs
    no normalising: [map.set(el.id, el)]. *)
Definition file (m : Map) (el : value) : Map := Map_set (id_of el) el m.

(** Every entry of the map is filed under the string [id] of its element. *)
Definition filed (m : Map) : Prop :=
  forall k v, In (k, v) m -> id_of v = k /\ k = skey (string_id v).

Definition ids (els : list value) : list string := map string_id els.

End Elements.

(** ** [cli/index.js]: arguments, and the commands built on the factory *)

Module CliArgs.

(** A value of the [flags] map: [true], a text, or [null]. *)
Inductive flag_value :=
| flag_true
| flag_text (s : string)
| flag_null.

(** The [flags] map: its entries in insertion order. *)
Definition flag_map := list (string * flag_value).

(** [flags.set(name, v)] *)
Fixpoint flags_set (name : string) (v : flag_value) (flags : flag_map) : flag_map :=
  match flags with
  | [] => [(name, v)]
  | (name', v') :: rest =>
      if (name' =? name)%string then (name', v) :: rest
      else (name', v') :: flags_set name v rest
  end.

Fixpoint flags_get (name : string) (flags : flag_map) : option flag_value :=
  match flags with
  | [] => None
  | (name', v) :: rest => if (name' =? name)%string then Some v else flags_get name rest
  end.

(** [VALUED_FLAGS.has(a)] *)
Definition VALUED_FLAGS (a : string) : bool :=
  (a =? "--size")%string || (a =? "--color")%string.

(** [a.startsWith("--")] *)
Definition is_flag (a : string) : bool := String.prefix "--" a.

(** The loop over [rawArgs], from the arguments still to read. *)
Fixpoint parse (rawArgs : list string) (flags : flag_map) (args : list string)
  : flag_map * list string :=
  match rawArgs with
  | [] => (flags, args)
  | a :: rest =>
      if is_flag a then
        if VALUED_FLAGS a then
          match rest with
          | [] => (flags_set a flag_null flags, args)
          | v :: rest' =>
              parse rest'
                (flags_set a (if (v =? "")%string then flag_null else flag_text v) flags)
                args
          end
        else parse rest (flags_set a flag_true flags) args
      else if (a =? "-f")%string then parse rest (flags_set "--file" flag_true flags) args
      else parse rest flags (args ++ [a])
  end.

(** [flags.has("--file")] *)
Definition useFile (flags : flag_map) : bool :=
  match flags_get "--file" flags with
  | Some _ => true
  | None => false
  end.

(** [getFlag(name)]: [flags.get(name) || null] *)
Definition getFlag (name : string) (flags : flag_map) : flag_value :=
  match flags_get name flags with
  | Some flag_true => flag_true
  | Some (flag_text s) => flag_text s
  | Some flag_null | None => flag_null
  end.

(** A token the loop does not keep as a positional argument. *)
Definition dashed (a : string) : bool := is_flag a || (a =? "-f")%string.

(** [l] is [big] with some of its members left out. *)
Fixpoint subsequence (l big : list string) : Prop :=
  match big with
  | [] => l = []
  | b :: big' =>
      subsequence l big'
      \/ match l with
         | [] => False
         | a :: l' => a = b /\ subsequence l' big'
         end
  end.

End CliArgs.

Module CliElements.
Import Elements.

(** [Array.isArray(newElements) ? newElements : [newElements]] *)
Definition as_array (newElements : value) : list value :=
  match newElements with
  | VArr items => items
  | other => [other]
  end.

(** [canvas.elements || []], as the array both commands need; [None] for
    a truthy value that is not an array. *)
Definition elements_or_empty (canvas : object) : option (list value) :=
  match get "elements" canvas with
  | None => Some []
  | Some (VArr items) => Some items
  | Some v => if truthy v then None else Some []
  end.

(** [addElements(newElements)] between [readCanvas] and [writeCanvas]:
    the canvas handed to [writeCanvas] and the normalised elements, or the
    exception that ends the command.  [existing] is [canvas.elements || []]
    for a canvas where that is an array ([elements_or_empty]). *)
Definition addElements (draw : N -> entropy) (i : N) (canvas : object)
    (existing : list value) (newElements : value)
  : result (object * list object) * N :=
  match normalizeAll draw i (as_array newElements) with
  | (Returned normalized, i') =>
      (Returned (set "elements" (VArr (existing ++ map VObj normalized)) canvas,
                 normalized), i')
  | (Threw msg, i') => (Threw msg, i')
  end.

(** [mergeIncoming(newElements)], likewise. *)
Definition mergeIncoming (draw : N -> entropy) (i : N) (canvas : object)
    (existing : list value) (newElements : value)
  : result (object * list object) * N :=
  match normalizeAll draw i (as_array newElements) with
  | (Returned normalized, i1) =>
      match mergeElements draw i1 existing (map VObj normalized) with
      | (Returned merged, i2) =>
          (Returned (set "elements" (VArr merged) canvas, normalized), i2)
      | (Threw msg, i2) => (Threw msg, i2)
      end
  | (Threw msg, i') => (Threw msg, i')
  end.

(** An object with a truthy [type]: what [normalize] accepts. *)
Definition typed (el : value) : bool :=
  match el with
  | VObj p =>
      match get "type" p with
      | Some type => truthy type
      | None => false
      end
  | _ => false
  end.

End CliElements.

(** ** Views on the client's events and effects *)

Module AppView.

Definition is_ws_send (x : App.effect) : bool :=
  match x with
  | App.ws_send _ => true
  | _ => false
  end.

Definition is_onChange (e : App.event) : bool :=
  match e with
  | App.onChange _ _ _ => true
  | _ => false
  end.

(** The [onChange] call with the given arguments. *)
Definition change (args : list element * appstate * option attachments) : App.event :=
  App.onChange (fst (fst args)) (snd (fst args)) (snd args).

End AppView.

(** ** A view on the [delete] command *)

Module CliView.

(** What the loop of [delete] makes of one element. *)
Definition mark (ids : list string) (now : Z) (el : element) : element :=
  if Cli.has ids el then Cli.deleted_element el now else el.

End CliView.

(** ** A view on the index strings *)

Module IndexView.

(** The four base-36 digits of a number below [36^4], most significant
    first. *)
Definition width4 (i : N) : string :=
  String (Elements.digit36 (i / 46656 mod 36)%N)
    (String (Elements.digit36 (i / 1296 mod 36)%N)
       (String (Elements.digit36 (i / 36 mod 36)%N)
          (String (Elements.digit36 (i mod 36)%N) ""))).

Definition below36 : list N := map N.of_nat (seq 0 36).

End IndexView.

(** ** Sample data for the examples *)

Definition rectangle (v : option Z) (deleted : bool) : element :=
  {| id := "r1"; type := "rectangle"; version := v; versionNonce := 7;
     isDeleted := deleted; updated := 0; props := [("backgroundColor", "#a5d8ff")] |}.

Definition scene_of (els : option (list element)) : Scene.t :=
  {| Scene.type := "excalidraw"; Scene.version := 2; Scene.elements := els;
     Scene.appState := {| viewBackgroundColor := Some "#ffffff" |};
     Scene.files := [] |}.

Definition scene_update_of (D : Scene.t) : App.Msg.t :=
  {| App.Msg.type := "scene-update"; App.Msg.data := Some D |}.

Definition three_sockets : list Server.socket :=
  [ {| Server.ws_id := 1%nat; Server.readyState := 1 |};
    {| Server.ws_id := 2%nat; Server.readyState := 2 |};
    {| Server.ws_id := 3%nat; Server.readyState := 1 |} ].

Definition one_rectangle : Server.json :=
  Server.JObj
    [("type", Server.JStr "excalidraw");
     ("version", Server.JNum 2);
     ("elements",
      Server.JArr [Server.JObj [("id", Server.JStr "r1");
                                ("type", Server.JStr "rectangle");
                                ("version", Server.JNum 1)]]);
     ("appState", Server.JObj [("viewBackgroundColor", Server.JStr "#ffffff")]);
     ("files", Server.JObj [])].

Definition old_schema : Server.json :=
  Server.JObj [("type", Server.JStr "excalidraw");
               ("version", Server.JNum 1);
               ("elements", Server.JArr [])].

Definition another_canvas : Server.json :=
  Server.JObj [("type", Server.JStr "excalidraw");
               ("version", Server.JNum 2);
               ("elements",
                Server.JArr [Server.JObj [("id", Server.JStr "e9");
                                          ("type", Server.JStr "ellipse");
                                          ("version", Server.JNum 4)]])].

(** A session saves at 1000 ms; at 5000 ms it sends a scene-update without
    a document; another process rewrites the file; the watcher reports the
    change at 5300 ms. *)
Definition save_at_1000 : list Server.event :=
  [Server.connection 1%nat; Server.connection 2%nat;
   Server.ws_message 1%nat
     (Server.Text_json (Server.JObj [("type", Server.JStr "scene-update");
                                     ("data", one_rectangle)])) 1000].

Definition update_without_document : Server.event :=
  Server.ws_message 1%nat
    (Server.Text_json (Server.JObj [("type", Server.JStr "scene-update")])) 5000.

Definition relay_with (file : option Server.text) (lastWrite : Z)
    (cl : list Server.socket) : Server.relay :=
  {| Server.CANVAS_FILE := file; Server.lastWriteFromClient := lastWrite;
     Server.pendingExportResolve := None; Server.timers := [];
     Server.next_handle := 0%nat; Server.clients := cl |}.

Definition file_mode (canvas : Scene.t) : Cli.env :=
  {| Cli.CANVAS_FILE := "canvas.excalidraw"; Cli.useFile := true;
     Cli.server_get := None; Cli.server_put := false;
     Cli.file := Cli.Holds canvas |}.

Definition sample_draw (i : N) : Elements.entropy :=
  {| Elements.randomId := "Ab3dE6gH"; Elements.seed := 1234 + Z.of_N i;
     Elements.nonce := 5678; Elements.now := 1700000000000 |}.

Definition partial_text : Elements.object :=
  [("type", Elements.VStr "text"); ("text", Elements.VStr "hi");
   ("x", Elements.integer 10)].

Definition blue : Elements.object :=
  [("backgroundColor", Elements.VStr "#a5d8ff")].

Definition stored_element (name : string) (v : Z) : Elements.value :=
  Elements.VObj [("id", Elements.VStr name); ("type", Elements.VStr "rectangle");
                 ("version", Elements.integer v)].

Definition partial_a : Elements.object :=
  [("id", Elements.VStr "a"); ("type", Elements.VStr "rectangle");
   ("x", Elements.integer 200)].

Definition canvas_ab : Elements.object :=
  [("type", Elements.VStr "excalidraw"); ("version", Elements.integer 2);
   ("elements", Elements.VArr [stored_element "a" 4; stored_element "b" 1])].

Definition empty_canvas : Elements.object :=
  [("type", Elements.VStr "excalidraw"); ("version", Elements.integer 2);
   ("elements", Elements.VArr [])].

(** * Proofs *)

Module JsFacts.
Import Js.

Lemma colon_free_uint (d : uint) : colon_free (NilEmpty.string_of_uint d) = true.
Proof. induction d; simpl; auto. Qed.

Lemma colon_free_decimal (n : Z) : colon_free (decimal n) = true.
Proof.
  unfold decimal.
  destruct (Z.to_int n) as [d | d]; simpl;
    destruct d; simpl; auto using colon_free_uint.
Qed.

Lemma split_colon_app (a b : string) :
  colon_free a = true -> split_colon (a ++ ":" ++ b)%string = (a, b).
Proof.
  induction a as [| c a IH]; simpl; intros H.
  - reflexivity.
  - apply andb_true_iff in H as [Hc Ha].
    apply negb_true_iff in Hc. rewrite Hc.
    specialize (IH Ha). simpl in IH. rewrite IH. reflexivity.
Qed.

Lemma to_uint_not_Nil (p : positive) : Pos.to_uint p <> Nil.
Proof.
  intros H. pose proof (DecimalPos.Unsigned.of_to p) as E.
  rewrite H in E. discriminate E.
Qed.

Lemma decimal_inj (a b : Z) : decimal a = decimal b -> a = b.
Proof.
  unfold decimal. intros H.
  assert (I : forall z, NilZero.int_of_string (NilZero.string_of_int (Z.to_int z))
                        = Some (Z.to_int z)).
  { intros z. apply NilZero.isi; destruct z; simpl; try discriminate;
      intros [= E]; exact (to_uint_not_Nil _ E). }
  pose proof (I a) as Ia. rewrite H, I in Ia. injection Ia as E.
  rewrite <- (DecimalZ.of_to a), <- (DecimalZ.of_to b), E. reflexivity.
Qed.

(** The text [count:sum] determines the two integers. *)
Lemma text_inj (c v c' v' : Z) :
  (decimal c ++ ":" ++ decimal v)%string = (decimal c' ++ ":" ++ decimal v')%string ->
  c = c' /\ v = v'.
Proof.
  intros H.
  pose proof (split_colon_app (decimal c) (decimal v) (colon_free_decimal c)) as L.
  pose proof (split_colon_app (decimal c') (decimal v') (colon_free_decimal c')) as R.
  rewrite H, R in L. injection L as Ec Ev.
  split; apply decimal_inj; congruence.
Qed.

(** Below [2^53] an integer is a binary64 number and prints as itself. *)
Lemma round64_exact (z : Z) : Z.abs z < 2 ^ 53 -> round64 z = Int z.
Proof.
  intros H. unfold round64. apply Z.ltb_lt in H. rewrite H. reflexivity.
Qed.

Lemma Number_toString_exact (z : Z) :
  Z.abs z < 2 ^ 53 -> Number_toString (Int z) = decimal z.
Proof.
  intros H. unfold Number_toString. apply Z.ltb_lt in H. rewrite H. reflexivity.
Qed.

Lemma add_exact (x y : Z) :
  Z.abs x + Z.abs y < 2 ^ 53 -> add (Int x) (Int y) = Int (x + y).
Proof.
  intros H. unfold add. apply round64_exact.
  remember (2 ^ 53) as B. lia.
Qed.

End JsFacts.

Module AppFacts.
Import App.

Lemma version_or_0_exact (el : element) :
  Z.abs (written el) < 2 ^ 53 -> version_or_0 el = Js.Int (written el).
Proof.
  unfold version_or_0, written. destruct (version el) as [v |]; [| reflexivity].
  intros H. rewrite (JsFacts.round64_exact v H). unfold Js.or_0.
  destruct (Z.eqb_spec v 0) as [-> | _]; reflexivity.
Qed.

Lemma activeCount_cons (el : element) (E : list element) :
  activeCount (el :: E) = (if isDeleted el then 0 else 1) + activeCount E.
Proof.
  unfold activeCount, active. cbn [filter].
  destruct (isDeleted el); cbn [negb List.length]; lia.
Qed.

Lemma versionSum_cons (el : element) (E : list element) :
  versionSum (el :: E) = (if isDeleted el then 0 else written el) + versionSum E.
Proof.
  unfold versionSum, active, written. cbn [filter].
  destruct (isDeleted el); cbn [negb fold_right]; lia.
Qed.

Lemma magnitude_cons (el : element) (E : list element) :
  magnitude (el :: E)
  = (if isDeleted el then 0 else Z.abs (written el)) + magnitude E.
Proof.
  unfold magnitude, active. cbn [filter].
  destruct (isDeleted el); cbn [negb fold_right]; lia.
Qed.

Lemma magnitude_nonneg (E : list element) : 0 <= magnitude E.
Proof.
  induction E as [| el E IH]; [unfold magnitude; simpl; lia |].
  rewrite magnitude_cons. destruct (isDeleted el); lia.
Qed.

Lemma activeCount_app (E1 E2 : list element) :
  activeCount (E1 ++ E2) = activeCount E1 + activeCount E2.
Proof.
  induction E1 as [| a E1 IH]; [reflexivity |].
  rewrite <- app_comm_cons, !activeCount_cons, IH. lia.
Qed.

Lemma versionSum_app (E1 E2 : list element) :
  versionSum (E1 ++ E2) = versionSum E1 + versionSum E2.
Proof.
  induction E1 as [| a E1 IH]; [reflexivity |].
  rewrite <- app_comm_cons, !versionSum_cons, IH. lia.
Qed.

Lemma magnitude_app (E1 E2 : list element) :
  magnitude (E1 ++ E2) = magnitude E1 + magnitude E2.
Proof.
  induction E1 as [| a E1 IH]; [reflexivity |].
  rewrite <- app_comm_cons, !magnitude_cons, IH. lia.
Qed.

(** The count is exact whatever the versions are. *)
Lemma fingerprint_loop_count (E : list element) :
  forall count vSum,
    fst (fingerprint_loop E count vSum) = count + activeCount E.
Proof.
  induction E as [| el E IH]; intros count vSum.
  - cbn. lia.
  - cbn [fingerprint_loop]. rewrite activeCount_cons.
    destruct (isDeleted el); cbn [negb]; rewrite IH; lia.
Qed.

(** While the magnitudes add up to less than [2^53], no addition rounds. *)
Lemma fingerprint_loop_exact (E : list element) :
  forall count a,
    Z.abs a + magnitude E < 2 ^ 53 ->
    fingerprint_loop E count (Js.Int a)
    = (count + activeCount E, Js.Int (a + versionSum E)).
Proof.
  induction E as [| el E IH]; intros count a H.
  - cbn. rewrite !Z.add_0_r. reflexivity.
  - cbn [fingerprint_loop].
    rewrite activeCount_cons, versionSum_cons. rewrite magnitude_cons in H.
    pose proof (magnitude_nonneg E) as P.
    destruct (isDeleted el); cbn [negb].
    + rewrite (IH count a) by lia. f_equal.
    + rewrite version_or_0_exact by (remember (2 ^ 53) as B; lia).
      rewrite JsFacts.add_exact by (remember (2 ^ 53) as B; lia).
      rewrite IH by (remember (2 ^ 53) as B; lia).
      f_equal; [lia | f_equal; lia].
Qed.

Lemma versionSum_le_magnitude (E : list element) :
  Z.abs (versionSum E) <= magnitude E.
Proof.
  induction E as [| el E IH]; [unfold versionSum, magnitude; simpl; lia |].
  rewrite versionSum_cons, magnitude_cons. destruct (isDeleted el); lia.
Qed.

Lemma sceneFingerprint_loop (E : list element) :
  sceneFingerprint (Some E)
  = template (activeCount E) (snd (fingerprint_loop E 0 (Js.Int 0))).
Proof.
  destruct E as [| el E]; [reflexivity |].
  unfold sceneFingerprint.
  pose proof (fingerprint_loop_count (el :: E) 0 (Js.Int 0)) as C.
  destruct (fingerprint_loop (el :: E) 0 (Js.Int 0)) as [count vSum].
  cbn [fst snd] in *. rewrite C. reflexivity.
Qed.

Lemma sceneFingerprint_exact (E : list element) :
  magnitude E < 2 ^ 53 ->
  sceneFingerprint (Some E)
  = (Js.decimal (activeCount E) ++ ":" ++ Js.decimal (versionSum E))%string.
Proof.
  intros H. rewrite sceneFingerprint_loop.
  rewrite fingerprint_loop_exact by (remember (2 ^ 53) as B; simpl Z.abs; lia).
  cbn [snd]. unfold template. rewrite Z.add_0_l.
  rewrite JsFacts.Number_toString_exact; [reflexivity |].
  pose proof (versionSum_le_magnitude E). remember (2 ^ 53) as B. lia.
Qed.

(** Equal fingerprints count the same number of visible elements. *)
Lemma sceneFingerprint_count (E1 E2 : list element) :
  sceneFingerprint (Some E1) = sceneFingerprint (Some E2) ->
  activeCount E1 = activeCount E2.
Proof.
  rewrite !sceneFingerprint_loop. unfold template. intros H.
  pose proof (JsFacts.split_colon_app (Js.decimal (activeCount E1))
                (Js.Number_toString (snd (fingerprint_loop E1 0 (Js.Int 0))))
                (JsFacts.colon_free_decimal _)) as L.
  pose proof (JsFacts.split_colon_app (Js.decimal (activeCount E2))
                (Js.Number_toString (snd (fingerprint_loop E2 0 (Js.Int 0))))
                (JsFacts.colon_free_decimal _)) as R.
  rewrite H, R in L. injection L as Ec _.
  apply JsFacts.decimal_inj. congruence.
Qed.

Lemma sceneFingerprint_exact_iff (E1 E2 : list element) :
  magnitude E1 < 2 ^ 53 -> magnitude E2 < 2 ^ 53 ->
  sceneFingerprint (Some E1) = sceneFingerprint (Some E2) <->
  activeCount E1 = activeCount E2 /\ versionSum E1 = versionSum E2.
Proof.
  intros H1 H2. rewrite !sceneFingerprint_exact by assumption. split.
  - apply JsFacts.text_inj.
  - intros [-> ->]. reflexivity.
Qed.

Lemma loop_flags (E1 : list element) :
  forall E2 count vSum,
    map flag_version E1 = map flag_version E2 ->
    fingerprint_loop E1 count vSum = fingerprint_loop E2 count vSum.
Proof.
  induction E1 as [| a E1 IH]; intros [| b E2] count vSum H; try discriminate H.
  - reflexivity.
  - cbn [map] in H. injection H as Hd Hv Hrest.
    cbn [fingerprint_loop]. unfold version_or_0. rewrite Hd, Hv.
    destruct (isDeleted b); cbn [negb]; apply IH, Hrest.
Qed.

Lemma sceneFingerprint_flags (E1 E2 : list element) :
  map flag_version E1 = map flag_version E2 ->
  sceneFingerprint (Some E1) = sceneFingerprint (Some E2).
Proof.
  intros H. destruct E1 as [| a E1], E2 as [| b E2]; try discriminate H.
  - reflexivity.
  - unfold sceneFingerprint. rewrite (loop_flags _ _ 0 (Js.Int 0) H). reflexivity.
Qed.

Lemma pair_permutation (E1 E2 : list element) :
  Permutation E1 E2 ->
  activeCount E1 = activeCount E2 /\ versionSum E1 = versionSum E2
  /\ magnitude E1 = magnitude E2.
Proof.
  induction 1 as [| x l l' _ [Hc [Hs Hm]] | x y l
                  | l l' l'' _ [Hc1 [Hs1 Hm1]] _ [Hc2 [Hs2 Hm2]]].
  - repeat split; reflexivity.
  - rewrite !activeCount_cons, !versionSum_cons, !magnitude_cons, Hc, Hs, Hm.
    repeat split; reflexivity.
  - rewrite !activeCount_cons, !versionSum_cons, !magnitude_cons.
    repeat split; lia.
  - repeat split; congruence.
Qed.

Lemma sceneFingerprint_permutation (E1 E2 : list element) :
  Permutation E1 E2 -> magnitude E1 < 2 ^ 53 ->
  sceneFingerprint (Some E1) = sceneFingerprint (Some E2).
Proof.
  intros P H. destruct (pair_permutation E1 E2 P) as [Hc [Hs Hm]].
  apply sceneFingerprint_exact_iff; auto. rewrite <- Hm. exact H.
Qed.

(** Replacing one element by one whose written version is one more. *)
Lemma raised_changes_fingerprint (pre post : list element) (el el' : element) :
  isDeleted el = false -> isDeleted el' = false ->
  written el' = written el + 1 ->
  magnitude (pre ++ el :: post) + 1 < 2 ^ 53 ->
  sceneFingerprint (Some (pre ++ el' :: post))
  <> sceneFingerprint (Some (pre ++ el :: post)).
Proof.
  intros Hd Hd' V B H.
  assert (M : magnitude (pre ++ el' :: post) <= magnitude (pre ++ el :: post) + 1).
  { rewrite !magnitude_app, !magnitude_cons, Hd, Hd', V. lia. }
  apply sceneFingerprint_exact_iff in H as [_ H];
    try (remember (2 ^ 53) as T; lia).
  rewrite !versionSum_app, !versionSum_cons, Hd, Hd', V in H. lia.
Qed.

(** [(el.version || 0) + 1], as the document then writes it. *)
Lemma raised_version (el : element) :
  Z.abs (written el) + 1 < 2 ^ 53 ->
  Js.to_property (Js.add (version_or_0 el) (Js.Int 1)) = Some (written el + 1).
Proof.
  intros H.
  rewrite version_or_0_exact by (remember (2 ^ 53) as B; lia).
  rewrite JsFacts.add_exact by (remember (2 ^ 53) as B; simpl Z.abs; lia).
  reflexivity.
Qed.


(** A deleted element is skipped, whatever its version. *)
Lemma loop_deleted (pre post : list element) (x y : element) :
  isDeleted x = true -> isDeleted y = true ->
  forall count vSum,
    fingerprint_loop (pre ++ x :: post) count vSum
    = fingerprint_loop (pre ++ y :: post) count vSum.
Proof.
  intros Hx Hy. induction pre as [| a pre IH]; intros count vSum.
  - simpl. rewrite Hx, Hy. reflexivity.
  - rewrite <- !app_comm_cons. cbn [fingerprint_loop].
    destruct (isDeleted a); cbn [negb]; apply IH.
Qed.

Lemma sceneFingerprint_deleted (pre post : list element) (x y : element) :
  isDeleted x = true -> isDeleted y = true ->
  sceneFingerprint (Some (pre ++ x :: post))
  = sceneFingerprint (Some (pre ++ y :: post)).
Proof.
  intros Hx Hy. pose proof (loop_deleted pre post x y Hx Hy 0 (Js.Int 0)) as L.
  unfold sceneFingerprint.
  destruct pre as [| a pre]; simpl app in *; rewrite L; reflexivity.
Qed.





#[local] Arguments sceneFingerprint : simpl never.



End AppFacts.

(** * The fingerprint and the echo filter ([src/App.jsx]) *)

Example fingerprint_of_the_scenario :
  App.sceneFingerprint (Some []) = "0:0"
  /\ App.sceneFingerprint (Some [rectangle (Some 1) false]) = "1:1"
  /\ App.sceneFingerprint (Some [rectangle (Some 2) false]) = "1:2"
  /\ App.sceneFingerprint (Some [rectangle (Some 2) false; rectangle (Some 9) true;
                                 rectangle None false]) = "2:2".
Proof. repeat split; reflexivity. Qed.

(** [vSum] is a binary64 number: from [2^53] on, [vSum + 1] can be [vSum]
    again, and the sum depends on the order of the additions. *)
Example sums_round :
  Js.add (Js.Int (2 ^ 53)) (Js.Int 1) = Js.Int (2 ^ 53)
  /\ Js.add (Js.add (Js.Int (2 ^ 53)) (Js.Int 1)) (Js.Int 1) = Js.Int (2 ^ 53)
  /\ Js.add (Js.add (Js.Int 1) (Js.Int 1)) (Js.Int (2 ^ 53)) = Js.Int (2 ^ 53 + 2)
  /\ Js.Number_toString (Js.Int (2 ^ 64)) = "18446744073709552000"
  /\ Js.Number_toString (Js.Int (10 ^ 21)) = "1e+21"
  /\ Js.Number_toString (Js.Int (2 ^ 70)) = "1.1805916207174113e+21".
Proof. repeat split; vm_compute; reflexivity. Qed.

(** C1, as the claim states it, fails: the three elements of versions
    [2^53], 1 and 1 have the fingerprint of the pair [(3, 2^53)] in this
    order and of the pair [(3, 2^53 + 2)] in the reverse order, so the
    fingerprint is neither the sum of the versions nor unchanged by a
    permutation. *)
Lemma C1_fingerprint_counterexample :
  let E1 := [rectangle (Some (2 ^ 53)) false; rectangle (Some 1) false;
             rectangle (Some 1) false] in
  let E2 := [rectangle (Some 1) false; rectangle (Some 1) false;
             rectangle (Some (2 ^ 53)) false] in
  Permutation E1 E2
  /\ App.activeCount E1 = 3 /\ App.versionSum E1 = 2 ^ 53 + 2
  /\ App.sceneFingerprint (Some E1) = "3:9007199254740992"
  /\ App.sceneFingerprint (Some E2) = "3:9007199254740994"
  /\ App.sceneFingerprint (Some E1) <> App.sceneFingerprint (Some E2).
Proof.
  split; [| split; [| split; [| split; [| split]]]].
  - apply Permutation_rev.
  - reflexivity.
  - reflexivity.
  - vm_compute. reflexivity.
  - vm_compute. reflexivity.
  - vm_compute. discriminate.
Qed.

(** C1, amended.  For every element sequence [E] in which the magnitudes
    of the versions of the visible elements add up to less than [2^53],
    [sceneFingerprint E] is the text [count:sum] of the number of elements
    whose [isDeleted] is false and of the sum of their [version]s, a
    missing version counting as 0, and a permutation of [E] leaves it
    unchanged; the text determines the pair; for every [E] the result
    depends only on the [(isDeleted, version)] pairs of [E]. *)
Theorem C1_fingerprint_while_sums_are_exact :
  (forall E, App.magnitude E < 2 ^ 53 ->
             App.sceneFingerprint (Some E)
             = (Js.decimal (App.activeCount E) ++ ":"
                ++ Js.decimal (App.versionSum E))%string)
  /\ (forall c v c' v',
         (Js.decimal c ++ ":" ++ Js.decimal v)%string
         = (Js.decimal c' ++ ":" ++ Js.decimal v')%string ->
         c = c' /\ v = v')
  /\ (forall E1 E2, map App.flag_version E1 = map App.flag_version E2 ->
                    App.sceneFingerprint (Some E1) = App.sceneFingerprint (Some E2))
  /\ (forall E1 E2, Permutation E1 E2 -> App.magnitude E1 < 2 ^ 53 ->
                    App.sceneFingerprint (Some E1) = App.sceneFingerprint (Some E2)).
Proof.
  split; [exact AppFacts.sceneFingerprint_exact |].
  split; [exact JsFacts.text_inj |].
  split; [exact AppFacts.sceneFingerprint_flags |].
  exact AppFacts.sceneFingerprint_permutation.
Qed.

Lemma C1_fingerprint_witness :
  App.magnitude [rectangle (Some 3) false; rectangle (Some 4) true;
                 rectangle (Some 5) false] < 2 ^ 53
  /\ App.sceneFingerprint (Some [rectangle (Some 3) false; rectangle (Some 4) true;
                                 rectangle (Some 5) false]) = "2:8"
  /\ App.sceneFingerprint (Some [rectangle (Some 3) false; rectangle (Some 4) true;
                                 rectangle (Some 5) false])
     = App.sceneFingerprint (Some [rectangle (Some 4) true; rectangle (Some 3) false;
                                   rectangle (Some 5) false]).
Proof.
  split; [reflexivity |]. split.
  - exact (proj1 C1_fingerprint_while_sums_are_exact
             [rectangle (Some 3) false; rectangle (Some 4) true;
              rectangle (Some 5) false] eq_refl).
  - apply (proj2 (proj2 (proj2 C1_fingerprint_while_sums_are_exact))).
    + apply perm_swap.
    + reflexivity.
Defined.

#[local] Arguments App.sceneFingerprint : simpl never.




(** * The relay server *)

Module ServerFacts.
Import Server.

Lemma broadcast_map (message : text) (ex : option nat) (cl : list socket) :
  broadcast message ex cl
  = map (fun w => ws_send w message)
        (filter (fun w => negb (excluded ex w)) (open_ids cl)).
Proof.
  unfold broadcast, open_ids.
  induction cl as [| c cl IH]; [reflexivity |].
  cbn [flat_map filter]. rewrite IH.
  fold (excluded ex (ws_id c)).
  destruct (readyState c =? 1); cbn [map filter].
  - destruct (excluded ex (ws_id c)); reflexivity.
  - rewrite andb_false_r. reflexivity.
Qed.

Lemma broadcast_all (message : text) (cl : list socket) :
  broadcast message None cl = map (fun w => ws_send w message) (open_ids cl).
Proof.
  rewrite broadcast_map. f_equal.
  induction (open_ids cl) as [| w l IH]; [reflexivity |].
  simpl. f_equal. exact IH.
Qed.

Lemma broadcast_app (message : text) (ex : option nat) (l1 l2 : list socket) :
  broadcast message ex (l1 ++ l2) = broadcast message ex l1 ++ broadcast message ex l2.
Proof. unfold broadcast. apply flat_map_app. Qed.

Lemma open_ids_In (w : nat) (cl : list socket) :
  In w (open_ids cl) <-> exists c, In c cl /\ ws_id c = w /\ readyState c = 1.
Proof.
  unfold open_ids. rewrite in_map_iff. split.
  - intros [c [Hw Hc]]. apply filter_In in Hc as [Hin Hst].
    exists c. repeat split; auto. now apply Z.eqb_eq.
  - intros [c [Hin [Hw Hst]]]. exists c. split; [exact Hw |].
    apply filter_In. split; [exact Hin |]. now apply Z.eqb_eq.
Qed.

Lemma open_ids_registered (w : nat) (cl : list socket) :
  In w (open_ids cl) -> In w (map ws_id cl).
Proof.
  intros H. apply open_ids_In in H as [c [Hin [Hw _]]].
  apply in_map_iff. exists c. split; assumption.
Qed.

Lemma broadcast_In (e : effect) (message : text) (ex : option nat) (cl : list socket) :
  In e (broadcast message ex cl) <->
  exists w, e = ws_send w message /\ In w (open_ids cl) /\ ex <> Some w.
Proof.
  rewrite broadcast_map, in_map_iff. split.
  - intros [w [He Hw]]. apply filter_In in Hw as [Hin Hex].
    exists w. repeat split; auto.
    intros ->. simpl in Hex. rewrite Nat.eqb_refl in Hex. discriminate.
  - intros [w [He [Hin Hex]]]. exists w. split; [auto |].
    apply filter_In. split; [exact Hin |].
    destruct ex as [x |]; simpl; [| reflexivity].
    destruct (Nat.eqb_spec w x); [subst; contradiction | reflexivity].
Qed.

Lemma broadcast_no_answer (p : effect -> bool) (message : text) (ex : option nat)
    (cl : list socket) :
  (forall w m, p (ws_send w m) = false) ->
  filter p (broadcast message ex cl) = [].
Proof.
  intros Hp. rewrite broadcast_map.
  induction (filter _ (open_ids cl)) as [| w l IH]; [reflexivity |].
  simpl. rewrite Hp. exact IH.
Qed.

End ServerFacts.

(** C6. [broadcast(message, excludeSocket)] sends [message], once each and
    in registration order, to exactly the registered sockets whose
    [readyState] is 1 and which are not the excluded one; it sends nothing
    else, never to the excluded socket, and a socket that is not writable
    is passed over without any effect on the sends to the others. *)
Theorem C6_broadcast_reaches_every_other_writable_session :
  forall (message : Server.text) (S : option nat) (registered : list Server.socket),
    Server.broadcast message S registered
    = map (fun w => Server.ws_send w message)
          (filter (fun w => negb (Server.excluded S w))
                  (Server.open_ids registered))
    /\ (forall e, In e (Server.broadcast message S registered) <->
                  exists w, e = Server.ws_send w message
                            /\ In w (Server.open_ids registered) /\ S <> Some w)
    /\ (forall w m, S = Some w ->
                    ~ In (Server.ws_send w m) (Server.broadcast message S registered))
    /\ (forall before after c,
          registered = before ++ c :: after ->
          Server.readyState c <> 1 ->
          Server.broadcast message S registered
          = Server.broadcast message S before ++ Server.broadcast message S after).
Proof.
  intros message S registered.
  split; [apply ServerFacts.broadcast_map |].
  split; [intros e; apply ServerFacts.broadcast_In |].
  split.
  - intros w m HS H. apply ServerFacts.broadcast_In in H as [w' [He [_ Hex]]].
    injection He as -> _. contradiction.
  - intros before after c -> Hst.
    rewrite ServerFacts.broadcast_app. f_equal.
    change (c :: after) with ([c] ++ after).
    rewrite ServerFacts.broadcast_app.
    unfold Server.broadcast at 1. simpl.
    destruct (Z.eqb_spec (Server.readyState c) 1); [contradiction |].
    rewrite andb_false_r. reflexivity.
Qed.

Lemma C6_broadcast_witness :
  Server.broadcast Server.export_request (Some 1%nat) three_sockets
  = [Server.ws_send 3%nat Server.export_request].
Proof.
  rewrite (proj1 (C6_broadcast_reaches_every_other_writable_session
                    Server.export_request (Some 1%nat) three_sockets)).
  reflexivity.
Defined.

Module ExportFacts.
Import Server.

Lemma step_consistent (s : relay) (e : event) :
  export_consistent s -> export_consistent (fst (step s e)).
Proof.
  destruct s as [f lw p ts nh cl]. unfold export_consistent. simpl. intros H.
  destruct e; simpl; try exact H.
  - destruct p as [r |]; simpl; [exact H | subst ts; reflexivity].
  - destruct p as [r |]; simpl; [| exact H].
    subst ts. simpl. rewrite Nat.eqb_refl. reflexivity.
  - unfold fire. simpl. destruct p as [r |]; subst ts; simpl; [| reflexivity].
    destruct (Nat.eqb (captured_timeout r) h); simpl; reflexivity.
  - unfold on_message.
    destruct (JSON_parse raw) as [msg |]; [| exact H].
    destruct (prop msg "type") as [| | [| | | type | |]]; try exact H.
    destruct (type =? "scene-update")%string; [| exact H].
    destruct (prop msg "data"); exact H.
  - unfold on_change. destruct (Z.ltb _ _); exact H.
Qed.

Lemma run_consistent (t : list event) :
  forall s, export_consistent s -> export_consistent (fst (run s t)).
Proof.
  induction t as [| e t IH]; intros s H; simpl; [exact H |].
  pose proof (step_consistent s e H) as H1.
  destruct (step s e) as [s1 o1]. simpl in H1.
  specialize (IH s1 H1). destruct (run s1 t) as [s2 o2]. exact IH.
Qed.

Lemma startup_consistent (file : option text) :
  export_consistent (fst (startup file)).
Proof. destruct file; reflexivity. Qed.

Lemma run_cons (s : relay) (e : event) (t : list event) :
  run s (e :: t)
  = (fst (run (fst (step s e)) t), snd (step s e) ++ snd (run (fst (step s e)) t)).
Proof.
  simpl. destruct (step s e) as [s1 o1]. simpl.
  destruct (run s1 t) as [s2 o2]. reflexivity.
Qed.

Lemma on_message_quiet (res0 ws : nat) (raw : text) (now : Z) (s : relay) :
  pendingExportResolve (fst (on_message ws raw now s)) = pendingExportResolve s
  /\ timers (fst (on_message ws raw now s)) = timers s
  /\ filter (answers res0) (snd (on_message ws raw now s)) = [].
Proof.
  unfold on_message.
  destruct (JSON_parse raw) as [msg |]; [| auto].
  destruct (prop msg "type") as [| | [| | | type | |]]; auto.
  destruct (type =? "scene-update")%string; [| auto].
  destruct (prop msg "data"); auto.
  simpl. repeat split.
  apply ServerFacts.broadcast_no_answer. reflexivity.
Qed.

Lemma put_canvas_quiet (res0 res : nat) (data : json) (now : Z) (s : relay) :
  Nat.eqb res res0 = false ->
  pendingExportResolve (fst (put_canvas res data now s)) = pendingExportResolve s
  /\ timers (fst (put_canvas res data now s)) = timers s
  /\ filter (answers res0) (snd (put_canvas res data now s)) = [].
Proof.
  intros Hres. unfold put_canvas. simpl. repeat split.
  rewrite filter_app, ServerFacts.broadcast_no_answer by reflexivity.
  simpl. rewrite Hres. reflexivity.
Qed.

Lemma on_change_quiet (res0 : nat) (now : Z) (s : relay) :
  fst (on_change now s) = s
  /\ filter (answers res0) (snd (on_change now s)) = [].
Proof.
  unfold on_change. destruct (Z.ltb _ _); simpl; split; auto.
  apply ServerFacts.broadcast_no_answer. reflexivity.
Qed.

(** A request whose closure the relay no longer holds is never answered. *)
Lemma step_forgotten (res0 : nat) (s : relay) (e : event) :
  export_consistent s -> forgotten res0 s -> carries res0 e = false ->
  forgotten res0 (fst (step s e))
  /\ filter (answers res0) (snd (step s e)) = [].
Proof.
  intros C F N. destruct e; cbn [step carries] in *.
  - simpl. rewrite N. auto.
  - destruct (put_canvas_quiet res0 res req_body now s N) as [P [_ A]].
    unfold forgotten. rewrite ?P. auto.
  - unfold get_export_png, forgotten in *.
    destruct (pendingExportResolve s) as [r |] eqn:P; simpl.
    + rewrite ?P, ?N. auto.
    + split; [intros ->; rewrite Nat.eqb_refl in N; discriminate |].
      apply ServerFacts.broadcast_no_answer. reflexivity.
  - unfold post_export_png, forgotten in *.
    destruct (pendingExportResolve s) as [r |] eqn:P; simpl.
    + rewrite N. destruct (Nat.eqb_spec (captured_res r) res0); [contradiction | auto].
    + rewrite ?P, ?N. auto.
  - unfold fire, export_consistent, forgotten in *.
    destruct (pendingExportResolve s) as [r |] eqn:P; rewrite C; simpl.
    + destruct (Nat.eqb (captured_timeout r) h); simpl.
      * unfold export_timed_out. simpl. rewrite ?P. simpl.
        destruct (Nat.eqb_spec (captured_res r) res0); [contradiction | auto].
      * rewrite ?P. auto.
    + rewrite ?P. auto.
  - simpl. auto.
  - destruct (on_message_quiet res0 ws raw now s) as [P [_ A]].
    unfold forgotten. rewrite ?P. auto.
  - simpl. auto.
  - simpl. auto.
  - destruct (on_change_quiet res0 now s) as [P A]. rewrite ?P. auto.
  - simpl. auto.
  - simpl. auto.
Qed.

Lemma run_forgotten (res0 : nat) (t : list event) :
  forall s, export_consistent s -> forgotten res0 s ->
            forallb (fun e => negb (carries res0 e)) t = true ->
            filter (answers res0) (snd (run s t)) = [].
Proof.
  induction t as [| e t IH]; intros s C F N; [reflexivity |].
  simpl in N. apply andb_true_iff in N as [Ne Nt]. apply negb_true_iff in Ne.
  rewrite run_cons. cbn [snd]. rewrite filter_app.
  destruct (step_forgotten res0 s e C F Ne) as [F1 A1]. rewrite A1. simpl.
  apply IH; auto using step_consistent.
Qed.

(** While a request is outstanding, an event either leaves it outstanding
    and unanswered, or empties the slot and answers it once. *)
Lemma step_outstanding (s : relay) (r : resolver) (e : event) :
  export_consistent s -> pendingExportResolve s = Some r ->
  carries (captured_res r) e = false ->
  (pendingExportResolve (fst (step s e)) = Some r
   /\ filter (answers (captured_res r)) (snd (step s e)) = [])
  \/ (pendingExportResolve (fst (step s e)) = None
      /\ List.length (filter (answers (captured_res r)) (snd (step s e))) = 1%nat).
Proof.
  intros C P N. destruct e; cbn [step carries] in *.
  - left. simpl. rewrite N. auto.
  - left. destruct (put_canvas_quiet (captured_res r) res req_body now s N) as [Q [_ A]].
    rewrite Q. auto.
  - left. unfold get_export_png. rewrite ?P. simpl. rewrite N. auto.
  - right. unfold post_export_png. rewrite ?P. simpl.
    rewrite Nat.eqb_refl, N. auto.
  - unfold fire, export_consistent in *. rewrite P in C. rewrite C. simpl.
    destruct (Nat.eqb (captured_timeout r) h); simpl.
    + right. unfold export_timed_out. simpl. rewrite ?P. simpl.
      rewrite Nat.eqb_refl. auto.
    + left. auto.
  - left. simpl. auto.
  - left. destruct (on_message_quiet (captured_res r) ws raw now s) as [Q [_ A]].
    rewrite Q. auto.
  - left. simpl. auto.
  - left. simpl. auto.
  - left. destruct (on_change_quiet (captured_res r) now s) as [Q A]. rewrite Q. auto.
  - left. simpl. auto.
  - left. simpl. auto.
Qed.

Lemma run_outstanding (t : list event) :
  forall s r, export_consistent s -> pendingExportResolve s = Some r ->
              forallb (fun e => negb (carries (captured_res r) e)) t = true ->
              (List.length (filter (answers (captured_res r)) (snd (run s t))) <= 1)%nat.
Proof.
  induction t as [| e t IH]; intros s r C P N; [simpl; lia |].
  simpl in N. apply andb_true_iff in N as [Ne Nt]. apply negb_true_iff in Ne.
  rewrite run_cons. cbn [snd]. rewrite filter_app, length_app.
  pose proof (step_consistent s e C) as C1.
  destruct (step_outstanding s r e C P Ne) as [[P1 A1] | [P1 A1]].
  - rewrite A1. simpl. apply IH; assumption.
  - rewrite A1, (run_forgotten (captured_res r) t); [simpl; lia | exact C1 | | exact Nt].
    unfold forgotten. rewrite P1. exact I.
Qed.

Lemma posts_while_idle (s : relay) (posts : list (nat * bytes)) :
  pendingExportResolve s = None ->
  run s (map (fun p => POST_export_png (fst p) (snd p)) posts)
  = (s, map (fun p => respond (fst p) 400 (error "No pending export request")) posts).
Proof.
  intros P. induction posts as [| [res png] posts IH]; [reflexivity |].
  cbn [map]. rewrite run_cons.
  assert (S1 : step s (POST_export_png res png)
               = (s, [respond res 400 (error "No pending export request")])).
  { simpl. unfold post_export_png. rewrite P. reflexivity. }
  cbn [fst snd]. rewrite S1. cbn [fst snd]. rewrite IH. reflexivity.
Qed.

End ExportFacts.

(** C3. In every state the relay reaches, the export slot and the timers
    agree (no request and no timer, or one request and its one timer), so
    at most one request is outstanding.  A [GET /api/export-png] arriving
    while the slot is occupied is answered 409 at once and leaves the
    relay's state as it was, slot and timer included; whatever happens
    next therefore happens as if the second call had not been made. *)
Theorem C3_second_export_request_is_refused :
  (forall file t,
      let s := fst (Server.run (fst (Server.startup file)) t) in
      Server.export_consistent s /\ (List.length (Server.timers s) <= 1)%nat)
  /\ (forall s r res,
         Server.pendingExportResolve s = Some r ->
         Server.step s (Server.GET_export_png res)
         = (s, [Server.respond res 409 (Server.error "Export already in progress")]))
  /\ (forall s r res t,
         Server.pendingExportResolve s = Some r ->
         Server.run (fst (Server.step s (Server.GET_export_png res))) t
         = Server.run s t).
Proof.
  assert (B : forall s r res,
             Server.pendingExportResolve s = Some r ->
             Server.step s (Server.GET_export_png res)
             = (s, [Server.respond res 409
                      (Server.error "Export already in progress")])).
  { intros s r res P. simpl. unfold Server.get_export_png. rewrite P. reflexivity. }
  split; [| split; [exact B |]].
  - intros file t s.
    assert (C : Server.export_consistent s)
      by apply ExportFacts.run_consistent, ExportFacts.startup_consistent.
    split; [exact C |].
    unfold Server.export_consistent in C.
    destruct (Server.pendingExportResolve s); rewrite C; simpl; lia.
  - intros s r res t P. rewrite (B s r res P). reflexivity.
Qed.

Lemma C3_second_export_request_witness :
  let s := fst (Server.run (fst (Server.startup None))
                  [Server.connection 1%nat; Server.GET_export_png 7%nat]) in
  Server.step s (Server.GET_export_png 8%nat)
  = (s, [Server.respond 8%nat 409 (Server.error "Export already in progress")]).
Proof.
  intros s.
  apply (proj1 (proj2 C3_second_export_request_is_refused) s
           {| Server.captured_timeout := 0%nat; Server.captured_res := 7%nat |}).
  reflexivity.
Defined.

(** C4. Let a request be outstanding in a consistent state.  If the
    rendering is posted first, the caller is sent exactly the posted bytes
    and the poster the acknowledgement, the slot is emptied and the timer
    cancelled, so that its firing later does nothing.  If the timer fires
    first, the caller is sent the 504, the slot is emptied, a new request
    is then accepted, and renderings posted while the slot stays empty are
    each answered 400 and change nothing.  In every continuation the caller
    is answered at most once. *)
Theorem C4_export_is_resolved_once :
  forall s r,
    Server.export_consistent s ->
    Server.pendingExportResolve s = Some r ->
    (forall res png,
        let s1 := fst (Server.step s (Server.POST_export_png res png)) in
        snd (Server.step s (Server.POST_export_png res png))
        = [Server.respond (Server.captured_res r) 200 (Server.body_png png);
           Server.respond res 200 Server.ok]
        /\ Server.pendingExportResolve s1 = None
        /\ Server.timers s1 = []
        /\ Server.step s1 (Server.timeout_fired (Server.captured_timeout r)) = (s1, []))
    /\ (let s2 := fst (Server.step s (Server.timeout_fired (Server.captured_timeout r))) in
        snd (Server.step s (Server.timeout_fired (Server.captured_timeout r)))
        = [Server.respond (Server.captured_res r) 504
             (Server.error "Export timed out — is the browser open?")]
        /\ Server.pendingExportResolve s2 = None
        /\ Server.timers s2 = []
        /\ (forall res,
               Server.pendingExportResolve (fst (Server.step s2 (Server.GET_export_png res)))
               = Some {| Server.captured_timeout := Server.next_handle s;
                         Server.captured_res := res |}
               /\ snd (Server.step s2 (Server.GET_export_png res))
                  = Server.broadcast Server.export_request None (Server.clients s))
        /\ (forall posts : list (nat * Server.bytes),
               Server.run s2 (map (fun p => Server.POST_export_png (fst p) (snd p)) posts)
               = (s2, map (fun p => Server.respond (fst p) 400
                                      (Server.error "No pending export request"))
                          posts)))
    /\ (forall t,
           forallb (fun e => negb (Server.carries (Server.captured_res r) e)) t = true ->
           (List.length (filter (Server.answers (Server.captured_res r))
                           (snd (Server.run s t))) <= 1)%nat).
Proof.
  intros s r C P.
  split; [| split].
  - intros res png s1. subst s1.
    destruct s as [f lw p ts nh cl]. unfold Server.export_consistent in C.
    simpl in *. subst p ts. simpl. rewrite Nat.eqb_refl. simpl.
    repeat split.
  - destruct s as [f lw p ts nh cl]. unfold Server.export_consistent in C.
    simpl in *. subst p ts. unfold Server.fire. simpl.
    rewrite Nat.eqb_refl. simpl.
    repeat split.
    intros posts. apply ExportFacts.posts_while_idle. reflexivity.
  - intros t N. apply ExportFacts.run_outstanding; assumption.
Qed.

Lemma C4_export_witness :
  let s := fst (Server.run (fst (Server.startup None))
                  [Server.connection 1%nat; Server.GET_export_png 7%nat]) in
  snd (Server.step s (Server.POST_export_png 9%nat [Byte.x89; Byte.x50]))
  = [Server.respond 7%nat 200 (Server.body_png [Byte.x89; Byte.x50]);
     Server.respond 9%nat 200 Server.ok].
Proof.
  intros s.
  assert (C : Server.export_consistent s) by reflexivity.
  assert (P : Server.pendingExportResolve s
              = Some {| Server.captured_timeout := 0%nat;
                        Server.captured_res := 7%nat |}) by reflexivity.
  exact (proj1 (proj1 (C4_export_is_resolved_once s _ C P) 9%nat
                  [Byte.x89; Byte.x50])).
Defined.

Module HubFacts.
Import Server.

Lemma filter_none {A : Type} (p : A -> bool) (l : list A) :
  (forall x, In x l -> p x = false) -> filter p l = [].
Proof.
  induction l as [| a l IH]; intros H; [reflexivity |].
  simpl. rewrite (H a (or_introl eq_refl)). apply IH.
  intros x Hx. apply H. right. exact Hx.
Qed.

Lemma broadcast_silent (ws : nat) (message : text) (ex : option nat) (cl : list socket) :
  ~ In ws (map ws_id cl) -> filter (sent_to ws) (broadcast message ex cl) = [].
Proof.
  intros Hn. apply filter_none. intros e He.
  apply ServerFacts.broadcast_In in He as [w [-> [Hw _]]].
  simpl. destruct (Nat.eqb_spec w ws) as [-> |]; [| reflexivity].
  exfalso. apply Hn. apply ServerFacts.open_ids_registered, Hw.
Qed.

Lemma set_state_ids (ws : nat) (st : Z) (cl : list socket) :
  map ws_id (set_state ws st cl) = map ws_id cl.
Proof.
  unfold set_state. rewrite map_map. apply map_ext_in. intros c _.
  destruct (Nat.eqb_spec (ws_id c) ws) as [E |]; [simpl; auto | reflexivity].
Qed.

Lemma fire_clients (h : nat) (s : relay) :
  clients (fst (fire h s)) = clients s
  /\ forall ws, filter (sent_to ws) (snd (fire h s)) = [].
Proof.
  unfold fire. destruct (find _ (timers s)) as [t |]; [| auto].
  unfold export_timed_out. simpl.
  destruct (pendingExportResolve s); simpl; auto.
Qed.

Lemma on_message_clients (w : nat) (raw : text) (now : Z) (s : relay) :
  clients (fst (on_message w raw now s)) = clients s
  /\ forall ws, ~ In ws (map ws_id (clients s)) ->
                filter (sent_to ws) (snd (on_message w raw now s)) = [].
Proof.
  unfold on_message.
  destruct (JSON_parse raw) as [msg |]; [| auto].
  destruct (prop msg "type") as [| | [| | | type | |]]; auto.
  destruct (type =? "scene-update")%string; [| auto].
  destruct (prop msg "data"); auto.
  simpl. split; [reflexivity |]. intros ws Hn. apply broadcast_silent, Hn.
Qed.

(** A socket that is not registered receives nothing, and stays
    unregistered until its own connection event. *)
Lemma step_silent (ws : nat) (s : relay) (e : event) :
  ~ In ws (map ws_id (clients s)) -> e <> connection ws ->
  ~ In ws (map ws_id (clients (fst (step s e))))
  /\ filter (sent_to ws) (snd (step s e)) = [].
Proof.
  intros Hn Hc. destruct e; cbn [step].
  - simpl. auto.
  - unfold put_canvas. simpl. split; [exact Hn |].
    rewrite filter_app, broadcast_silent by exact Hn. reflexivity.
  - unfold get_export_png. destruct (pendingExportResolve s); simpl; [auto |].
    split; [exact Hn | apply broadcast_silent, Hn].
  - unfold post_export_png. destruct (pendingExportResolve s); simpl; auto.
  - destruct (fire_clients h s) as [E S]. rewrite E. auto.
  - unfold on_connection. simpl. split.
    + rewrite map_app, in_app_iff. simpl. intros [H | [H | []]].
      * apply Hn. apply in_map_iff in H as [c [Hw Hin]].
        apply filter_In in Hin as [Hin _]. apply in_map_iff. eauto.
      * apply Hc. congruence.
    + destruct (Nat.eqb_spec ws0 ws) as [-> |]; [contradiction | reflexivity].
  - destruct (on_message_clients ws0 raw now s) as [E S]. rewrite E. auto.
  - simpl. rewrite set_state_ids. auto.
  - simpl. split; [| reflexivity]. intros H. apply Hn.
    apply in_map_iff in H as [c [Hw Hin]].
    apply filter_In in Hin as [Hin _]. apply in_map_iff. eauto.
  - unfold on_change. destruct (Z.ltb _ _); simpl; [auto |].
    split; [exact Hn | apply broadcast_silent, Hn].
  - simpl. auto.
  - simpl. auto.
Qed.

Lemma run_silent (ws : nat) (t : list event) :
  forall s, ~ In ws (map ws_id (clients s)) -> ~ In (connection ws) t ->
            ~ In ws (map ws_id (clients (fst (run s t))))
            /\ filter (sent_to ws) (snd (run s t)) = [].
Proof.
  induction t as [| e t IH]; intros s Hn Hc; [simpl; auto |].
  rewrite ExportFacts.run_cons. cbn [fst snd].
  assert (He : e <> connection ws) by (intros ->; apply Hc; left; reflexivity).
  destruct (step_silent ws s e Hn He) as [Hn1 S1].
  destruct (IH (fst (step s e)) Hn1 (fun H => Hc (or_intror H))) as [Hn2 S2].
  split; [exact Hn2 |]. rewrite filter_app, S1, S2. reflexivity.
Qed.

End HubFacts.

(** C5 fails on the code.  The watcher compares the time of the change
    with [lastWriteFromClient], which [writeCanvas] sets before it writes:
    a scene-update without a document sets it and saves nothing.  After a
    save at 1000 ms and such a message at 5000 ms, a change of the file by
    another process reported at 5300 ms, 4300 ms after the relay's latest
    save, is sent to nobody; without the message, the same change is sent
    to both sessions, with the document the file then holds. *)
Theorem C5_stamp_without_save :
  let s1 := fst (Server.run (fst (Server.startup None)) save_at_1000) in
  let s2 := fst (Server.step s1 update_without_document) in
  Server.CANVAS_FILE s1 = Some (Server.Text_json one_rectangle)
  /\ Server.last_save 0 save_at_1000 = 1000
  /\ Server.last_save 0 (save_at_1000 ++ [update_without_document]) = 1000
  /\ snd (Server.step s1 update_without_document) = []
  /\ Server.CANVAS_FILE s2 = Server.CANVAS_FILE s1
  /\ Server.lastWriteFromClient s2 = 5000
  /\ snd (Server.run s2 [Server.file_written (Server.Text_json another_canvas);
                         Server.watcher_change 5300]) = []
  /\ snd (Server.run s1 [Server.file_written (Server.Text_json another_canvas);
                         Server.watcher_change 5300])
     = [Server.ws_send 1%nat
          (Server.Text_json (Server.JObj [("type", Server.JStr "scene-update");
                                          ("data", another_canvas)]));
        Server.ws_send 2%nat
          (Server.Text_json (Server.JObj [("type", Server.JStr "scene-update");
                                          ("data", another_canvas)]))].
Proof. repeat split. Qed.

(** C7. A scene-update message from a session, carrying a document, makes
    the relay write the document to the file and then send the message as
    received to every open registered socket but the sender.  A
    [PUT /api/canvas] makes it write the document and then send a
    scene-update carrying it to every open registered socket, none
    excluded, before acknowledging. *)
Theorem C7_save_then_rebroadcast :
  forall s,
    (forall ws raw now msg D,
        Server.JSON_parse raw = Some msg ->
        Server.prop msg "type" = Server.Value (Server.JStr "scene-update") ->
        Server.prop msg "data" = Server.Value D ->
        Server.step s (Server.ws_message ws raw now)
        = (Server.set_file (Some (Server.JSON_stringify D)) (Server.set_lastWrite now s),
           Server.writeFileSync (Server.JSON_stringify D)
           :: map (fun w => Server.ws_send w raw)
                  (filter (fun w => negb (Nat.eqb w ws))
                          (Server.open_ids (Server.clients s)))))
    /\ (forall res D now,
           Server.step s (Server.PUT_canvas res D now)
           = (Server.set_file (Some (Server.JSON_stringify D)) (Server.set_lastWrite now s),
              Server.writeFileSync (Server.JSON_stringify D)
              :: map (fun w => Server.ws_send w (Server.scene_update D))
                     (Server.open_ids (Server.clients s))
              ++ [Server.respond res 200 Server.ok])).
Proof.
  intros s. split.
  - intros ws raw now msg D Hp Ht Hd. simpl. unfold Server.on_message.
    rewrite Hp, Ht, Hd. simpl.
    rewrite ServerFacts.broadcast_map. reflexivity.
  - intros res D now. simpl. unfold Server.put_canvas. simpl.
    rewrite ServerFacts.broadcast_all. reflexivity.
Qed.

Lemma C7_save_then_rebroadcast_witness :
  Server.step (relay_with None 0 three_sockets)
    (Server.ws_message 1%nat (Server.scene_update one_rectangle) 42)
  = (relay_with (Some (Server.JSON_stringify one_rectangle)) 42 three_sockets,
     [Server.writeFileSync (Server.JSON_stringify one_rectangle);
      Server.ws_send 3%nat (Server.scene_update one_rectangle)]).
Proof.
  exact (proj1 (C7_save_then_rebroadcast (relay_with None 0 three_sockets))
           1%nat (Server.scene_update one_rectangle) 42 _ one_rectangle
           eq_refl eq_refl eq_refl).
Defined.

(** C10. When a socket connects, the relay registers it and sends it, and
    nobody else, exactly one message: the scene-update whose [data] is the
    canvas the file holds at that moment (the default canvas when the file
    is missing or does not parse).  Nothing was sent to that socket before:
    in any run from a state where it is not registered, up to its
    connection, no effect is a send to it. *)
Theorem C10_canvas_is_sent_on_connect :
  forall s t ws,
    ~ In ws (map Server.ws_id (Server.clients s)) ->
    ~ In (Server.connection ws) t ->
    let before := Server.run s t in
    let s1 := fst before in
    let canvas := match Server.CANVAS_FILE s1 with
                  | Some (Server.Text_json v) => v
                  | _ => Server.JObj
                           [("type", Server.JStr "excalidraw");
                            ("version", Server.JNum 2);
                            ("elements", Server.JArr []);
                            ("appState",
                             Server.JObj [("viewBackgroundColor",
                                           Server.JStr "#ffffff")]);
                            ("files", Server.JObj [])]
                  end in
    filter (Server.sent_to ws) (snd before) = []
    /\ snd (Server.step s1 (Server.connection ws))
       = [Server.ws_send ws
            (Server.Text_json (Server.JObj [("type", Server.JStr "scene-update");
                                            ("data", canvas)]))]
    /\ In ws (Server.open_ids (Server.clients (fst (Server.step s1 (Server.connection ws)))))
    /\ Server.CANVAS_FILE (fst (Server.step s1 (Server.connection ws)))
       = Server.CANVAS_FILE s1.
Proof.
  intros s t ws Hn Hc before s1 canvas.
  destruct (HubFacts.run_silent ws t s Hn Hc) as [_ S].
  split; [exact S |]. split; [| split; [| reflexivity]].
  - subst canvas. cbn [Server.step Server.on_connection snd].
    unfold Server.scene_update, Server.readCanvas, Server.JSON_stringify.
    cbn [Server.CANVAS_FILE Server.set_clients].
    destruct (Server.CANVAS_FILE s1) as [[v | other] |]; reflexivity.
  - simpl. apply ServerFacts.open_ids_In.
    exists {| Server.ws_id := ws; Server.readyState := 1 |}.
    split; [| split; reflexivity].
    apply in_or_app. right. left. reflexivity.
Qed.

Lemma C10_canvas_on_connect_witness :
  snd (Server.step
         (fst (Server.run (relay_with (Some (Server.Text_json one_rectangle)) 0 [])
                 [Server.connection 1%nat; Server.watcher_change 900]))
         (Server.connection 2%nat))
  = [Server.ws_send 2%nat
       (Server.Text_json
          (Server.JObj
             [("type", Server.JStr "scene-update");
              ("data",
               Server.JObj
                 [("type", Server.JStr "excalidraw");
                  ("version", Server.JNum 2);
                  ("elements",
                   Server.JArr [Server.JObj [("id", Server.JStr "r1");
                                             ("type", Server.JStr "rectangle");
                                             ("version", Server.JNum 1)]]);
                  ("appState",
                   Server.JObj [("viewBackgroundColor", Server.JStr "#ffffff")]);
                  ("files", Server.JObj [])])]))].
Proof.
  refine (proj1 (proj2 (C10_canvas_is_sent_on_connect
                          (relay_with (Some (Server.Text_json one_rectangle)) 0 [])
                          [Server.connection 1%nat; Server.watcher_change 900]
                          2%nat _ _))).
  - simpl. tauto.
  - simpl. intros [H | [H | []]]; discriminate H.
Defined.

(** C8 as stated fails: [readCanvas] never writes the file, so a corrupt
    file stays corrupt; and it has no schema check, so a document of
    another schema version is returned as it is. *)
Lemma C8_load_counterexample :
  ~ Server.load_as_specified (relay_with (Some (Server.Text_other "{ not json")) 0 []) 0%nat
  /\ ~ Server.load_as_specified
         (relay_with (Some (Server.JSON_stringify old_schema)) 0 []) 0%nat.
Proof.
  split; unfold Server.load_as_specified; simpl; intros [H _]; discriminate H.
Qed.

(** C8, amended. [readCanvas] always returns a document and never writes:
    the default canvas when the file is missing or does not parse, the
    parsed contents otherwise, whatever their [version]; serving
    [GET /api/canvas] leaves the relay's state, file included, as it was.
    The file is created, with the default canvas, only at start-up and only
    when it does not exist. *)
Theorem C8_load_falls_back_without_writing :
  forall s,
    (Server.CANVAS_FILE s = None -> Server.readCanvas s = Server.default_canvas)
    /\ (forall raw, Server.CANVAS_FILE s = Some raw -> Server.JSON_parse raw = None ->
                    Server.readCanvas s = Server.default_canvas)
    /\ (forall raw v, Server.CANVAS_FILE s = Some raw -> Server.JSON_parse raw = Some v ->
                      Server.readCanvas s = v)
    /\ (forall res, Server.step s (Server.GET_canvas res)
                    = (s, [Server.respond res 200 (Server.body_json (Server.readCanvas s))]))
    /\ (forall e, Server.reads_canvas e = true ->
                  Server.CANVAS_FILE (fst (Server.step s e)) = Server.CANVAS_FILE s
                  /\ filter Server.is_write (snd (Server.step s e)) = [])
    /\ (snd (Server.startup None) = [Server.writeFileSync Server.DEFAULT_CANVAS]
        /\ Server.CANVAS_FILE (fst (Server.startup None)) = Some Server.DEFAULT_CANVAS
        /\ Server.readCanvas (fst (Server.startup None)) = Server.default_canvas)
    /\ (forall raw, snd (Server.startup (Some raw)) = []
                    /\ Server.CANVAS_FILE (fst (Server.startup (Some raw))) = Some raw).
Proof.
  intros s. unfold Server.readCanvas.
  split; [intros ->; reflexivity |].
  split; [intros raw -> ->; reflexivity |].
  split; [intros raw v -> ->; reflexivity |].
  split; [reflexivity |].
  split.
  { intros e He. destruct e; try discriminate He; cbn [Server.step].
    - split; reflexivity.
    - split; reflexivity.
    - unfold Server.on_change. destruct (Z.ltb _ _); simpl; [auto |].
      split; [reflexivity |].
      rewrite ServerFacts.broadcast_all.
      induction (Server.open_ids (Server.clients s)); [reflexivity | exact IHl]. }
  split; [repeat split |].
  intros raw. split; reflexivity.
Qed.

Lemma C8_load_witness :
  Server.readCanvas (relay_with (Some (Server.JSON_stringify old_schema)) 0 [])
  = old_schema.
Proof.
  exact (proj1 (proj2 (proj2 (C8_load_falls_back_without_writing
                                (relay_with (Some (Server.JSON_stringify old_schema)) 0 []))))
           (Server.JSON_stringify old_schema) old_schema eq_refl eq_refl).
Defined.

(** * The CLI *)

Module CliFacts.
Import Cli.

Lemma findIndex_unknown (target : string) (els : list element) :
  unknown target els ->
  findIndex (fun el => (id el =? target)%string) els = None.
Proof.
  induction els as [| el els IH]; intros U; [reflexivity |].
  simpl. destruct (String.eqb_spec (id el) target) as [E | _].
  - exfalso. exact (U el (or_introl eq_refl) E).
  - rewrite IH; [reflexivity |]. intros x Hx. apply U. right. exact Hx.
Qed.

Lemma has_unknown (ids : list string) (el : element) :
  (forall i, In i ids -> i <> id el) -> has ids el = false.
Proof.
  unfold has. induction ids as [| i ids IH]; intros U; [reflexivity |].
  simpl. destruct (String.eqb_spec i (id el)) as [E | _].
  - exfalso. exact (U i (or_introl eq_refl) E).
  - apply IH. intros j Hj. apply U. right. exact Hj.
Qed.

Lemma delete_loop_unknown (ids : list string) (now : Z) (els : list element) :
  (forall i, In i ids -> unknown i els) ->
  delete_loop ids now els = (els, 0).
Proof.
  induction els as [| el els IH]; intros U; [reflexivity |].
  simpl. rewrite IH.
  - rewrite has_unknown; [reflexivity |].
    intros i Hi E. exact (U i Hi el (or_introl eq_refl) (eq_sym E)).
  - intros i Hi x Hx. apply (U i Hi). right. exact Hx.
Qed.

Lemma with_elements_same (canvas : Scene.t) (els : list element) :
  Scene.elements canvas = Some els -> with_elements canvas els = canvas.
Proof. destruct canvas. simpl. intros ->. reflexivity. Qed.

End CliFacts.

(** C9 as stated fails for [delete]: with an identifier that no element
    carries, the command is not rejected and writes the document back. *)
Lemma C9_delete_counterexample :
  Cli.unknown "nope" [rectangle (Some 1) false]
  /\ Cli.delete ["nope"] 5 (file_mode (scene_of (Some [rectangle (Some 1) false])))
     = [Cli.writeFileSync (scene_of (Some [rectangle (Some 1) false]));
        Cli.console_log "Written to canvas.excalidraw";
        Cli.console_log "Deleted 0 element(s)"]
  /\ ~ Cli.rejected
         (Cli.delete ["nope"] 5 (file_mode (scene_of (Some [rectangle (Some 1) false])))).
Proof.
  split; [| split].
  - intros el [<- | []]. discriminate.
  - reflexivity.
  - intros [H _]. discriminate H.
Qed.

(** C9, amended. Once the document is read: an [update] whose target no
    element carries is rejected, with the not-found message when its
    arguments parse, and writes nothing; a [delete] none of whose
    identifiers is carried by an element is not rejected: it writes back
    the document it read, unchanged, and reports zero deletions. *)
Theorem C9_unknown_identifier :
  forall e canvas els,
    Cli.readCanvas e = inl canvas ->
    Scene.elements canvas = Some els ->
    (forall target rest updates nonce now,
        Cli.unknown target els ->
        Cli.rejected (Cli.update (target :: rest) updates nonce now e)
        /\ (forall u, target <> "" -> updates = Some u ->
                      Cli.update (target :: rest) updates nonce now e
                      = [Cli.console_error ("Element '" ++ target ++ "' not found")%string;
                         Cli.process_exit 1]))
    /\ (forall ids now,
           ids <> [] ->
           (forall i, In i ids -> Cli.unknown i els) ->
           Cli.delete ids now e
           = Cli.writeCanvas e canvas ++ [Cli.console_log "Deleted 0 element(s)"]).
Proof.
  intros e canvas els R E. split.
  - intros target rest updates nonce now U.
    assert (F := CliFacts.findIndex_unknown target els U).
    unfold Cli.update. rewrite R, E, F.
    split.
    + destruct target as [| a target]; [| destruct updates];
        (split; [reflexivity | simpl; tauto]).
    + intros u Hne ->. destruct target; [contradiction | reflexivity].
  - intros ids now Hne U. unfold Cli.delete.
    destruct ids as [| i ids]; [contradiction |].
    rewrite R, E, (CliFacts.delete_loop_unknown _ now els U).
    rewrite (CliFacts.with_elements_same canvas els E). reflexivity.
Qed.

Lemma C9_unknown_identifier_witness :
  Cli.rejected
    (Cli.update ["nope"; "{}"]
       (Some {| Cli.set_id := None; Cli.set_type := None;
                Cli.set_isDeleted := None; Cli.set_props := [] |})
       11 5 (file_mode (scene_of (Some [rectangle (Some 1) false])))).
Proof.
  refine (proj1 (proj1 (C9_unknown_identifier
                          (file_mode (scene_of (Some [rectangle (Some 1) false])))
                          (scene_of (Some [rectangle (Some 1) false]))
                          [rectangle (Some 1) false] eq_refl eq_refl)
                   "nope" ["{}"] _ 11 5 _)).
  intros el [<- | []]. discriminate.
Defined.

(** * The element factory ([lib/elements.js]) *)

Module ObjectFacts.
Import Elements.

Lemma get_None (k : string) (o : object) :
  get k o = None <-> ~ In k (keys o).
Proof.
  induction o as [| [k' v] o IH]; simpl; [tauto |].
  destruct (String.eqb_spec k' k) as [-> | Hne].
  - split; [discriminate | intros H; exfalso; apply H; left; reflexivity].
  - rewrite IH. tauto.
Qed.

Lemma get_set_same (k : string) (v : value) (o : object) :
  get k (set k v o) = Some v.
Proof.
  induction o as [| [k' v'] o IH]; simpl.
  - rewrite String.eqb_refl. reflexivity.
  - destruct (String.eqb_spec k' k) as [-> | Hne]; simpl.
    + rewrite String.eqb_refl. reflexivity.
    + destruct (String.eqb_spec k' k); [contradiction | exact IH].
Qed.

Lemma get_set_other (k k' : string) (v : value) (o : object) :
  k <> k' -> get k' (set k v o) = get k' o.
Proof.
  intros Hne. induction o as [| [k0 v0] o IH]; simpl.
  - destruct (String.eqb_spec k k'); [contradiction | reflexivity].
  - destruct (String.eqb_spec k0 k) as [-> | H0]; simpl.
    + destruct (String.eqb_spec k k'); [contradiction | reflexivity].
    + rewrite IH. reflexivity.
Qed.

Lemma keys_set_old (k : string) (v : value) (o : object) :
  In k (keys o) -> keys (set k v o) = keys o.
Proof.
  induction o as [| [k' v'] o IH]; simpl; [tauto |].
  intros H. destruct (String.eqb_spec k' k) as [-> | Hne]; simpl; [reflexivity |].
  f_equal. apply IH. destruct H; [contradiction | assumption].
Qed.

Lemma keys_set_new (k : string) (v : value) (o : object) :
  ~ In k (keys o) -> set k v o = o ++ [(k, v)].
Proof.
  induction o as [| [k' v'] o IH]; simpl; [reflexivity |].
  intros H. destruct (String.eqb_spec k' k) as [-> | Hne].
  - exfalso. apply H. left. reflexivity.
  - f_equal. apply IH. tauto.
Qed.

(** The keys after [set] depend on the keys before only. *)
Lemma keys_set_congr (k : string) (v v' : value) (a a' : object) :
  keys a = keys a' -> keys (set k v a) = keys (set k v' a').
Proof.
  intros H. destruct (in_dec string_dec k (keys a)) as [Hin | Hout].
  - rewrite !keys_set_old; congruence.
  - rewrite !keys_set_new by congruence.
    unfold keys in *. rewrite !map_app, H. reflexivity.
Qed.

Lemma keys_set_prefix (k : string) (v : value) (o : object) :
  exists more, keys (set k v o) = keys o ++ more.
Proof.
  destruct (in_dec string_dec k (keys o)) as [Hin | Hout].
  - exists []. rewrite keys_set_old, app_nil_r; auto.
  - exists [k]. rewrite keys_set_new by assumption.
    unfold keys. rewrite map_app. reflexivity.
Qed.

Lemma NoDup_set (k : string) (v : value) (o : object) :
  NoDup (keys o) -> NoDup (keys (set k v o)).
Proof.
  intros H. destruct (in_dec string_dec k (keys o)) as [Hin | Hout].
  - rewrite keys_set_old; assumption.
  - rewrite keys_set_new by assumption. unfold keys in *. rewrite map_app. simpl.
    apply NoDup_app; [assumption | repeat constructor; simpl; tauto |].
    intros x Hx [<- | []]. contradiction.
Qed.

Lemma spread_cons (a : object) (k : string) (v : value) (b : object) :
  spread a ((k, v) :: b) = spread (set k v a) b.
Proof. reflexivity. Qed.

Lemma keys_spread_congr (b : object) :
  forall a a', keys a = keys a' -> keys (spread a b) = keys (spread a' b).
Proof.
  induction b as [| [k v] b IH]; intros a a' H; [exact H |].
  rewrite !spread_cons. apply IH, keys_set_congr, H.
Qed.

Lemma keys_spread_prefix (b : object) :
  forall a, exists more, keys (spread a b) = keys a ++ more.
Proof.
  induction b as [| [k v] b IH]; intros a.
  - exists []. rewrite app_nil_r. reflexivity.
  - rewrite spread_cons. destruct (IH (set k v a)) as [m1 H1].
    destruct (keys_set_prefix k v a) as [m2 H2].
    exists (m2 ++ m1). rewrite H1, H2, app_assoc. reflexivity.
Qed.

Lemma NoDup_spread (b : object) :
  forall a, NoDup (keys a) -> NoDup (keys (spread a b)).
Proof.
  induction b as [| [k v] b IH]; intros a H; [exact H |].
  rewrite spread_cons. apply IH, NoDup_set, H.
Qed.

(** A later property wins over an earlier one of the same name. *)
Lemma get_spread (k : string) (b : object) :
  NoDup (keys b) ->
  forall a, get k (spread a b)
            = match get k b with Some v => Some v | None => get k a end.
Proof.
  induction b as [| [k1 v1] b IH]; intros Hb a; [reflexivity |].
  rewrite spread_cons. simpl in Hb. inversion Hb as [| ? ? Hout Hb']; subst.
  rewrite (IH Hb'). simpl.
  destruct (String.eqb_spec k1 k) as [-> | Hne].
  - apply get_None in Hout. rewrite Hout. apply get_set_same.
  - rewrite get_set_other by assumption. reflexivity.
Qed.

Lemma get_spread_base (k : string) (b : object) :
  forall a, get k a <> None -> get k (spread a b) <> None.
Proof.
  induction b as [| [k1 v1] b IH]; intros a H; [exact H |].
  rewrite spread_cons. apply IH.
  destruct (String.eqb_spec k1 k) as [-> | Hne].
  - rewrite get_set_same. discriminate.
  - rewrite get_set_other; assumption.
Qed.

Lemma spread_fresh (b : object) :
  forall a, NoDup (keys (a ++ b)) -> spread a b = a ++ b.
Proof.
  induction b as [| [k v] b IH]; intros a H.
  - rewrite app_nil_r. reflexivity.
  - rewrite spread_cons, keys_set_new.
    + rewrite IH; rewrite <- app_assoc; [reflexivity | exact H].
    + unfold keys in H. rewrite map_app in H.
      apply NoDup_remove_2 in H. intros Hin. apply H.
      apply in_or_app. left. exact Hin.
Qed.

Lemma spread_head (k : string) (v : value) (b : object) :
  ~ In k (keys b) ->
  forall a, spread ((k, v) :: a) b = (k, v) :: spread a b.
Proof.
  induction b as [| [k1 v1] b IH]; intros Hout a; [reflexivity |].
  rewrite !spread_cons. simpl in Hout. simpl.
  destruct (String.eqb_spec k k1) as [-> | Hne]; [tauto |].
  apply IH. tauto.
Qed.

(** Spreading an object over another whose keys are its first keys, in the
    same order, gives the object back. *)
Lemma spread_over_prefix (X : object) :
  forall R, NoDup (keys R) ->
            keys X = firstn (List.length X) (keys R) ->
            spread X R = R.
Proof.
  induction X as [| [k x] X IH]; intros R HR HX.
  - apply (spread_fresh R []). exact HR.
  - destruct R as [| [k' v] R]; [discriminate HX |].
    simpl in HX. injection HX as -> HX.
    simpl in HR. inversion HR as [| ? ? Hout HR']; subst.
    rewrite spread_cons. simpl. rewrite String.eqb_refl.
    rewrite (spread_head k' v R Hout). f_equal. apply IH; assumption.
Qed.

Lemma firstn_keys_prefix (X R : object) (more : list string) :
  keys R = keys X ++ more -> keys X = firstn (List.length X) (keys R).
Proof.
  intros ->. unfold keys at 2. rewrite <- (length_map fst X).
  fold (keys X). rewrite firstn_app, Nat.sub_diag, firstn_all. simpl.
  rewrite app_nil_r. reflexivity.
Qed.

End ObjectFacts.

Module NormalizeFacts.
Import Elements.

Lemma NoDup_base_keys : NoDup base_keys.
Proof.
  unfold base_keys.
  repeat (constructor; [simpl; intros H; repeat (destruct H as [H | H]; [discriminate H |]); exact H |]).
  constructor.
Qed.

Lemma keys_baseElement (e : entropy) (i : N) : keys (baseElement e i []) = base_keys.
Proof. reflexivity. Qed.

Lemma NoDup_baseElement (e : entropy) (i : N) (overrides : object) :
  NoDup (keys (baseElement e i overrides)).
Proof.
  unfold baseElement. apply ObjectFacts.NoDup_spread.
  change (NoDup base_keys). exact NoDup_base_keys.
Qed.

Lemma keys_baseElement_prefix (e : entropy) (i : N) (overrides : object) :
  exists more, keys (baseElement e i overrides) = base_keys ++ more.
Proof.
  unfold baseElement.
  destruct (ObjectFacts.keys_spread_prefix overrides
              (baseElement e i [])) as [more H].
  exists more. exact H.
Qed.

Lemma typeDefaults_text (type : value) (p1 p2 : object) :
  get "text" p1 = get "text" p2 -> typeDefaults type p1 = typeDefaults type p2.
Proof. unfold typeDefaults. intros ->. reflexivity. Qed.

(** Neither the base element nor the type defaults define [text]. *)
Lemma no_text_default (e : entropy) (i : N) (type : value) (p : object) :
  get "text" (spread (baseElement e i []) (typeDefaults type p)) = None.
Proof.
  unfold typeDefaults.
  destruct (is_string type "text"), (is_string type "rectangle"),
    (is_string type "arrow"); try reflexivity;
    destruct (get "text" p) as [t |]; try reflexivity;
    destruct (truthy t); reflexivity.
Qed.

Lemma NoDup_typeDefaults (type : value) (p : object) :
  NoDup (keys (typeDefaults type p)).
Proof.
  unfold typeDefaults.
  repeat match goal with
         | |- context [if ?b then _ else _] => destruct b
         | |- context [match get "text" p with _ => _ end] => destruct (get "text" p)
         end;
    repeat apply ObjectFacts.NoDup_set; constructor.
Qed.

(** What [normalize] returns for an object with a truthy [type]. *)
Lemma normalize_returns (draw : N -> entropy) (i : N) (p : object) (type : value) :
  get "type" p = Some type -> truthy type = true ->
  normalize draw i (VObj p)
  = (Returned (spread (spread (baseElement (draw i) i []) (typeDefaults type p)) p),
     (i + 1)%N).
Proof. intros Ht Hy. unfold normalize. rewrite Ht, Hy. reflexivity. Qed.

Lemma normalize_typed (draw : N -> entropy) (i : N) (el : value) :
  CliElements.typed el = true ->
  exists o, normalize draw i el = (Returned o, (i + 1)%N).
Proof.
  unfold CliElements.typed, normalize.
  destruct el as [| | | | | p]; try discriminate.
  destruct (get "type" p) as [type |]; [| discriminate].
  intros ->. eexists. reflexivity.
Qed.

Lemma normalize_untyped (draw : N -> entropy) (i : N) (el : value) :
  CliElements.typed el = false ->
  normalize draw i el = (Threw no_type, i).
Proof.
  unfold CliElements.typed, normalize.
  destruct el as [| | | | | p]; try reflexivity.
  destruct (get "type" p) as [type |]; [| reflexivity].
  intros ->. reflexivity.
Qed.

End NormalizeFacts.

(** X1. [normalize] of an object with a truthy [type] returns an element in
    which every property of the argument keeps its value, every base
    property is defined, and a name set neither by the argument nor by the
    type defaults has the base default; the index counter advances by one. *)
Theorem X1_normalize_keeps_and_completes :
  forall draw i p type,
    NoDup (Elements.keys p) ->
    Elements.get "type" p = Some type ->
    Elements.truthy type = true ->
    exists r,
      Elements.normalize draw i (Elements.VObj p) = (Elements.Returned r, (i + 1)%N)
      /\ NoDup (Elements.keys r)
      /\ (forall k v, Elements.get k p = Some v -> Elements.get k r = Some v)
      /\ (forall k, In k Elements.base_keys -> Elements.get k r <> None)
      /\ (forall k, Elements.get k p = None ->
                    Elements.get k (Elements.typeDefaults type p) = None ->
                    Elements.get k r
                    = Elements.get k (Elements.baseElement (draw i) i [])).
Proof.
  intros draw i p type Hp Ht Hy.
  eexists. split; [apply NormalizeFacts.normalize_returns; eassumption |].
  split; [| split; [| split]].
  - apply ObjectFacts.NoDup_spread, ObjectFacts.NoDup_spread,
      (NormalizeFacts.NoDup_baseElement (draw i) i []).
  - intros k v Hk. rewrite (ObjectFacts.get_spread k p Hp), Hk. reflexivity.
  - intros k Hin. apply ObjectFacts.get_spread_base, ObjectFacts.get_spread_base.
    intros H. apply ObjectFacts.get_None in H. apply H.
    rewrite NormalizeFacts.keys_baseElement. exact Hin.
  - intros k Hk Hd.
    rewrite (ObjectFacts.get_spread k p Hp), Hk.
    rewrite (ObjectFacts.get_spread k _ (NormalizeFacts.NoDup_typeDefaults type p)), Hd.
    reflexivity.
Qed.

Lemma X1_normalize_witness :
  exists r,
    Elements.normalize sample_draw 0 (Elements.VObj partial_text)
    = (Elements.Returned r, 1%N)
    /\ Elements.get "x" r = Some (Elements.integer 10).
Proof.
  assert (Hp : NoDup (Elements.keys partial_text)).
  { repeat constructor; simpl; intuition discriminate. }
  destruct (X1_normalize_keeps_and_completes sample_draw 0%N partial_text
              (Elements.VStr "text") Hp eq_refl eq_refl)
    as [r [H1 [_ [H3 _]]]].
  exists r. split; [exact H1 | apply H3; reflexivity].
Defined.

(** X2. [normalize] is idempotent: normalising its own result again, at any
    later counter and with any other random draws and clock, returns that
    result unchanged. *)
Theorem X2_normalize_idempotent :
  forall draw draw' i j p type,
    NoDup (Elements.keys p) ->
    Elements.get "type" p = Some type ->
    Elements.truthy type = true ->
    exists r,
      Elements.normalize draw i (Elements.VObj p) = (Elements.Returned r, (i + 1)%N)
      /\ Elements.normalize draw' j (Elements.VObj r)
         = (Elements.Returned r, (j + 1)%N).
Proof.
  intros draw draw' i j p type Hp Ht Hy.
  eexists. split; [apply NormalizeFacts.normalize_returns; eassumption |].
  set (D := Elements.baseElement (draw i) i []).
  set (T := Elements.typeDefaults type p).
  set (r := Elements.spread (Elements.spread D T) p).
  assert (Htr : Elements.get "type" r = Some type).
  { unfold r. rewrite (ObjectFacts.get_spread "type" p Hp), Ht. reflexivity. }
  assert (Hxr : Elements.get "text" r = Elements.get "text" p).
  { unfold r. rewrite (ObjectFacts.get_spread "text" p Hp).
    destruct (Elements.get "text" p); [reflexivity |].
    apply NormalizeFacts.no_text_default. }
  rewrite (NormalizeFacts.normalize_returns draw' j r type Htr Hy).
  rewrite (NormalizeFacts.typeDefaults_text type r p Hxr). fold T.
  f_equal. f_equal.
  apply ObjectFacts.spread_over_prefix.
  - unfold r, D. apply ObjectFacts.NoDup_spread, ObjectFacts.NoDup_spread,
      (NormalizeFacts.NoDup_baseElement (draw i) i []).
  - destruct (ObjectFacts.keys_spread_prefix p (Elements.spread D T)) as [more Hm].
    apply (ObjectFacts.firstn_keys_prefix _ r more). fold r in Hm. rewrite Hm.
    f_equal. apply ObjectFacts.keys_spread_congr. reflexivity.
Qed.

Lemma X2_normalize_idempotent_witness :
  exists r,
    Elements.normalize sample_draw 0 (Elements.VObj partial_text)
    = (Elements.Returned r, 1%N)
    /\ Elements.normalize sample_draw 7 (Elements.VObj r)
       = (Elements.Returned r, 8%N).
Proof.
  assert (Hp : NoDup (Elements.keys partial_text)).
  { repeat constructor; simpl; intuition discriminate. }
  exact (X2_normalize_idempotent sample_draw sample_draw 0%N 7%N partial_text
           (Elements.VStr "text") Hp eq_refl eq_refl).
Defined.

(** X3. An element built by [rect], [ellipse] or [diamond] whose options do
    not set [type] passes through [normalize] unchanged, so the [draw-*]
    commands store the very element whose [id] they print. *)
Theorem X3_factory_elements_are_normal :
  forall e i x y width height opts draw j,
    NoDup (Elements.keys opts) ->
    Elements.get "type" opts = None ->
    Elements.normalize draw j (Elements.VObj (Elements.rect e i x y width height opts))
    = (Elements.Returned (Elements.rect e i x y width height opts), (j + 1)%N)
    /\ Elements.normalize draw j
         (Elements.VObj (Elements.ellipse e i x y width height opts))
       = (Elements.Returned (Elements.ellipse e i x y width height opts), (j + 1)%N)
    /\ Elements.normalize draw j
         (Elements.VObj (Elements.diamond e i x y width height opts))
       = (Elements.Returned (Elements.diamond e i x y width height opts), (j + 1)%N).
Proof.
  intros e i x y width height opts draw j Ho Ht.
  assert (G : forall lit name T,
             NoDup (Elements.keys lit) ->
             Elements.get "type" lit = Some (Elements.VStr name) ->
             Elements.truthy (Elements.VStr name) = true ->
             (forall q, Elements.typeDefaults (Elements.VStr name) q = T) ->
             Elements.keys (Elements.spread (Elements.baseElement (draw j) j []) T)
             = Elements.base_keys ->
             Elements.normalize draw j
               (Elements.VObj (Elements.baseElement e i (Elements.spread lit opts)))
             = (Elements.Returned (Elements.baseElement e i (Elements.spread lit opts)),
                (j + 1)%N)).
  { intros lit name T Hl Hty Hy HT HK.
    set (r := Elements.baseElement e i (Elements.spread lit opts)).
    assert (Hr : Elements.get "type" r = Some (Elements.VStr name)).
    { unfold r, Elements.baseElement.
      rewrite ObjectFacts.get_spread by (apply ObjectFacts.NoDup_spread, Hl).
      rewrite (ObjectFacts.get_spread "type" opts Ho), Ht, Hty. reflexivity. }
    rewrite (NormalizeFacts.normalize_returns draw j r _ Hr Hy), HT.
    f_equal. f_equal. apply ObjectFacts.spread_over_prefix.
    - apply NormalizeFacts.NoDup_baseElement.
    - destruct (NormalizeFacts.keys_baseElement_prefix e i (Elements.spread lit opts))
        as [more Hm].
      apply (ObjectFacts.firstn_keys_prefix _ r more). fold r in Hm.
      rewrite Hm, HK. reflexivity. }
  split; [| split].
  - apply (G _ "rectangle" [("roundness", Elements.VObj [("type", Elements.integer 3)])]);
      try reflexivity.
    repeat constructor; simpl; intuition discriminate.
  - apply (G _ "ellipse" []); try reflexivity.
    repeat constructor; simpl; intuition discriminate.
  - apply (G _ "diamond" []); try reflexivity.
    repeat constructor; simpl; intuition discriminate.
Qed.

Lemma X3_factory_witness :
  Elements.normalize sample_draw 4
    (Elements.VObj (Elements.rect (sample_draw 3) 3 (Elements.integer 0)
                      (Elements.integer 0) (Elements.integer 50)
                      (Elements.integer 40) blue))
  = (Elements.Returned (Elements.rect (sample_draw 3) 3 (Elements.integer 0)
                          (Elements.integer 0) (Elements.integer 50)
                          (Elements.integer 40) blue), 5%N).
Proof.
  refine (proj1 (X3_factory_elements_are_normal (sample_draw 3) 3%N
                   (Elements.integer 0) (Elements.integer 0) (Elements.integer 50)
                   (Elements.integer 40) blue sample_draw 4%N _ eq_refl)).
  repeat constructor; simpl; intuition discriminate.
Defined.

Module MergeFacts.
Import Elements.

Lemma keyed_id (el : value) : keyed el -> id_of el = skey (string_id el).
Proof.
  intros [p [s [-> H]]]. unfold string_id. simpl. rewrite H. reflexivity.
Qed.

Lemma stored_keyed (el : value) : stored el -> keyed el.
Proof. intros [p [s [E [H _]]]]. exists p, s. auto. Qed.

Lemma index_existing_fold (existing : list value) :
  Forall keyed existing ->
  forall m, index_existing existing m = Returned (fold_left file existing m).
Proof.
  induction 1 as [| el rest Hk _ IH]; intros m; [reflexivity |].
  simpl. destruct Hk as [p [s [-> Hid]]]. simpl. apply IH.
Qed.

Lemma merge_incoming_fold (draw : N -> entropy) (i : N) (incoming : list value) :
  Forall stored incoming ->
  forall m, merge_incoming draw i incoming m = (Returned (fold_left file incoming m), i).
Proof.
  induction 1 as [| el rest Hs _ IH]; intros m; [reflexivity |].
  simpl. destruct Hs as [p [s [-> [Hid Hv]]]]. simpl. rewrite Hv. apply IH.
Qed.

Lemma mergeElements_fold (draw : N -> entropy) (i : N) (existing incoming : list value) :
  Forall keyed existing -> Forall stored incoming ->
  mergeElements draw i existing incoming
  = (Returned (map snd (fold_left file (existing ++ incoming) [])), i).
Proof.
  intros He Hi. unfold mergeElements.
  rewrite (index_existing_fold existing He), (merge_incoming_fold draw i incoming Hi).
  rewrite fold_left_app. reflexivity.
Qed.

Lemma filed_cons (k : option value) (x : value) (m : Map) :
  filed ((k, x) :: m) -> (id_of x = k /\ k = skey (string_id x)) /\ filed m.
Proof.
  intros H. split; [apply H; left; reflexivity |].
  intros k' v Hin. apply H. right. exact Hin.
Qed.

(** [map.set] on a filed map: an existing key keeps its place, a new one
    goes last. *)
Lemma Map_set_filed (el : value) (m : Map) :
  keyed el -> filed m ->
  filed (file m el)
  /\ (In (string_id el) (ids (map snd m)) -> ids (map snd (file m el)) = ids (map snd m))
  /\ (~ In (string_id el) (ids (map snd m)) -> file m el = m ++ [(id_of el, el)]).
Proof.
  intros Hk. unfold file. rewrite (keyed_id el Hk).
  induction m as [| [k x] m IH]; intros Hm.
  - simpl. split; [| split; [tauto | reflexivity]].
    intros k v [H | []]. injection H as <- <-. split; [apply keyed_id, Hk | reflexivity].
  - apply filed_cons in Hm as [[Hx Hkx] Hm]. specialize (IH Hm) as [F [Old New]].
    rewrite Hkx in Hx. subst k. cbn [Map_set same_key skey].
    destruct (String.eqb_spec (string_id x) (string_id el)) as [E | Hne].
    + split; [| split].
      * intros k v [H | H]; [| apply Hm, H]. injection H as <- <-.
        split; [rewrite E; apply keyed_id, Hk | rewrite E; reflexivity].
      * intros _. cbn [map snd ids]. rewrite E. reflexivity.
      * intros H. exfalso. apply H. left. exact E.
    + split; [| split].
      * intros k v [H | H]; [| apply F, H]. injection H as <- <-.
        split; [exact Hx | reflexivity].
      * intros [H | H]; [contradiction |]. cbn [map snd ids]. f_equal. apply Old, H.
      * intros H. cbn [app]. rewrite New; [reflexivity |].
        intros H'. apply H. right. exact H'.
Qed.

Lemma filter_twice {A : Type} (p : A -> bool) (l : list A) :
  filter p (filter p l) = filter p l.
Proof.
  induction l as [| x l IH]; [reflexivity |].
  simpl. destruct (p x) eqn:E; simpl; rewrite ?E, IH; reflexivity.
Qed.

Lemma filter_swap {A : Type} (p q : A -> bool) (l : list A) :
  filter p (filter q l) = filter q (filter p l).
Proof.
  induction l as [| x l IH]; [reflexivity |].
  simpl. destruct (p x) eqn:P, (q x) eqn:Q; simpl; rewrite ?P, ?Q, IH; reflexivity.
Qed.

Lemma filter_firsts (a : string) (ks : list string) :
  filter (fun x => negb (x =? a)%string) (firsts ks)
  = firsts (filter (fun x => negb (x =? a)%string) ks).
Proof.
  induction ks as [| k ks IH]; [reflexivity |].
  cbn [firsts filter]. destruct (String.eqb_spec k a) as [-> | Hne]; cbn [negb].
  - rewrite filter_twice. exact IH.
  - cbn [firsts]. f_equal. rewrite filter_swap, IH. reflexivity.
Qed.

Lemma firsts_seen (k : string) (A L : list string) :
  In k A -> firsts (A ++ k :: L) = firsts (A ++ L).
Proof.
  induction A as [| a A IH]; intros Hin; [destruct Hin |].
  rewrite <- !app_comm_cons.
  change (a :: filter (fun x => negb (x =? a)%string) (firsts (A ++ k :: L))
          = a :: filter (fun x => negb (x =? a)%string) (firsts (A ++ L))).
  destruct (string_dec a k) as [-> | Hne].
  - rewrite !filter_firsts, !filter_app. simpl.
    rewrite String.eqb_refl. reflexivity.
  - rewrite IH; [reflexivity |]. destruct Hin; [contradiction | assumption].
Qed.

Lemma firsts_NoDup (A : list string) : NoDup A -> firsts A = A.
Proof.
  induction 1 as [| a A Hout _ IH]; [reflexivity |].
  cbn [firsts]. rewrite IH. f_equal.
  apply forallb_filter_id. apply forallb_forall. intros x Hx.
  destruct (String.eqb_spec x a); [subst; contradiction | reflexivity].
Qed.

Lemma NoDup_firsts (A : list string) : NoDup (firsts A).
Proof.
  induction A as [| a A IH]; [constructor |].
  cbn [firsts]. constructor.
  - intros H. apply filter_In in H as [_ H]. rewrite String.eqb_refl in H. discriminate.
  - apply NoDup_filter, IH.
Qed.

(** The keys of the map after filing a list: first occurrences, in order. *)
Lemma fold_file (l : list value) :
  Forall keyed l ->
  forall m, filed m -> NoDup (ids (map snd m)) ->
            filed (fold_left file l m)
            /\ ids (map snd (fold_left file l m))
               = firsts (ids (map snd m) ++ ids l).
Proof.
  induction 1 as [| el l Hk _ IH]; intros m Hm Hn.
  - simpl. rewrite app_nil_r, firsts_NoDup by assumption. auto.
  - cbn [fold_left].
    destruct (Map_set_filed el m Hk Hm) as [F [Old New]].
    destruct (in_dec string_dec (string_id el) (ids (map snd m))) as [Hin | Hout].
    + assert (Hn' : NoDup (ids (map snd (file m el)))) by (rewrite Old; assumption).
      destruct (IH _ F Hn') as [F' K]. split; [exact F' |].
      rewrite K, (Old Hin). cbn [ids map]. symmetry. apply firsts_seen, Hin.
    + assert (E : ids (map snd (file m el)) = ids (map snd m) ++ [string_id el]).
      { rewrite (New Hout). unfold ids. rewrite !map_app. reflexivity. }
      assert (Hn' : NoDup (ids (map snd (file m el)))).
      { rewrite E. apply NoDup_app; [assumption | repeat constructor; simpl; tauto |].
        intros x Hx [<- | []]. contradiction. }
      destruct (IH _ F Hn') as [F' K]. split; [exact F' |].
      rewrite K, E, <- app_assoc. reflexivity.
Qed.

Lemma Map_get_set (s s' : string) (el : value) (m : Map) :
  Map_get (skey s) (Map_set (skey s') el m)
  = if (s' =? s)%string then Some el else Map_get (skey s) m.
Proof.
  induction m as [| [k x] m IH]; simpl.
  - reflexivity.
  - destruct (same_key k (skey s')) eqn:E; simpl.
    + destruct k as [[| | | t | |] |]; simpl in E; try discriminate.
      apply String.eqb_eq in E. subst t. cbn [same_key skey].
      destruct (s' =? s)%string; reflexivity.
    + destruct (same_key k (skey s)) eqn:E2; [| exact IH].
      destruct (String.eqb_spec s' s) as [-> | _]; [congruence | reflexivity].
Qed.

Lemma Map_get_fold (s : string) (l : list value) :
  Forall keyed l ->
  forall m, Map_get (skey s) (fold_left file l m)
            = match last_with s l with
              | Some x => Some x
              | None => Map_get (skey s) m
              end.
Proof.
  induction 1 as [| el l Hk _ IH]; intros m; [reflexivity |].
  cbn [fold_left last_with]. rewrite IH.
  destruct (last_with s l); [reflexivity |].
  unfold file. rewrite (keyed_id el Hk), Map_get_set. cbn [same_key skey].
  destruct (string_id el =? s)%string; reflexivity.
Qed.

Lemma find_id_filed (s : string) (m : Map) :
  filed m -> find_id s (map snd m) = Map_get (skey s) m.
Proof.
  induction m as [| [k x] m IH]; intros Hm; [reflexivity |].
  apply filed_cons in Hm as [[Hx _] Hm]. unfold find_id in *. simpl.
  rewrite Hx. unfold skey. destruct (same_key k (Some (VStr s)));
    [reflexivity | apply IH, Hm].
Qed.

Lemma distinct_filed (m : Map) :
  filed m -> NoDup (ids (map snd m)) -> distinct_ids (map snd m).
Proof.
  induction m as [| [k x] m IH]; intros Hm Hn; [exact I |].
  apply filed_cons in Hm as [[Hx Hkx] Hm].
  cbn [map snd ids] in Hn. inversion Hn as [| ? ? Hout Hn']; subst.
  cbn [map snd distinct_ids]. split; [| apply IH; assumption].
  intros other Hin. apply in_map_iff in Hin as [[k' y] [<- Hin]].
  destruct (Hm k' y Hin) as [Hy Hky]. cbn [snd]. rewrite Hkx, Hy, Hky.
  cbn [same_key skey]. destruct (String.eqb_spec (string_id x) (string_id y)) as [E |];
    [| reflexivity].
  exfalso. apply Hout. rewrite E. apply in_map.
  apply in_map_iff. exists (k', y). auto.
Qed.

Lemma filed_nil : filed [].
Proof. intros k v []. Qed.

(** The result of [mergeElements] on elements that have string ids and,
    for the incoming ones, a version. *)
Lemma mergeElements_spec (draw : N -> entropy) (i : N) (existing incoming : list value) :
  Forall keyed existing -> Forall stored incoming ->
  exists merged,
    mergeElements draw i existing incoming = (Returned merged, i)
    /\ distinct_ids merged
    /\ ids merged = firsts (ids (existing ++ incoming))
    /\ Forall keyed merged
    /\ forall s, find_id s merged = last_with s (existing ++ incoming).
Proof.
  intros He Hi.
  assert (Hall : Forall keyed (existing ++ incoming)).
  { apply Forall_app. split; [exact He |].
    eapply Forall_impl; [| exact Hi]. apply stored_keyed. }
  destruct (fold_file _ Hall [] filed_nil (NoDup_nil _)) as [F K].
  eexists. split; [apply mergeElements_fold; assumption |].
  split; [| split; [| split]].
  - apply distinct_filed; [exact F |]. rewrite K. apply NoDup_firsts.
  - exact K.
  - apply Forall_forall. intros x Hx. apply in_map_iff in Hx as [[k y] [<- Hin]].
    destruct (F k y Hin) as [Hy Hk]. cbn [snd].
    destruct y as [| | | | | p]; cbn [id_of] in Hy; try (rewrite Hk in Hy; discriminate).
    exists p, (string_id (VObj p)). split; [reflexivity |]. rewrite Hy. exact Hk.
  - intros s. rewrite (find_id_filed s _ F), (Map_get_fold s _ Hall). simpl.
    destruct (last_with s (existing ++ incoming)); reflexivity.
Qed.

Lemma last_with_app (s : string) (A B : list value) :
  last_with s (A ++ B)
  = match last_with s B with
    | Some x => Some x
    | None => last_with s A
    end.
Proof.
  induction A as [| a A IH]; simpl.
  - destruct (last_with s B); reflexivity.
  - rewrite IH. destruct (last_with s B); reflexivity.
Qed.

Lemma In_firsts (x : string) (l : list string) : In x (firsts l) <-> In x l.
Proof.
  induction l as [| a l IH]; [tauto |].
  cbn [firsts]. simpl. rewrite filter_In, IH.
  destruct (String.eqb_spec x a) as [-> | Hne]; simpl; [tauto |].
  split; [tauto |]. intros [H | H]; [symmetry in H; contradiction | auto].
Qed.

Lemma firsts_absorb (A B : list string) :
  NoDup A -> (forall x, In x B -> In x A) -> firsts (A ++ B) = A.
Proof.
  intros HA. induction B as [| b B IH]; intros HB.
  - rewrite app_nil_r. apply firsts_NoDup, HA.
  - rewrite firsts_seen by (apply HB; left; reflexivity).
    apply IH. intros x Hx. apply HB. right. exact Hx.
Qed.

Lemma find_id_absent (s : string) (l : list value) :
  Forall keyed l -> ~ In s (ids l) -> find_id s l = None /\ last_with s l = None.
Proof.
  induction 1 as [| x l Hk _ IH]; intros Hout; [split; reflexivity |].
  unfold find_id in *. cbn [find last_with]. cbn [ids map] in Hout.
  rewrite (keyed_id x Hk). cbn [same_key skey].
  destruct (String.eqb_spec (string_id x) s) as [E | _];
    [exfalso; apply Hout; left; exact E |].
  destruct IH as [F L]; [intros H'; apply Hout; right; exact H' |].
  rewrite L. auto.
Qed.

Lemma last_is_find (s : string) (l : list value) :
  Forall keyed l -> NoDup (ids l) -> last_with s l = find_id s l.
Proof.
  induction 1 as [| x l Hk Hl IH]; intros Hn; [reflexivity |].
  cbn [ids map] in Hn. inversion Hn as [| ? ? Hout Hn']; subst.
  unfold find_id in *. cbn [find last_with].
  rewrite (keyed_id x Hk). cbn [same_key skey].
  destruct (String.eqb_spec (string_id x) s) as [E | _].
  - subst s. destruct (find_id_absent _ l Hl Hout) as [_ L]. rewrite L. reflexivity.
  - rewrite (IH Hn'). destruct (find _ l); reflexivity.
Qed.

(** Lists of keyed elements with distinct ids are equal when they list the
    same ids in the same order and file the same element under each. *)
Lemma same_elements (l1 : list value) :
  forall l2,
    Forall keyed l1 -> Forall keyed l2 -> NoDup (ids l1) ->
    ids l1 = ids l2 ->
    (forall s, find_id s l1 = find_id s l2) ->
    l1 = l2.
Proof.
  induction l1 as [| x l1 IH]; intros [| y l2] H1 H2 Hn Hi Hf; try discriminate Hi.
  - reflexivity.
  - inversion H1 as [| ? ? Hx H1']; inversion H2 as [| ? ? Hy H2']; subst.
    cbn [ids map] in Hi, Hn. injection Hi as Hxy Hi.
    inversion Hn as [| ? ? Hout Hn']; subst.
    assert (Exy : x = y).
    { specialize (Hf (string_id x)). unfold find_id in Hf. cbn [find] in Hf.
      rewrite (keyed_id x Hx), (keyed_id y Hy), <- Hxy in Hf.
      cbn [same_key skey] in Hf. rewrite String.eqb_refl in Hf. congruence. }
    subst y. f_equal. apply IH; try assumption.
    intros s. specialize (Hf s). unfold find_id in *. cbn [find] in Hf.
    rewrite (keyed_id x Hx) in Hf. cbn [same_key skey] in Hf.
    destruct (String.eqb_spec (string_id x) s) as [E | _]; [| exact Hf].
    subst s. destruct (find_id_absent _ l1 H1' Hout) as [F1 _].
    assert (Hout2 : ~ In (string_id x) (ids l2)) by (fold (ids l2) in Hi; rewrite <- Hi; exact Hout).
    destruct (find_id_absent _ l2 H2' Hout2) as [F2 _].
    unfold find_id in F1, F2. rewrite F1, F2. reflexivity.
Qed.

Lemma firsts_prefix (A B : list string) :
  NoDup A -> exists more, firsts (A ++ B) = A ++ more.
Proof.
  induction 1 as [| a A Hout _ [more IH]]; [exists (firsts B); reflexivity |].
  exists (filter (fun x => negb (x =? a)%string) more).
  rewrite <- app_comm_cons.
  change (a :: filter (fun x => negb (x =? a)%string) (firsts (A ++ B))
          = a :: A ++ filter (fun x => negb (x =? a)%string) more).
  rewrite IH, filter_app. f_equal. f_equal.
  apply forallb_filter_id. apply forallb_forall. intros x Hx.
  destruct (String.eqb_spec x a); [subst; contradiction | reflexivity].
Qed.

End MergeFacts.

(** X4. [mergeElements] on existing elements that have string ids and
    incoming elements that also have a version never throws, draws nothing
    at random, and returns elements with pairwise different ids, whether or
    not the inputs repeat ids. *)
Theorem X4_merge_has_no_duplicate_ids :
  forall draw i existing incoming,
    Forall Elements.keyed existing ->
    Forall Elements.stored incoming ->
    exists merged,
      Elements.mergeElements draw i existing incoming = (Elements.Returned merged, i)
      /\ Elements.distinct_ids merged
      /\ NoDup (Elements.ids merged)
      /\ Forall Elements.keyed merged.
Proof.
  intros draw i existing incoming He Hi.
  destruct (MergeFacts.mergeElements_spec draw i existing incoming He Hi)
    as [merged [H1 [H2 [H3 [H4 _]]]]].
  exists merged. repeat split; try assumption.
  rewrite H3. apply MergeFacts.NoDup_firsts.
Qed.

(** X5. After [mergeElements], the element found under an id is the last
    one carrying it in the incoming list when there is one, whatever the
    two versions are, and otherwise the last one carrying it in the
    existing list. *)
Theorem X5_merge_incoming_replaces_existing :
  forall draw i existing incoming,
    Forall Elements.keyed existing ->
    Forall Elements.stored incoming ->
    exists merged,
      Elements.mergeElements draw i existing incoming = (Elements.Returned merged, i)
      /\ forall s,
           Elements.find_id s merged
           = match Elements.last_with s incoming with
             | Some el => Some el
             | None => Elements.last_with s existing
             end.
Proof.
  intros draw i existing incoming He Hi.
  destruct (MergeFacts.mergeElements_spec draw i existing incoming He Hi)
    as [merged [H1 [_ [_ [_ H5]]]]].
  exists merged. split; [exact H1 |].
  intros s. rewrite H5. apply MergeFacts.last_with_app.
Qed.

(** X6. [mergeElements] keeps the order of first appearance: the ids of
    the result are those of the existing list followed by the incoming
    one, each at its first occurrence, so that an updated element stays in
    place and a new one goes to the end. *)
Theorem X6_merge_keeps_first_positions :
  forall draw i existing incoming,
    Forall Elements.keyed existing ->
    Forall Elements.stored incoming ->
    exists merged,
      Elements.mergeElements draw i existing incoming = (Elements.Returned merged, i)
      /\ Elements.ids merged
         = Elements.firsts (Elements.ids existing ++ Elements.ids incoming)
      /\ (NoDup (Elements.ids existing) ->
          firstn (List.length existing) (Elements.ids merged) = Elements.ids existing).
Proof.
  intros draw i existing incoming He Hi.
  destruct (MergeFacts.mergeElements_spec draw i existing incoming He Hi)
    as [merged [H1 [_ [H3 _]]]].
  exists merged. split; [exact H1 |].
  unfold Elements.ids in *. rewrite map_app in H3. split; [exact H3 |].
  intros Hn. rewrite H3.
  destruct (MergeFacts.firsts_prefix _ (map Elements.string_id incoming) Hn)
    as [more Hm].
  rewrite Hm, <- (length_map Elements.string_id existing), firstn_app, Nat.sub_diag,
    firstn_all.
  simpl. apply app_nil_r.
Qed.

Ltac keyed_sample :=
  repeat constructor;
  match goal with
  | |- Elements.keyed _ => eexists; eexists; split; reflexivity
  | |- Elements.stored _ => eexists; eexists; repeat split; reflexivity
  end.

Lemma X4_merge_witness :
  exists merged,
    Elements.mergeElements sample_draw 0
      [stored_element "a" 1; stored_element "b" 1; stored_element "a" 5]
      [stored_element "b" 9]
    = (Elements.Returned merged, 0%N)
    /\ NoDup (Elements.ids merged).
Proof.
  destruct (X4_merge_has_no_duplicate_ids sample_draw 0%N
              [stored_element "a" 1; stored_element "b" 1; stored_element "a" 5]
              [stored_element "b" 9])
    as [merged [H1 [_ [H3 _]]]]; [keyed_sample | keyed_sample |].
  exists merged. split; assumption.
Defined.

Lemma X5_merge_witness :
  exists merged,
    Elements.mergeElements sample_draw 0
      [stored_element "a" 1; stored_element "b" 7] [stored_element "b" 2]
    = (Elements.Returned merged, 0%N)
    /\ Elements.find_id "b" merged = Some (stored_element "b" 2)
    /\ Elements.find_id "a" merged = Some (stored_element "a" 1).
Proof.
  destruct (X5_merge_incoming_replaces_existing sample_draw 0%N
              [stored_element "a" 1; stored_element "b" 7] [stored_element "b" 2])
    as [merged [H1 H2]]; [keyed_sample | keyed_sample |].
  exists merged. split; [exact H1 |]. split; [exact (H2 "b") | exact (H2 "a")].
Defined.

Lemma X6_merge_witness :
  exists merged,
    Elements.mergeElements sample_draw 0
      [stored_element "a" 1; stored_element "b" 7]
      [stored_element "c" 1; stored_element "a" 2]
    = (Elements.Returned merged, 0%N)
    /\ Elements.ids merged = ["a"; "b"; "c"].
Proof.
  destruct (X6_merge_keeps_first_positions sample_draw 0%N
              [stored_element "a" 1; stored_element "b" 7]
              [stored_element "c" 1; stored_element "a" 2])
    as [merged [H1 [H2 _]]]; [keyed_sample | keyed_sample |].
  exists merged. split; [exact H1 | exact H2].
Defined.

(** X7. [mergeElements] is idempotent: merging the same incoming elements
    into its own result returns that result; and merging nothing into
    elements whose ids are pairwise different returns them as they are. *)
Theorem X7_merge_idempotent :
  forall draw i existing incoming,
    Forall Elements.keyed existing ->
    Forall Elements.stored incoming ->
    (exists merged,
        Elements.mergeElements draw i existing incoming = (Elements.Returned merged, i)
        /\ Elements.mergeElements draw i merged incoming = (Elements.Returned merged, i))
    /\ (NoDup (Elements.ids existing) ->
        Elements.mergeElements draw i existing [] = (Elements.Returned existing, i)).
Proof.
  intros draw i existing incoming He Hi.
  destruct (MergeFacts.mergeElements_spec draw i existing incoming He Hi)
    as [merged [H1 [_ [H3 [H4 H5]]]]].
  assert (Hn : NoDup (Elements.ids merged))
    by (rewrite H3; apply MergeFacts.NoDup_firsts).
  split.
  - exists merged. split; [exact H1 |].
    destruct (MergeFacts.mergeElements_spec draw i merged incoming H4 Hi)
      as [again [G1 [_ [G3 [G4 G5]]]]].
    rewrite G1. f_equal. f_equal.
    assert (Ea : Elements.ids again = Elements.ids merged).
    { rewrite G3. unfold Elements.ids. rewrite map_app.
      apply MergeFacts.firsts_absorb; [exact Hn |].
      intros x Hx. fold (Elements.ids merged). rewrite H3.
      apply MergeFacts.In_firsts. unfold Elements.ids. rewrite map_app.
      apply in_or_app. right. exact Hx. }
    apply MergeFacts.same_elements; try assumption.
    + rewrite Ea. exact Hn.
    + intros s. rewrite G5, H5, !MergeFacts.last_with_app.
      destruct (Elements.last_with s incoming) eqn:L; [reflexivity |].
      rewrite (MergeFacts.last_is_find s merged H4 Hn), H5.
      rewrite MergeFacts.last_with_app, L. reflexivity.
  - intros Hd.
    destruct (MergeFacts.mergeElements_spec draw i existing [] He (Forall_nil _))
      as [same [S1 [_ [S3 [S4 S5]]]]].
    rewrite S1. f_equal. f_equal. rewrite app_nil_r in S3, S5.
    rewrite (MergeFacts.firsts_NoDup _ Hd) in S3.
    apply MergeFacts.same_elements; try assumption.
    + rewrite S3. exact Hd.
    + intros s. rewrite S5. apply MergeFacts.last_is_find; assumption.
Qed.

Lemma X7_merge_idempotent_witness :
  exists merged,
    Elements.mergeElements sample_draw 0
      [stored_element "a" 1; stored_element "b" 7] [stored_element "b" 2]
    = (Elements.Returned merged, 0%N)
    /\ Elements.mergeElements sample_draw 0 merged [stored_element "b" 2]
       = (Elements.Returned merged, 0%N).
Proof.
  apply (X7_merge_idempotent sample_draw 0%N
           [stored_element "a" 1; stored_element "b" 7] [stored_element "b" 2]);
    keyed_sample.
Defined.

Module AddFacts.
Import Elements.

Lemma normalizeAll_typed (draw : N -> entropy) (els : list value) :
  forall i, forallb CliElements.typed els = true ->
            exists os, normalizeAll draw i els
                       = (Returned os, (i + N.of_nat (List.length els))%N)
                       /\ List.length os = List.length els.
Proof.
  induction els as [| el els IH]; intros i H.
  - exists []. simpl. rewrite N.add_0_r. auto.
  - simpl in H. apply andb_true_iff in H as [Hel Hels].
    destruct (NormalizeFacts.normalize_typed draw i el Hel) as [o Ho].
    destruct (IH (i + 1)%N Hels) as [os [Hos Hlen]].
    exists (o :: os). cbn [normalizeAll]. rewrite Ho, Hos. split.
    + f_equal. cbn [List.length]. lia.
    + simpl. rewrite Hlen. reflexivity.
Qed.

Lemma normalizeAll_untyped (draw : N -> entropy) (els : list value) :
  forall i, forallb CliElements.typed els = false ->
            exists j, normalizeAll draw i els = (Threw no_type, j).
Proof.
  induction els as [| el els IH]; intros i H; [discriminate H |].
  simpl in H. cbn [normalizeAll].
  destruct (CliElements.typed el) eqn:Hel.
  - destruct (NormalizeFacts.normalize_typed draw i el Hel) as [o Ho].
    destruct (IH (i + 1)%N H) as [j Hj]. exists j. rewrite Ho, Hj. reflexivity.
  - exists i. rewrite (NormalizeFacts.normalize_untyped draw i el Hel). reflexivity.
Qed.

(** The normalised elements, one by one: the [n]th is [normalize] of the
    [n]th new element, with the index counter [n] further. *)
Lemma normalizeAll_each (draw : N -> entropy) (els : list value) :
  forall i os j,
    normalizeAll draw i els = (Returned os, j) ->
    forall n el, nth_error els n = Some el ->
                 exists r, nth_error os n = Some r
                           /\ normalize draw (i + N.of_nat n) el
                              = (Returned r, (i + N.of_nat n + 1)%N).
Proof.
  induction els as [| e els IH]; intros i os j H n el Hn.
  - destruct n; discriminate Hn.
  - cbn [normalizeAll] in H.
    destruct (normalize draw i e) as [[o | m] i1] eqn:He; [| discriminate H].
    destruct (normalizeAll draw i1 els) as [[os' | m] i2] eqn:Hr; [| discriminate H].
    injection H as <- <-.
    assert (Hi : i1 = (i + 1)%N).
    { unfold normalize in He. destruct e as [| | | | | p]; try discriminate He.
      destruct (get "type" p) as [type |]; [| discriminate He].
      destruct (truthy type); [| discriminate He].
      injection He as _ <-. reflexivity. }
    subst i1. destruct n as [| n].
    + injection Hn as <-. exists o. split; [reflexivity |].
      cbn [N.of_nat]. rewrite N.add_0_r. exact He.
    + destruct (IH _ _ _ Hr n el Hn) as [r [R1 R2]].
      exists r. split; [exact R1 |].
      replace (i + N.of_nat (S n))%N with (i + 1 + N.of_nat n)%N by lia.
      exact R2.
Qed.

(** Without a [version] of its own, a normalised element has version 1. *)
Lemma default_version (e : entropy) (i : N) (type : value) (p : object) :
  get "version" (spread (baseElement e i []) (typeDefaults type p))
  = Some (integer 1).
Proof.
  unfold typeDefaults.
  destruct (is_string type "text"), (is_string type "rectangle"),
    (is_string type "arrow"); try reflexivity;
    destruct (get "text" p) as [t |]; try reflexivity;
    destruct (truthy t); reflexivity.
Qed.

End AddFacts.

(** X8. [addElements] is all or nothing.  If one of the new elements is
    not an object with a truthy [type], it throws the missing-type error
    and no canvas is produced.  Otherwise the canvas it hands to
    [writeCanvas] has the existing elements followed by one element per new
    one, its other properties unchanged, and the index counter has
    advanced by the number of new elements; the [n]th added element is
    what [normalize] returns for the [n]th new one at the counter [n]
    further: every base property is defined in it, and it keeps every
    property of the new element. *)
Theorem X8_add_is_all_or_nothing :
  forall draw i canvas existing newElements,
    CliElements.elements_or_empty canvas = Some existing ->
    (forallb CliElements.typed (CliElements.as_array newElements) = false ->
     exists j, CliElements.addElements draw i canvas existing newElements
               = (Elements.Threw Elements.no_type, j))
    /\ (forallb CliElements.typed (CliElements.as_array newElements) = true ->
        exists written normalized,
          CliElements.addElements draw i canvas existing newElements
          = (Elements.Returned (written, normalized),
             (i + N.of_nat (List.length (CliElements.as_array newElements)))%N)
          /\ Elements.get "elements" written
             = Some (Elements.VArr (existing ++ map Elements.VObj normalized))
          /\ (forall k, k <> "elements" ->
                        Elements.get k written = Elements.get k canvas)
          /\ List.length normalized = List.length (CliElements.as_array newElements)
          /\ forall n el,
               nth_error (CliElements.as_array newElements) n = Some el ->
               exists p r,
                 el = Elements.VObj p
                 /\ nth_error normalized n = Some r
                 /\ Elements.normalize draw (i + N.of_nat n) el
                    = (Elements.Returned r, (i + N.of_nat n + 1)%N)
                 /\ (forall k, In k Elements.base_keys -> Elements.get k r <> None)
                 /\ (NoDup (Elements.keys p) ->
                     forall k v, Elements.get k p = Some v ->
                                 Elements.get k r = Some v)).
Proof.
  intros draw i canvas existing newElements _. unfold CliElements.addElements. split.
  - intros H. destruct (AddFacts.normalizeAll_untyped draw _ i H) as [j Hj].
    exists j. rewrite Hj. reflexivity.
  - intros H. destruct (AddFacts.normalizeAll_typed draw _ i H) as [os [Hos Hlen]].
    eexists. exists os. rewrite Hos.
    split; [reflexivity |].
    split; [apply ObjectFacts.get_set_same |].
    split; [intros k Hk; apply ObjectFacts.get_set_other; congruence |].
    split; [exact Hlen |].
    intros n el Hn.
    destruct (AddFacts.normalizeAll_each draw _ i os _ Hos n el Hn) as [r [R1 R2]].
    assert (Ht : CliElements.typed el = true).
    { rewrite forallb_forall in H. apply H. eapply nth_error_In, Hn. }
    unfold CliElements.typed in Ht.
    destruct el as [| | | | | p]; try discriminate Ht.
    destruct (Elements.get "type" p) as [type |] eqn:Hty; [| discriminate Ht].
    exists p, r. split; [reflexivity |]. split; [exact R1 |]. split; [exact R2 |].
    rewrite (NormalizeFacts.normalize_returns draw _ p type Hty Ht) in R2.
    injection R2 as <-. split.
    + intros k Hin. apply ObjectFacts.get_spread_base, ObjectFacts.get_spread_base.
      intros G. apply ObjectFacts.get_None in G. apply G.
      rewrite NormalizeFacts.keys_baseElement. exact Hin.
    + intros Hp k v Hk. rewrite (ObjectFacts.get_spread k p Hp), Hk. reflexivity.
Qed.

Lemma X8_add_witness :
  (exists j,
     CliElements.addElements sample_draw 0 empty_canvas []
       (Elements.VArr [Elements.VObj partial_text;
                       Elements.VObj [("id", Elements.VStr "existing-id");
                                      ("x", Elements.integer 200)]])
     = (Elements.Threw Elements.no_type, j))
  /\ exists written normalized r,
       CliElements.addElements sample_draw 7 canvas_ab
         [stored_element "a" 4; stored_element "b" 1]
         (Elements.VArr [Elements.VObj partial_text; Elements.VObj partial_a])
       = (Elements.Returned (written, normalized), 9%N)
       /\ Elements.get "elements" written
          = Some (Elements.VArr ([stored_element "a" 4; stored_element "b" 1]
                                 ++ map Elements.VObj normalized))
       /\ nth_error normalized 1 = Some r
       /\ Elements.normalize sample_draw 8 (Elements.VObj partial_a)
          = (Elements.Returned r, 9%N)
       /\ Elements.get "version" r <> None
       /\ Elements.get "x" r = Some (Elements.integer 200).
Proof.
  split.
  - apply (proj1 (X8_add_is_all_or_nothing sample_draw 0%N empty_canvas []
                    (Elements.VArr [Elements.VObj partial_text;
                                    Elements.VObj [("id", Elements.VStr "existing-id");
                                                   ("x", Elements.integer 200)]])
                    eq_refl)).
    reflexivity.
  - destruct (proj2 (X8_add_is_all_or_nothing sample_draw 7%N canvas_ab
                       [stored_element "a" 4; stored_element "b" 1]
                       (Elements.VArr [Elements.VObj partial_text;
                                       Elements.VObj partial_a])
                       eq_refl) eq_refl)
      as [written [normalized [H1 [H2 [_ [_ H5]]]]]].
    destruct (H5 1%nat (Elements.VObj partial_a) eq_refl)
      as [p [r [Hp [R1 [R2 [R3 R4]]]]]].
    injection Hp as <-.
    exists written, normalized, r.
    split; [exact H1 |]. split; [exact H2 |]. split; [exact R1 |].
    split; [exact R2 |]. split.
    + apply R3. unfold Elements.base_keys. simpl. tauto.
    + apply R4; [| reflexivity].
      repeat constructor; simpl; intuition discriminate.
Defined.

(** X9. The [merge] command replaces whole elements.  For a new element
    with a truthy [type], a string [id] and no null [version], the element
    stored under that id afterwards is the normalised new element alone:
    no property of the element it replaces survives, and every other id
    keeps the element it had. *)
Theorem X9_merge_command_replaces_whole_elements :
  forall draw i canvas existing p type s,
    CliElements.elements_or_empty canvas = Some existing ->
    Forall Elements.keyed existing ->
    NoDup (Elements.keys p) ->
    Elements.get "type" p = Some type ->
    Elements.truthy type = true ->
    Elements.get "id" p = Some (Elements.VStr s) ->
    Elements.get "version" p <> Some Elements.VNull ->
    exists r merged,
      Elements.normalize draw i (Elements.VObj p) = (Elements.Returned r, (i + 1)%N)
      /\ CliElements.mergeIncoming draw i canvas existing (Elements.VObj p)
         = (Elements.Returned
              (Elements.set "elements" (Elements.VArr merged) canvas, [r]),
            (i + 1)%N)
      /\ Elements.find_id s merged = Some (Elements.VObj r)
      /\ (forall s', s' <> s ->
                     Elements.find_id s' merged = Elements.last_with s' existing).
Proof.
  intros draw i canvas existing p type s _ He Hp Ht Hy Hid Hv.
  pose proof (NormalizeFacts.normalize_returns draw i p type Ht Hy) as Hr.
  set (r := Elements.spread
              (Elements.spread (Elements.baseElement (draw i) i [])
                 (Elements.typeDefaults type p)) p) in *.
  assert (Rid : Elements.get "id" r = Some (Elements.VStr s)).
  { unfold r. rewrite (ObjectFacts.get_spread "id" p Hp), Hid. reflexivity. }
  assert (Rv : Elements.has_version (Elements.get "version" r) = true).
  { unfold r. rewrite (ObjectFacts.get_spread "version" p Hp).
    destruct (Elements.get "version" p) as [[| | | | |] |] eqn:E;
      try reflexivity; [congruence |].
    rewrite AddFacts.default_version. reflexivity. }
  assert (Hs : Forall Elements.stored [Elements.VObj r]).
  { constructor; [| constructor]. exists r, s. auto. }
  destruct (MergeFacts.mergeElements_spec draw (i + 1)%N existing
              [Elements.VObj r] He Hs) as [merged [M1 [_ [_ [_ M2]]]]].
  exists r, merged. split; [exact Hr |]. split; [| split].
  - unfold CliElements.mergeIncoming. cbn [CliElements.as_array Elements.normalizeAll].
    rewrite Hr. cbn [map]. rewrite M1. reflexivity.
  - rewrite M2, MergeFacts.last_with_app.
    cbn [Elements.last_with Elements.id_of]. rewrite Rid.
    cbn [Elements.same_key]. rewrite String.eqb_refl. reflexivity.
  - intros s' Hne. rewrite M2, MergeFacts.last_with_app.
    cbn [Elements.last_with Elements.id_of]. rewrite Rid.
    cbn [Elements.same_key].
    destruct (String.eqb_spec s s'); [congruence | reflexivity].
Qed.

Lemma X9_merge_command_witness :
  exists r merged,
    Elements.normalize sample_draw 0 (Elements.VObj partial_a)
    = (Elements.Returned r, 1%N)
    /\ CliElements.mergeIncoming sample_draw 0 canvas_ab
         [stored_element "a" 4; stored_element "b" 1] (Elements.VObj partial_a)
       = (Elements.Returned
            (Elements.set "elements" (Elements.VArr merged) canvas_ab, [r]), 1%N)
    /\ Elements.find_id "a" merged = Some (Elements.VObj r).
Proof.
  destruct (X9_merge_command_replaces_whole_elements sample_draw 0%N canvas_ab
              [stored_element "a" 4; stored_element "b" 1] partial_a
              (Elements.VStr "rectangle") "a")
    as [r [merged [H1 [H2 [H3 _]]]]];
    [reflexivity | keyed_sample | repeat constructor; simpl; intuition discriminate
     | reflexivity | reflexivity | reflexivity | discriminate |].
  exists r, merged. repeat split; assumption.
Defined.


(** * The command line ([cli/index.js]) *)

Module ArgsFacts.
Import CliArgs.

Lemma subsequence_nil (big : list string) : subsequence [] big.
Proof. induction big as [| b big IH]; simpl; auto. Qed.

Lemma flags_get_set (name name' : string) (v : flag_value) (flags : flag_map) :
  flags_get name' (flags_set name v flags)
  = if (name =? name')%string then Some v else flags_get name' flags.
Proof.
  induction flags as [| [n x] flags IH]; simpl.
  - reflexivity.
  - destruct (String.eqb_spec n name) as [-> | Hne]; simpl.
    + destruct (name =? name')%string; reflexivity.
    + rewrite IH. destruct (String.eqb_spec n name') as [-> | _]; [| reflexivity].
      destruct (String.eqb_spec name name'); [congruence | reflexivity].
Qed.

Lemma useFile_set (name : string) (v : flag_value) (flags : flag_map) :
  useFile (flags_set name v flags) = (name =? "--file")%string || useFile flags.
Proof.
  unfold useFile. rewrite flags_get_set.
  destruct (name =? "--file")%string; reflexivity.
Qed.

(** The positional arguments grow by tokens of the input, in order, none
    of them dashed. *)
Lemma parse_keeps (n : nat) :
  forall rawArgs, (List.length rawArgs <= n)%nat ->
  forall flags args,
  exists kept,
    snd (parse rawArgs flags args) = args ++ kept
    /\ subsequence kept rawArgs
    /\ forallb (fun a => negb (dashed a)) kept = true.
Proof.
  induction n as [| n IH]; intros rawArgs Hlen flags args.
  - destruct rawArgs; [| simpl in Hlen; lia].
    exists []. rewrite app_nil_r. simpl. auto.
  - destruct rawArgs as [| a rest].
    { exists []. rewrite app_nil_r. simpl. auto. }
    simpl in Hlen. cbn [parse].
    destruct (is_flag a) eqn:Fa.
    + destruct (VALUED_FLAGS a).
      * destruct rest as [| v rest'].
        { exists []. rewrite app_nil_r. simpl. auto. }
        simpl in Hlen.
        destruct (IH rest' ltac:(lia)
                    (flags_set a (if (v =? "")%string then flag_null else flag_text v) flags)
                    args) as [kept [K1 [K2 K3]]].
        exists kept. split; [exact K1 |]. split; [| exact K3].
        simpl. left. left. exact K2.
      * destruct (IH rest ltac:(lia) (flags_set a flag_true flags) args)
          as [kept [K1 [K2 K3]]].
        exists kept. split; [exact K1 |]. split; [| exact K3]. simpl. left. exact K2.
    + destruct (a =? "-f")%string eqn:Ff.
      * destruct (IH rest ltac:(lia) (flags_set "--file" flag_true flags) args)
          as [kept [K1 [K2 K3]]].
        exists kept. split; [exact K1 |]. split; [| exact K3]. simpl. left. exact K2.
      * destruct (IH rest ltac:(lia) flags (args ++ [a])) as [kept [K1 [K2 K3]]].
        exists (a :: kept). split; [rewrite K1, <- app_assoc; reflexivity |].
        split; [simpl; right; auto |].
        cbn [forallb]. rewrite K3. unfold dashed. rewrite Fa, Ff. reflexivity.
Qed.

Lemma parse_plain (rawArgs : list string) :
  forallb (fun a => negb (VALUED_FLAGS a)) rawArgs = true ->
  forall flags args,
    snd (parse rawArgs flags args)
    = args ++ filter (fun a => negb (dashed a)) rawArgs
    /\ useFile (fst (parse rawArgs flags args))
       = useFile flags
         || existsb (fun a => (a =? "--file")%string || (a =? "-f")%string) rawArgs.
Proof.
  induction rawArgs as [| a rest IH]; intros H flags args.
  - simpl. rewrite app_nil_r, orb_false_r. auto.
  - simpl in H. apply andb_true_iff in H as [Ha Hrest]. apply negb_true_iff in Ha.
    cbn [parse filter existsb]. unfold dashed. rewrite Ha.
    destruct (is_flag a) eqn:Fa; cbn [orb negb].
    + destruct (IH Hrest (flags_set a flag_true flags) args) as [I1 I2].
      rewrite I1, I2, useFile_set. split; [reflexivity |].
      assert (Hf : (a =? "-f")%string = false).
      { destruct (String.eqb_spec a "-f") as [-> | _]; [discriminate Fa | reflexivity]. }
      rewrite Hf, orb_false_r.
      destruct (a =? "--file")%string, (useFile flags); reflexivity.
    + assert (Hf : (a =? "--file")%string = false).
      { destruct (String.eqb_spec a "--file") as [-> | _]; [discriminate Fa | reflexivity]. }
      rewrite Hf. cbn [orb].
      destruct (a =? "-f")%string eqn:Ff; cbn [negb].
      * destruct (IH Hrest (flags_set "--file" flag_true flags) args) as [I1 I2].
        rewrite I1, I2, useFile_set. split; [reflexivity |].
        simpl. rewrite orb_true_r. reflexivity.
      * destruct (IH Hrest flags (args ++ [a])) as [I1 I2].
        rewrite I1, I2, <- app_assoc. split; reflexivity.
Qed.

End ArgsFacts.

(** X10. The positional arguments the CLI keeps are tokens of the command
    line in their order, and none of them starts with [--] or is [-f]:
    such a token is always taken as a flag, wherever it stands. *)
Theorem X10_positional_arguments_are_undashed :
  forall rawArgs,
    CliArgs.subsequence (snd (CliArgs.parse rawArgs [] [])) rawArgs
    /\ forallb (fun a => negb (CliArgs.dashed a)) (snd (CliArgs.parse rawArgs [] []))
       = true.
Proof.
  intros rawArgs.
  destruct (ArgsFacts.parse_keeps (List.length rawArgs) rawArgs (le_n _) [] [])
    as [kept [K1 [K2 K3]]].
  simpl in K1. rewrite K1. split; assumption.
Qed.

(** X11. On a command line without [--size] and [--color], the positional
    arguments are exactly the tokens that neither start with [--] nor are
    [-f], and file mode is on exactly when [--file] or [-f] occurs. *)
Theorem X11_arguments_without_valued_flags :
  forall rawArgs,
    forallb (fun a => negb (CliArgs.VALUED_FLAGS a)) rawArgs = true ->
    snd (CliArgs.parse rawArgs [] [])
    = filter (fun a => negb (CliArgs.dashed a)) rawArgs
    /\ CliArgs.useFile (fst (CliArgs.parse rawArgs [] []))
       = existsb (fun a => (a =? "--file")%string || (a =? "-f")%string) rawArgs.
Proof.
  intros rawArgs H. exact (ArgsFacts.parse_plain rawArgs H [] []).
Qed.

Lemma X11_arguments_witness :
  snd (CliArgs.parse ["r1"; "-f"; "{}"; "--verbose"] [] []) = ["r1"; "{}"]
  /\ CliArgs.useFile (fst (CliArgs.parse ["r1"; "-f"; "{}"; "--verbose"] [] [])) = true.
Proof.
  exact (X11_arguments_without_valued_flags ["r1"; "-f"; "{}"; "--verbose"] eq_refl).
Defined.

Module CommandFacts.
Import Cli.

Lemma delete_loop_map (ids : list string) (now : Z) (els : list element) :
  delete_loop ids now els
  = (map (CliView.mark ids now) els, Z.of_nat (List.length (filter (has ids) els))).
Proof.
  induction els as [| el els IH]; [reflexivity |].
  cbn [delete_loop map filter]. rewrite IH.
  unfold CliView.mark.
  destruct (has ids el) eqn:H; [| reflexivity].
  cbn [List.length]. f_equal. lia.
Qed.

Lemma active_mark (ids : list string) (now : Z) (els : list element) :
  App.active (map (CliView.mark ids now) els)
  = filter (fun el => negb (has ids el)) (App.active els).
Proof.
  unfold App.active. induction els as [| el els IH]; [reflexivity |].
  cbn [map filter]. unfold CliView.mark in *.
  destruct (has ids el) eqn:H; cbn [isDeleted deleted_element negb].
  - rewrite IH. destruct (isDeleted el); cbn [negb filter]; rewrite ?H; reflexivity.
  - destruct (isDeleted el); cbn [negb filter]; rewrite ?H, IH; reflexivity.
Qed.

Lemma filter_shorter {A : Type} (p : A -> bool) (l : list A) (x : A) :
  In x l -> p x = false -> (List.length (filter p l) < List.length l)%nat.
Proof.
  induction l as [| a l IH]; intros Hin Hp; [destruct Hin |].
  simpl. pose proof (filter_length_le p l) as Hle.
  destruct Hin as [-> | Hin].
  - rewrite Hp. lia.
  - specialize (IH Hin Hp). destruct (p a); simpl; lia.
Qed.

(** [idsToDelete.has(el.id)] is membership of the id among the arguments. *)
Lemma has_listed (ids : list string) (el : element) :
  has ids el = if in_dec string_dec (id el) ids then true else false.
Proof.
  unfold has. destruct (in_dec string_dec (id el) ids) as [Hin | Hn].
  - apply existsb_exists. exists (id el). split; [exact Hin | apply String.eqb_refl].
  - destruct (existsb _ ids) eqn:E; [| reflexivity].
    apply existsb_exists in E as [i [Hi Heq]].
    apply String.eqb_eq in Heq. subst i. contradiction.
Qed.

(** The element [delete] leaves in place of a listed one. *)
Lemma deleted_element_exact (el : element) (now : Z) :
  Z.abs (App.written el) + 1 < 2 ^ 53 ->
  deleted_element el now
  = {| id := id el; type := type el; version := Some (App.written el + 1);
       versionNonce := versionNonce el; isDeleted := true; updated := now;
       props := props el |}.
Proof.
  intros H. unfold deleted_element. rewrite (AppFacts.raised_version el H).
  reflexivity.
Qed.

(** The first element with the target id is the one [findIndex] finds and
    the assignment replaces. *)
Lemma findIndex_split (before after : list element) (el : element) :
  (forall x, In x before -> id x <> id el) ->
  exists idx,
    findIndex (fun x => (id x =? id el)%string) (before ++ el :: after) = Some idx
    /\ nth_error (before ++ el :: after) idx = Some el
    /\ forall y, assign idx y (before ++ el :: after) = before ++ y :: after.
Proof.
  induction before as [| a before IH]; intros U.
  - exists O. simpl. rewrite String.eqb_refl. repeat split.
  - destruct IH as [idx [F [N A]]].
    { intros x Hx. apply U. right. exact Hx. }
    exists (S idx). rewrite <- app_comm_cons. cbn [findIndex].
    destruct (String.eqb_spec (id a) (id el)) as [E | _].
    { exfalso. exact (U a (or_introl eq_refl) E). }
    rewrite F. repeat split; [exact N |].
    intros y. cbn [assign]. rewrite A. reflexivity.
Qed.

(** [{...el, ...updates}] on the free-form properties, read by name. *)
Lemma lookup_overridden (k : string) (b l rest : list (string * string)) :
  lookup k (map (fun kv => (fst kv, match lookup (fst kv) b with
                                    | Some v => v
                                    | None => snd kv
                                    end)) l ++ rest)
  = match lookup k l with
    | Some va => Some match lookup k b with Some v => v | None => va end
    | None => lookup k rest
    end.
Proof.
  induction l as [| [k' v'] l IH]; [reflexivity |].
  simpl. destruct (String.eqb_spec k' k) as [-> | _]; [reflexivity | apply IH].
Qed.

Lemma lookup_added (k : string) (a b : list (string * string)) :
  lookup k a = None ->
  lookup k (filter (fun kv => match lookup (fst kv) a with
                              | Some _ => false
                              | None => true
                              end) b)
  = lookup k b.
Proof.
  intros Ha. induction b as [| [k' v'] b IH]; [reflexivity |].
  simpl. destruct (String.eqb_spec k' k) as [-> | Hne].
  - rewrite Ha. simpl. rewrite String.eqb_refl. reflexivity.
  - destruct (lookup k' a); [exact IH |].
    simpl. destruct (String.eqb_spec k' k); [contradiction | exact IH].
Qed.

Lemma lookup_spread (k : string) (a b : list (string * string)) :
  lookup k (spread a b)
  = match lookup k b with
    | Some v => Some v
    | None => lookup k a
    end.
Proof.
  unfold spread. rewrite lookup_overridden.
  destruct (lookup k a) as [va |] eqn:Ha.
  - destruct (lookup k b); reflexivity.
  - rewrite (lookup_added k a b Ha). destruct (lookup k b); reflexivity.
Qed.

End CommandFacts.

(** X12. [delete] with at least one identifier writes the document it
    read with every element whose id is listed marked as deleted, its
    version raised by one (while that is below [2^53]) and its time stamp
    set to the clock, all its other properties and all other elements,
    and the rest of the document, as they were; it writes through the
    server when that answers and into the file otherwise, and reports the
    number of elements whose id is listed, those already deleted
    included.  The elements still visible are the ones that were visible
    and not listed. *)
Theorem X12_delete_marks_the_listed_elements :
  forall e canvas els ids now,
    ids <> [] ->
    Cli.readCanvas e = inl canvas ->
    Scene.elements canvas = Some els ->
    (forall el, In el els -> In (id el) ids ->
                Z.abs (match version el with Some v => v | None => 0 end) + 1
                < 2 ^ 53) ->
    let listed := fun el : element =>
                    if in_dec string_dec (id el) ids then true else false in
    let els' :=
      map (fun el =>
             if listed el
             then {| id := id el; type := type el;
                     version := Some (match version el with
                                      | Some v => v
                                      | None => 0
                                      end + 1);
                     versionNonce := versionNonce el;
                     isDeleted := true;
                     updated := now;
                     props := props el |}
             else el) els in
    let written :=
      {| Scene.type := Scene.type canvas; Scene.version := Scene.version canvas;
         Scene.elements := Some els';
         Scene.appState := Scene.appState canvas;
         Scene.files := Scene.files canvas |} in
    Cli.delete ids now e
    = (if negb (Cli.useFile e) && Cli.server_put e
       then [Cli.PUT written; Cli.console_log "Canvas updated (synced to browser)"]
       else [Cli.writeFileSync written;
             Cli.console_log ("Written to " ++ Cli.CANVAS_FILE e)%string])
      ++ [Cli.console_log
            ("Deleted "
             ++ Js.decimal (Z.of_nat (List.length (filter listed els)))
             ++ " element(s)")%string]
    /\ filter (fun el => negb (isDeleted el)) els'
       = filter (fun el => negb (listed el))
           (filter (fun el => negb (isDeleted el)) els).
Proof.
  intros e canvas els ids now Hne R E B listed els' written.
  assert (M : map (CliView.mark ids now) els = els').
  { subst els'. apply map_ext_in. intros el Hin. unfold CliView.mark.
    rewrite CommandFacts.has_listed. subst listed. cbv beta.
    destruct (in_dec string_dec (id el) ids) as [Hl | _]; [| reflexivity].
    apply CommandFacts.deleted_element_exact, B; assumption. }
  assert (F : forall l, filter (Cli.has ids) l = filter listed l).
  { intros l. apply filter_ext. intros el. apply CommandFacts.has_listed. }
  split.
  - unfold Cli.delete. destruct ids as [| i ids]; [contradiction |].
    rewrite R, E, CommandFacts.delete_loop_map, M, F. reflexivity.
  - rewrite <- M. fold (App.active (map (CliView.mark ids now) els)).
    rewrite CommandFacts.active_mark. apply filter_ext. intros el.
    rewrite CommandFacts.has_listed. reflexivity.
Qed.

Lemma X12_delete_witness :
  Cli.delete ["r1"] 5
    (file_mode (scene_of (Some [rectangle (Some 1) true; rectangle None false])))
  = [Cli.writeFileSync
       {| Scene.type := "excalidraw"; Scene.version := 2;
          Scene.elements :=
            Some [ {| id := "r1"; type := "rectangle"; version := Some 2;
                      versionNonce := 7; isDeleted := true; updated := 5;
                      props := [("backgroundColor", "#a5d8ff")] |};
                   {| id := "r1"; type := "rectangle"; version := Some 1;
                      versionNonce := 7; isDeleted := true; updated := 5;
                      props := [("backgroundColor", "#a5d8ff")] |} ];
          Scene.appState := {| viewBackgroundColor := Some "#ffffff" |};
          Scene.files := [] |};
     Cli.console_log "Written to canvas.excalidraw";
     Cli.console_log "Deleted 2 element(s)"].
Proof.
  refine (proj1 (X12_delete_marks_the_listed_elements
                   (file_mode (scene_of (Some [rectangle (Some 1) true;
                                               rectangle None false])))
                   (scene_of (Some [rectangle (Some 1) true; rectangle None false]))
                   [rectangle (Some 1) true; rectangle None false] ["r1"] 5
                   _ eq_refl eq_refl _)).
  - discriminate.
  - intros el [<- | [<- | []]] _; reflexivity.
Defined.

(** X13. When [delete] lists the id of at least one visible element, the
    fingerprint of the elements it writes differs from the fingerprint of
    the elements it read, so a browser that holds the old scene does not
    take the new one for an echo. *)
Theorem X13_delete_changes_the_fingerprint :
  forall ids now els el,
    In el els -> isDeleted el = false -> Cli.has ids el = true ->
    App.sceneFingerprint (Some (map (CliView.mark ids now) els))
    <> App.sceneFingerprint (Some els).
Proof.
  intros ids now els el Hin Hd Hh H.
  apply AppFacts.sceneFingerprint_count in H.
  unfold App.activeCount in H. rewrite CommandFacts.active_mark in H.
  assert (Ha : In el (App.active els)).
  { unfold App.active. apply filter_In. rewrite Hd. auto. }
  pose proof (CommandFacts.filter_shorter (fun x => negb (Cli.has ids x))
                (App.active els) el Ha) as L.
  cbv beta in L. rewrite Hh in L. specialize (L eq_refl). lia.
Qed.

Lemma X13_delete_fingerprint_witness :
  App.sceneFingerprint (Some (map (CliView.mark ["r1"] 5) [rectangle (Some 1) false]))
  <> App.sceneFingerprint (Some [rectangle (Some 1) false]).
Proof.
  apply (X13_delete_changes_the_fingerprint ["r1"] 5 [rectangle (Some 1) false]
           (rectangle (Some 1) false)); [left |  | ]; reflexivity.
Defined.

(** X14. [update] changes one element only: the document written is the
    one read with the first element that carries the target id replaced
    by that element overlaid with the given properties, its version
    raised by one (while that is below [2^53]), with the fresh nonce and
    the clock as time stamp; the elements before and after it and the
    rest of the document are as they were.  It is written through the
    server when that answers and into the file otherwise.  A property the
    update names has the update's value, any other the element's. *)
Theorem X14_update_changes_the_first_match_only :
  forall e canvas before el after rest u nonce now,
    id el <> "" ->
    Cli.readCanvas e = inl canvas ->
    Scene.elements canvas = Some (before ++ el :: after) ->
    (forall x, In x before -> id x <> id el) ->
    Z.abs (match version el with Some v => v | None => 0 end) + 1 < 2 ^ 53 ->
    let el' :=
      {| id := match Cli.set_id u with Some i => i | None => id el end;
         type := match Cli.set_type u with Some t => t | None => type el end;
         version := Some (match version el with Some v => v | None => 0 end + 1);
         versionNonce := nonce;
         isDeleted := match Cli.set_isDeleted u with
                      | Some d => d
                      | None => isDeleted el
                      end;
         updated := now;
         props := Cli.spread (props el) (Cli.set_props u) |} in
    let written :=
      {| Scene.type := Scene.type canvas; Scene.version := Scene.version canvas;
         Scene.elements := Some (before ++ el' :: after);
         Scene.appState := Scene.appState canvas;
         Scene.files := Scene.files canvas |} in
    Cli.update (id el :: rest) (Some u) nonce now e
    = (if negb (Cli.useFile e) && Cli.server_put e
       then [Cli.PUT written; Cli.console_log "Canvas updated (synced to browser)"]
       else [Cli.writeFileSync written;
             Cli.console_log ("Written to " ++ Cli.CANVAS_FILE e)%string])
      ++ [Cli.console_log ("Updated element '" ++ id el ++ "'")%string]
    /\ forall k, Cli.lookup k (props el')
                 = match Cli.lookup k (Cli.set_props u) with
                   | Some v => Some v
                   | None => Cli.lookup k (props el)
                   end.
Proof.
  intros e canvas before el after rest u nonce now Hne R E U B el' written.
  split; [| intros k; apply CommandFacts.lookup_spread].
  destruct (CommandFacts.findIndex_split before after el U) as [idx [F [N A]]].
  unfold Cli.update. destruct (id el) as [| c target] eqn:I; [contradiction |].
  rewrite R, E, F, N, A.
  assert (X : Cli.updated_element el u nonce now = el').
  { subst el'. unfold Cli.updated_element, Cli.or_else.
    rewrite (AppFacts.raised_version el B), I. reflexivity. }
  rewrite X. reflexivity.
Qed.

Lemma X14_update_witness :
  Cli.update ["r1"; "{}"]
    (Some {| Cli.set_id := None; Cli.set_type := None;
             Cli.set_isDeleted := None;
             Cli.set_props := [("x", "200"); ("backgroundColor", "#ffc9c9")] |})
    11 5
    (file_mode (scene_of (Some [rectangle (Some 1) false; rectangle (Some 8) false])))
  = [Cli.writeFileSync
       {| Scene.type := "excalidraw"; Scene.version := 2;
          Scene.elements :=
            Some [ {| id := "r1"; type := "rectangle"; version := Some 2;
                      versionNonce := 11; isDeleted := false; updated := 5;
                      props := [("backgroundColor", "#ffc9c9"); ("x", "200")] |};
                   {| id := "r1"; type := "rectangle"; version := Some 8;
                      versionNonce := 7; isDeleted := false; updated := 0;
                      props := [("backgroundColor", "#a5d8ff")] |} ];
          Scene.appState := {| viewBackgroundColor := Some "#ffffff" |};
          Scene.files := [] |};
     Cli.console_log "Written to canvas.excalidraw";
     Cli.console_log "Updated element 'r1'"].
Proof.
  refine (proj1 (X14_update_changes_the_first_match_only
                   (file_mode (scene_of (Some [rectangle (Some 1) false;
                                               rectangle (Some 8) false])))
                   (scene_of (Some [rectangle (Some 1) false; rectangle (Some 8) false]))
                   [] (rectangle (Some 1) false) [rectangle (Some 8) false] ["{}"]
                   {| Cli.set_id := None; Cli.set_type := None;
                      Cli.set_isDeleted := None;
                      Cli.set_props := [("x", "200"); ("backgroundColor", "#ffc9c9")] |}
                   11 5 _ eq_refl eq_refl _ eq_refl)).
  - discriminate.
  - intros x [].
Defined.

(** X15. An [update] that makes a visible element deleted, or a deleted
    one visible, changes the fingerprint of the document; an update of an
    element that is visible and stays visible changes it while the
    magnitudes of the versions of the visible elements add up to less than
    [2^53 - 1]; an update of an element that is deleted and stays deleted
    leaves the fingerprint as it was. *)
Theorem X15_update_and_the_fingerprint :
  forall before el after u nonce now,
    let el' := Cli.updated_element el u nonce now in
    (isDeleted el <> isDeleted el' ->
     App.sceneFingerprint (Some (before ++ el' :: after))
     <> App.sceneFingerprint (Some (before ++ el :: after)))
    /\ (isDeleted el = false -> isDeleted el' = false ->
        App.magnitude (before ++ el :: after) + 1 < 2 ^ 53 ->
        App.sceneFingerprint (Some (before ++ el' :: after))
        <> App.sceneFingerprint (Some (before ++ el :: after)))
    /\ (isDeleted el = true -> isDeleted el' = true ->
        App.sceneFingerprint (Some (before ++ el' :: after))
        = App.sceneFingerprint (Some (before ++ el :: after))).
Proof.
  intros before el after u nonce now el'. split; [| split].
  - intros Hv H. apply AppFacts.sceneFingerprint_count in H.
    rewrite !AppFacts.activeCount_app, !AppFacts.activeCount_cons in H.
    destruct (isDeleted el), (isDeleted el'); try congruence; lia.
  - intros Hd Hd' B. apply AppFacts.raised_changes_fingerprint; auto.
    unfold App.written at 1. subst el'. unfold Cli.updated_element. cbn [version].
    rewrite AppFacts.raised_version; [reflexivity |].
    rewrite AppFacts.magnitude_app, AppFacts.magnitude_cons, Hd in B.
    pose proof (AppFacts.magnitude_nonneg before).
    pose proof (AppFacts.magnitude_nonneg after).
    remember (2 ^ 53) as T. lia.
  - intros Hd Hd'. apply AppFacts.sceneFingerprint_deleted; assumption.
Qed.

Lemma X15_update_fingerprint_witness :
  App.sceneFingerprint
    (Some ([] ++ Cli.updated_element (rectangle (Some 1) false)
                   {| Cli.set_id := None; Cli.set_type := None;
                      Cli.set_isDeleted := None; Cli.set_props := [] |} 11 5
              :: []))
  <> App.sceneFingerprint (Some ([] ++ rectangle (Some 1) false :: [])).
Proof.
  apply (proj1 (proj2 (X15_update_and_the_fingerprint [] (rectangle (Some 1) false) []
                         {| Cli.set_id := None; Cli.set_type := None;
                            Cli.set_isDeleted := None; Cli.set_props := [] |} 11 5)));
    reflexivity.
Defined.

(** * The client between reports ([src/App.jsx]) *)

Module DebounceFacts.
Import App.

Lemma client_run_cons (c : client) (e : event) (t : list event) :
  run c (e :: t)
  = (fst (run (fst (step c e)) t), snd (step c e) ++ snd (run (fst (step c e)) t)).
Proof.
  simpl. destruct (step c e) as [c1 o1]. simpl.
  destruct (run c1 t) as [c2 o2]. reflexivity.
Qed.

Lemma onmessage_quiet (data : option Msg.t) (c : client) :
  timer (fst (onmessage data c)) = timer c
  /\ wsRef (fst (onmessage data c)) = wsRef c
  /\ filter AppView.is_ws_send (snd (onmessage data c)) = [].
Proof.
  unfold onmessage. destruct data as [msg |]; [| auto].
  destruct (Msg.type msg =? "scene-update")%string.
  - destruct (excalidrawAPI c) eqn:A.
    + destruct (Msg.data msg); [| auto]. simpl.
      destruct (Msg.type msg =? "export-request")%string; simpl; auto.
    + destruct (Msg.type msg =? "export-request")%string; [rewrite A |]; simpl; auto.
  - destruct (Msg.type msg =? "export-request")%string; [| simpl; auto].
    destruct (excalidrawAPI c); simpl; auto.
Qed.

(** With no call armed, an event that is not a change arms none and sends
    nothing on the socket. *)
Lemma step_quiet (c : client) (e : event) :
  timer c = None -> AppView.is_onChange e = false ->
  timer (fst (step c e)) = None
  /\ filter AppView.is_ws_send (snd (step c e)) = [].
Proof.
  intros T N. destruct e; try discriminate N; cbn [step].
  - destruct (excalidrawAPI c); simpl; auto.
  - destruct (wsRef c); simpl; auto.
  - destruct (wsRef c); simpl; [| auto].
    destruct (onmessage_quiet data c) as [Q [_ S]]. rewrite Q. auto.
  - destruct (wsRef c); simpl; auto.
  - simpl. auto.
  - destruct (reconnectTimer c); simpl; auto.
  - rewrite T. simpl. auto.
Qed.

Lemma run_quiet (t : list event) :
  forall c, timer c = None ->
            forallb (fun e => negb (AppView.is_onChange e)) t = true ->
            filter AppView.is_ws_send (snd (run c t)) = [].
Proof.
  induction t as [| e t IH]; intros c T N; [reflexivity |].
  simpl in N. apply andb_true_iff in N as [Ne Nt]. apply negb_true_iff in Ne.
  rewrite client_run_cons. cbn [snd]. rewrite filter_app.
  destruct (step_quiet c e T Ne) as [T1 S1]. rewrite S1. simpl.
  apply IH; assumption.
Qed.

(** An event that is neither a change nor the firing of the timer leaves
    the armed call as it is and sends nothing on the socket. *)
Lemma step_between (c : client) (e : event) :
  AppView.is_onChange e = false -> e <> debounce_fired ->
  timer (fst (step c e)) = timer c
  /\ filter AppView.is_ws_send (snd (step c e)) = [].
Proof.
  intros N F. destruct e; try discriminate N; try contradiction; cbn [step].
  - destruct (excalidrawAPI c); simpl; auto.
  - destruct (wsRef c); simpl; auto.
  - destruct (wsRef c); simpl; [| auto].
    destruct (onmessage_quiet data c) as [Q [_ S]]. rewrite Q. auto.
  - destruct (wsRef c); simpl; auto.
  - simpl. auto.
  - destruct (reconnectTimer c); simpl; auto.
Qed.

Lemma run_between (t : list event) :
  forall c, forallb (fun e => negb (AppView.is_onChange e)) t = true ->
            ~ In debounce_fired t ->
            timer (fst (run c t)) = timer c
            /\ filter AppView.is_ws_send (snd (run c t)) = [].
Proof.
  induction t as [| e t IH]; intros c N F; [simpl; auto |].
  simpl in N. apply andb_true_iff in N as [Ne Nt]. apply negb_true_iff in Ne.
  rewrite client_run_cons. cbn [fst snd]. rewrite filter_app.
  destruct (step_between c e Ne) as [T1 S1].
  { intros ->. apply F. left. reflexivity. }
  destruct (IH (fst (step c e)) Nt (fun H => F (or_intror H))) as [T2 S2].
  rewrite T2, T1, S1, S2. auto.
Qed.

Lemma run_app (t1 t2 : list event) :
  forall c, run c (t1 ++ t2)
            = (fst (run (fst (run c t1)) t2),
               snd (run c t1) ++ snd (run (fst (run c t1)) t2)).
Proof.
  induction t1 as [| e t1 IH]; intros c.
  - simpl. destruct (run c t2). reflexivity.
  - rewrite <- app_comm_cons, !client_run_cons, IH. cbn [fst snd].
    rewrite app_assoc. reflexivity.
Qed.

Lemma change_first (c : client) (a : list element * appstate * option attachments)
    (t : list event) :
  run c (AppView.change a :: t) = run (set_timer (Some a) c) t.
Proof.
  rewrite client_run_cons. destruct a as [[els st] fl]. cbn [AppView.change step fst snd].
  destruct (run (set_timer (Some (els, st, fl)) c) t). reflexivity.
Qed.

Lemma change_overwrites (c : client)
    (a b : list element * appstate * option attachments) (t : list event) :
  run (set_timer (Some a) c) (AppView.change b :: t) = run c (AppView.change b :: t).
Proof. rewrite !change_first. reflexivity. Qed.

Lemma burst_collapses (burst : list (list element * appstate * option attachments)) :
  forall c last t,
    run c (map AppView.change burst ++ AppView.change last :: t)
    = run c (AppView.change last :: t).
Proof.
  induction burst as [| a burst IH]; intros c last t; [reflexivity |].
  change (map AppView.change (a :: burst) ++ AppView.change last :: t)
    with (AppView.change a :: (map AppView.change burst ++ AppView.change last :: t)).
  rewrite change_first, IH. apply change_overwrites.
Qed.

End DebounceFacts.

(** X16. The debounce keeps the last call only: after any burst of changes,
    one firing of the timer reports the elements of the last change and
    nothing of the earlier ones, and a further firing does nothing. *)
Theorem X16_debounce_reports_the_last_change :
  forall c burst last,
    App.run c (map AppView.change burst
               ++ [AppView.change last; App.debounce_fired; App.debounce_fired])
    = App.run c [AppView.change last; App.debounce_fired].
Proof.
  intros c burst last.
  rewrite (DebounceFacts.burst_collapses burst c last).
  rewrite !DebounceFacts.client_run_cons. cbn [App.run fst snd].
  rewrite !app_nil_r. reflexivity.
Qed.

(** X17. The client sends on the socket only when a debounced change
    fires: from a state with no call armed, no run of events without a
    change sends anything, whatever messages arrive and however the socket
    opens, closes or reconnects. *)
Theorem X17_client_sends_only_after_a_change :
  forall c t,
    App.timer c = None ->
    forallb (fun e => negb (AppView.is_onChange e)) t = true ->
    filter AppView.is_ws_send (snd (App.run c t)) = [].
Proof.
  intros c t T N. apply DebounceFacts.run_quiet; assumption.
Qed.

Lemma X17_client_witness :
  filter AppView.is_ws_send
    (snd (App.run App.mount
            [App.api_ready; App.ws_onopen;
             App.ws_onmessage
               (Some (scene_update_of (scene_of (Some [rectangle (Some 1) false]))));
             App.debounce_fired; App.ws_onclose; App.reconnect_fired]))
  = [].
Proof.
  apply X17_client_sends_only_after_a_change; reflexivity.
Defined.

(** X18. The socket is tested when the debounced call fires, not when
    the change is made.  A change whose call fires while the socket is not
    open is dropped, not queued: nothing is sent at the firing nor at any
    later time until another change is made, even after the socket opens.
    A change made while the socket is still connecting is sent when the
    socket opens before the call fires, unless its fingerprint is the
    recorded one. *)
Theorem X18_change_fired_offline_is_dropped :
  forall c elements appState files between later,
    (forallb (fun e => negb (AppView.is_onChange e)) between = true ->
     ~ In App.debounce_fired between ->
     App.wsRef (fst (App.run c (App.onChange elements appState files :: between)))
     <> Some App.OPEN ->
     forallb (fun e => negb (AppView.is_onChange e)) later = true ->
     filter AppView.is_ws_send
       (snd (App.run c (App.onChange elements appState files
                        :: between ++ App.debounce_fired :: later)))
     = [])
    /\ (App.wsRef c <> None ->
        App.sceneFingerprint (Some elements) <> App.lastRemoteFingerprint c ->
        exists m,
          snd (App.run c [App.onChange elements appState files; App.ws_onopen;
                          App.debounce_fired])
          = [App.ws_send m]
          /\ App.Msg.type m = "scene-update"
          /\ option_map Scene.elements (App.Msg.data m) = Some (Some elements)).
Proof.
  intros c elements appState files between later. split.
  - intros N F W L.
    change (App.onChange elements appState files
            :: between ++ App.debounce_fired :: later)
      with ((App.onChange elements appState files :: between)
            ++ App.debounce_fired :: later).
    rewrite DebounceFacts.run_app. cbn [snd]. rewrite filter_app.
    set (c1 := fst (App.run c (App.onChange elements appState files :: between))) in *.
    assert (Q : filter AppView.is_ws_send
                  (snd (App.run c (App.onChange elements appState files :: between)))
                = []).
    { rewrite DebounceFacts.client_run_cons. cbn [snd App.step fst].
      apply (DebounceFacts.run_between between); assumption. }
    rewrite Q. cbn [app].
    rewrite DebounceFacts.client_run_cons. cbn [snd]. rewrite filter_app.
    assert (S1 : App.timer (fst (App.step c1 App.debounce_fired)) = None
                 /\ snd (App.step c1 App.debounce_fired) = []).
    { cbn [App.step]. destruct (App.timer c1) as [[[els a] f] |] eqn:T;
        [| simpl; auto].
      cbn [fst snd App.set_timer App.timer]. split; [reflexivity |].
      unfold App.sendUpdate_body. cbn [App.wsRef App.set_timer].
      destruct (App.wsRef c1) as [st |]; [| reflexivity].
      destruct (Z.eqb_spec st App.OPEN) as [-> | _]; [contradiction | reflexivity]. }
    destruct S1 as [T1 O1]. rewrite O1. cbn [filter app].
    apply DebounceFacts.run_quiet; assumption.
  - intros W Hne. simpl. destruct (App.wsRef c) as [st |] eqn:Hw; [| contradiction].
    simpl. unfold App.sendUpdate_body. simpl. rewrite Hw. simpl.
    destruct (String.eqb_spec (App.sceneFingerprint (Some elements))
                (App.lastRemoteFingerprint c)) as [E | _]; [contradiction |].
    eexists. split; [reflexivity |]. split; reflexivity.
Qed.

Lemma X18_change_fired_offline_witness :
  filter AppView.is_ws_send
    (snd (App.run (fst (App.run App.mount [App.api_ready]))
            (App.onChange [rectangle (Some 1) false]
               {| viewBackgroundColor := None |} None
             :: [App.ws_onerror; App.ws_onclose]
                ++ App.debounce_fired
                   :: [App.reconnect_fired; App.ws_onopen; App.debounce_fired])))
  = []
  /\ exists m,
       snd (App.run (fst (App.run App.mount [App.api_ready]))
              [App.onChange [rectangle (Some 1) false]
                 {| viewBackgroundColor := None |} None;
               App.ws_onopen; App.debounce_fired])
       = [App.ws_send m]
       /\ App.Msg.type m = "scene-update"
       /\ option_map Scene.elements (App.Msg.data m)
          = Some (Some [rectangle (Some 1) false]).
Proof.
  split.
  - apply (proj1 (X18_change_fired_offline_is_dropped
                    (fst (App.run App.mount [App.api_ready]))
                    [rectangle (Some 1) false] {| viewBackgroundColor := None |} None
                    [App.ws_onerror; App.ws_onclose]
                    [App.reconnect_fired; App.ws_onopen; App.debounce_fired])).
    + reflexivity.
    + simpl. intros [H | [H | []]]; discriminate H.
    + simpl. discriminate.
    + reflexivity.
  - apply (proj2 (X18_change_fired_offline_is_dropped
                    (fst (App.run App.mount [App.api_ready]))
                    [rectangle (Some 1) false] {| viewBackgroundColor := None |} None
                    [] [])).
    + simpl. discriminate.
    + vm_compute. discriminate.
Defined.

(** * The relay between its clients *)

Module WatcherFacts.
Import Server.

(** Every handler but the one for a scene-update without a document leaves
    [lastWriteFromClient] at the time of the save it makes, if any. *)
Lemma step_stamp (s : relay) (e : event) :
  stamps_without_saving e = false ->
  lastWriteFromClient (fst (step s e))
  = match save_time e with
    | Some now => now
    | None => lastWriteFromClient s
    end.
Proof.
  intros H. destruct e; cbn [step save_time]; try reflexivity.
  - unfold get_export_png. destruct (pendingExportResolve s); reflexivity.
  - unfold post_export_png. destruct (pendingExportResolve s); reflexivity.
  - unfold fire. destruct (find _ (timers s)); [| reflexivity].
    unfold export_timed_out. simpl. destruct (pendingExportResolve s); reflexivity.
  - cbn [stamps_without_saving] in H. revert H.
    unfold on_message, carries_document, lacks_document.
    destruct (JSON_parse raw) as [msg |]; [| reflexivity].
    destruct (prop msg "type") as [| | [| | | type | |]]; try reflexivity.
    destruct (prop msg "data");
      destruct (type =? "scene-update")%string; try reflexivity; discriminate.
  - unfold on_change. destruct (Z.ltb _ _); reflexivity.
Qed.

Lemma run_stamp (t : list event) :
  forall s, forallb (fun e => negb (stamps_without_saving e)) t = true ->
            lastWriteFromClient (fst (run s t))
            = last_save (lastWriteFromClient s) t.
Proof.
  induction t as [| e t IH]; intros s H; [reflexivity |].
  simpl in H. apply andb_true_iff in H as [He Ht]. apply negb_true_iff in He.
  rewrite ExportFacts.run_cons. cbn [fst last_save].
  rewrite (IH _ Ht), (step_stamp s e He). reflexivity.
Qed.

Lemma broadcast_writes_nothing (message : text) (ex : option nat) (cl : list socket) :
  filter is_write (broadcast message ex cl) = [].
Proof. apply ServerFacts.broadcast_no_answer. reflexivity. Qed.

(** The relay writes the file exactly when [save_time] says so. *)
Lemma step_writes (s : relay) (e : event) :
  match save_time e with
  | Some _ => exists d, filter is_write (snd (step s e)) = [writeFileSync (Text_json d)]
  | None => filter is_write (snd (step s e)) = []
  end.
Proof.
  destruct e; cbn [step save_time]; try reflexivity.
  - exists req_body. unfold put_canvas. cbn [writeCanvas snd].
    rewrite !filter_app, broadcast_writes_nothing. reflexivity.
  - unfold get_export_png. destruct (pendingExportResolve s); [reflexivity |].
    apply broadcast_writes_nothing.
  - unfold post_export_png. destruct (pendingExportResolve s); reflexivity.
  - unfold fire. destruct (find _ (timers s)); [| reflexivity].
    unfold export_timed_out. simpl. destruct (pendingExportResolve s); reflexivity.
  - unfold on_message, carries_document.
    destruct (JSON_parse raw) as [msg |]; [| reflexivity].
    destruct (prop msg "type") as [| | [| | | type | |]];
      try (destruct (prop msg "data"); reflexivity).
    destruct (prop msg "data") as [| | d];
      destruct (type =? "scene-update")%string; try reflexivity.
    exists d. cbn [writeCanvas snd].
    rewrite filter_app, broadcast_writes_nothing. reflexivity.
  - unfold on_change. destruct (Z.ltb _ _); [reflexivity |].
    apply broadcast_writes_nothing.
Qed.

End WatcherFacts.

(** X24. The watcher's quiet window, in runs where every scene-update
    carries a document.  The relay writes the file on a
    [PUT /api/canvas] and on a session's scene-update that carries a
    document, and at no other event.  After such a run, a file-change
    notification less than 500 ms after the latest of these saves sends
    nothing and changes nothing; one at 500 ms or more sends every open
    registered socket, none excluded, one scene-update whose [data] is the
    canvas the file holds at that moment (the default canvas when the file
    is missing or does not parse). *)
Theorem X24_quiet_window_after_a_save :
  forall s t now,
    forallb (fun e => negb (Server.stamps_without_saving e)) t = true ->
    let s1 := fst (Server.run s t) in
    let saved := Server.last_save (Server.lastWriteFromClient s) t in
    let canvas := match Server.CANVAS_FILE s1 with
                  | Some (Server.Text_json v) => v
                  | _ => Server.JObj
                           [("type", Server.JStr "excalidraw");
                            ("version", Server.JNum 2);
                            ("elements", Server.JArr []);
                            ("appState",
                             Server.JObj [("viewBackgroundColor",
                                           Server.JStr "#ffffff")]);
                            ("files", Server.JObj [])]
                  end in
    (now - saved < 500 ->
     Server.step s1 (Server.watcher_change now) = (s1, []))
    /\ (500 <= now - saved ->
        Server.step s1 (Server.watcher_change now)
        = (s1, map (fun w =>
                      Server.ws_send w
                        (Server.Text_json
                           (Server.JObj [("type", Server.JStr "scene-update");
                                         ("data", canvas)])))
                   (Server.open_ids (Server.clients s1))))
    /\ (forall s0 e,
          match Server.save_time e with
          | Some _ =>
              exists d, filter Server.is_write (snd (Server.step s0 e))
                        = [Server.writeFileSync (Server.Text_json d)]
          | None => filter Server.is_write (snd (Server.step s0 e)) = []
          end).
Proof.
  intros s t now H s1 saved canvas.
  assert (L : Server.lastWriteFromClient s1 = saved).
  { apply WatcherFacts.run_stamp, H. }
  split; [| split].
  - intros Hlt. cbn [Server.step]. unfold Server.on_change, Server.DEBOUNCE_MS.
    rewrite L.
    destruct (Z.ltb_spec (now - saved) (300 + 200)); [reflexivity | lia].
  - intros Hge. cbn [Server.step]. unfold Server.on_change, Server.DEBOUNCE_MS.
    rewrite L.
    destruct (Z.ltb_spec (now - saved) (300 + 200)); [lia |].
    rewrite ServerFacts.broadcast_all. f_equal. apply map_ext. intros w.
    f_equal. subst canvas.
    unfold Server.scene_update, Server.readCanvas, Server.JSON_stringify.
    destruct (Server.CANVAS_FILE s1) as [[v | other] |]; reflexivity.
  - intros s0 e. apply WatcherFacts.step_writes.
Qed.

Lemma X24_quiet_window_witness :
  snd (Server.step (fst (Server.run (fst (Server.startup None)) save_at_1000))
         (Server.watcher_change 1499)) = []
  /\ snd (Server.step (fst (Server.run (fst (Server.startup None)) save_at_1000))
            (Server.watcher_change 1500))
     = [Server.ws_send 1%nat
          (Server.Text_json (Server.JObj [("type", Server.JStr "scene-update");
                                          ("data", one_rectangle)]));
        Server.ws_send 2%nat
          (Server.Text_json (Server.JObj [("type", Server.JStr "scene-update");
                                          ("data", one_rectangle)]))].
Proof.
  split.
  - rewrite (proj1 (X24_quiet_window_after_a_save
                      (fst (Server.startup None)) save_at_1000 1499 eq_refl));
      [reflexivity | simpl; lia].
  - rewrite (proj1 (proj2 (X24_quiet_window_after_a_save
                             (fst (Server.startup None)) save_at_1000 1500 eq_refl)));
      [reflexivity | simpl; lia].
Defined.

(** X20. A socket that has closed is sent nothing more: in every run after
    its close event, until it connects again, no effect is a send to it. *)
Theorem X20_closed_socket_receives_nothing :
  forall s ws t,
    ~ In (Server.connection ws) t ->
    filter (Server.sent_to ws) (snd (Server.run s (Server.ws_close ws :: t))) = [].
Proof.
  intros s ws t Hc. rewrite ExportFacts.run_cons. cbn [fst snd Server.step].
  apply HubFacts.run_silent; [| exact Hc].
  simpl. intros H. apply in_map_iff in H as [c [Hw Hin]].
  apply filter_In in Hin as [_ Hne]. rewrite Hw, Nat.eqb_refl in Hne. discriminate.
Qed.

Lemma X20_closed_socket_witness :
  filter (Server.sent_to 3%nat)
    (snd (Server.run (relay_with None 0 three_sockets)
            [Server.ws_close 3%nat; Server.PUT_canvas 4%nat one_rectangle 99;
             Server.GET_export_png 5%nat])) = [].
Proof.
  apply X20_closed_socket_receives_nothing.
  simpl. intros [H | [H | []]]; discriminate H.
Defined.

(** X21. A message that does not parse, or whose [type] is not the text
    [scene-update], is ignored: the relay's state is unchanged, nothing is
    written and nothing is sent. *)
Theorem X21_other_messages_are_ignored :
  forall s ws raw now,
    Server.JSON_parse raw = None
    \/ (exists msg, Server.JSON_parse raw = Some msg
                    /\ Server.prop msg "type"
                       <> Server.Value (Server.JStr "scene-update")) ->
    Server.step s (Server.ws_message ws raw now) = (s, []).
Proof.
  intros s ws raw now [H | [msg [H T]]]; simpl; unfold Server.on_message; rewrite H;
    [reflexivity |].
  destruct (Server.prop msg "type") as [| | [| | | type | |]]; try reflexivity.
  destruct (String.eqb_spec type "scene-update") as [-> | _];
    [contradiction | reflexivity].
Qed.

Lemma X21_other_messages_witness :
  Server.step (relay_with None 0 three_sockets)
    (Server.ws_message 1%nat Server.export_request 7)
  = (relay_with None 0 three_sockets, []).
Proof.
  apply X21_other_messages_are_ignored. right.
  exists (Server.JObj [("type", Server.JStr "export-request")]).
  split; [reflexivity | discriminate].
Defined.

#[local] Arguments Server.broadcast : simpl never.

(** X22. When several browsers answer one export request, the first
    rendering posted goes to the caller and every later one is refused
    with 400: a request made while the slot is empty asks every open
    socket, the first post resolves it, the second finds the slot empty. *)
Theorem X22_first_rendering_wins :
  forall s res first second png1 png2,
    Server.pendingExportResolve s = None ->
    snd (Server.run s [Server.GET_export_png res;
                       Server.POST_export_png first png1;
                       Server.POST_export_png second png2])
    = map (fun w => Server.ws_send w Server.export_request)
          (Server.open_ids (Server.clients s))
      ++ [Server.respond res 200 (Server.body_png png1);
          Server.respond first 200 Server.ok;
          Server.respond second 400 (Server.error "No pending export request")]
    /\ Server.pendingExportResolve
         (fst (Server.run s [Server.GET_export_png res;
                             Server.POST_export_png first png1;
                             Server.POST_export_png second png2])) = None.
Proof.
  intros s res first second png1 png2 P.
  destruct s as [f lw p ts nh cl]. simpl in P. subst p.
  rewrite !ExportFacts.run_cons. cbn [Server.run fst snd Server.step].
  unfold Server.get_export_png. cbn. rewrite ServerFacts.broadcast_all.
  split; reflexivity.
Qed.

Lemma X22_first_rendering_witness :
  snd (Server.run (relay_with None 0 three_sockets)
         [Server.GET_export_png 7%nat;
          Server.POST_export_png 8%nat [Byte.x89];
          Server.POST_export_png 9%nat [Byte.x50]])
  = [Server.ws_send 1%nat Server.export_request;
     Server.ws_send 3%nat Server.export_request;
     Server.respond 7%nat 200 (Server.body_png [Byte.x89]);
     Server.respond 8%nat 200 Server.ok;
     Server.respond 9%nat 400 (Server.error "No pending export request")].
Proof.
  exact (proj1 (X22_first_rendering_wins (relay_with None 0 three_sockets)
                  7%nat 8%nat 9%nat [Byte.x89] [Byte.x50] eq_refl)).
Defined.

(** * The index strings ([lib/elements.js]) *)

Module IndexFacts.
Import Elements.

Local Open Scope N_scope.

Lemma digits36_stop (f : nat) (n : N) (acc : string) :
  n < 36 -> digits36 (S f) n acc = String (digit36 (n mod 36)) acc.
Proof.
  intros H. cbn [digits36]. rewrite (N.div_small n 36 H). reflexivity.
Qed.

Lemma digits36_more (f : nat) (n : N) (acc : string) :
  36 <= n -> digits36 (S f) n acc = digits36 f (n / 36) (String (digit36 (n mod 36)) acc).
Proof.
  intros H. cbn [digits36].
  destruct (N.eqb_spec (n / 36) 0) as [E | _]; [| reflexivity].
  exfalso. apply N.div_small_iff in E; lia.
Qed.

(** The fuel of [toString36] covers [k] more digits when [2^k <= n]. *)
Lemma fuel_enough (k : nat) (n : N) :
  2 ^ N.of_nat k <= n -> exists f, S (N.to_nat (N.log2 n)) = (S k + f)%nat.
Proof.
  intros H. exists (N.to_nat (N.log2 n) - k)%nat.
  assert (L : N.of_nat k <= N.log2 n).
  { rewrite <- (N.log2_pow2 (N.of_nat k)) by lia. apply N.log2_le_mono, H. }
  lia.
Qed.

Lemma padded (i : N) : i < 1679616 -> padStart4 (toString36 i) = IndexView.width4 i.
Proof.
  intros H. unfold toString36, IndexView.width4.
  assert (D2 : i / 36 / 36 = i / 1296) by (rewrite N.Div0.div_div; reflexivity).
  assert (D3 : i / 36 / 36 / 36 = i / 46656)
    by (rewrite !N.Div0.div_div; reflexivity).
  destruct (N.lt_ge_cases i 36) as [H1 | H1].
  { rewrite digits36_stop by assumption.
    rewrite (N.div_small i 46656), (N.div_small i 1296), (N.div_small i 36) by lia.
    reflexivity. }
  destruct (fuel_enough 1 i) as [f1 F1]; [simpl; lia |]. rewrite F1.
  cbn [Nat.add]. rewrite digits36_more by assumption.
  destruct (N.lt_ge_cases i 1296) as [H2 | H2].
  { rewrite digits36_stop by (apply N.Div0.div_lt_upper_bound; lia).
    rewrite (N.div_small i 46656), (N.div_small i 1296) by lia.
    reflexivity. }
  destruct (fuel_enough 2 i) as [f2 F2]; [simpl; lia |].
  assert (E2 : f1 = S f2) by lia. subst f1.
  rewrite digits36_more by (apply N.div_le_lower_bound; lia).
  destruct (N.lt_ge_cases i 46656) as [H3 | H3].
  { rewrite digits36_stop by (rewrite D2; apply N.Div0.div_lt_upper_bound; lia).
    rewrite D2, (N.div_small i 46656) by lia.
    reflexivity. }
  destruct (fuel_enough 3 i) as [f3 F3]; [simpl; lia |].
  assert (E3 : f2 = S f3) by lia. subst f2.
  rewrite digits36_more by (rewrite D2; apply N.div_le_lower_bound; lia).
  rewrite digits36_stop by (rewrite D3; apply N.Div0.div_lt_upper_bound; lia).
  rewrite D3, D2. reflexivity.
Qed.

Lemma below36_In (a : N) : a < 36 -> In a IndexView.below36.
Proof.
  intros H. unfold IndexView.below36. apply in_map_iff.
  exists (N.to_nat a). split; [lia |]. apply in_seq. lia.
Qed.

(** The digit characters are ordered as the digits. *)
Lemma digit36_compare (a b : N) :
  a < 36 -> b < 36 -> Ascii.compare (digit36 a) (digit36 b) = (a ?= b).
Proof.
  intros Ha Hb.
  assert (T : forallb
                (fun x => forallb
                            (fun y => match Ascii.compare (digit36 x) (digit36 y), (x ?= y) with
                                      | Eq, Eq | Lt, Lt | Gt, Gt => true
                                      | _, _ => false
                                      end)
                            IndexView.below36)
                IndexView.below36 = true) by (vm_compute; reflexivity).
  rewrite forallb_forall in T. specialize (T a (below36_In a Ha)).
  rewrite forallb_forall in T. specialize (T b (below36_In b Hb)).
  destruct (Ascii.compare (digit36 a) (digit36 b)), (a ?= b);
    try reflexivity; discriminate T.
Qed.

Lemma width4_compare (i j : N) :
  i < j -> j < 1679616 ->
  String.compare (IndexView.width4 i) (IndexView.width4 j) = Lt.
Proof.
  intros Hij Hj. unfold IndexView.width4. cbn [String.compare].
  assert (B : forall n, n mod 36 < 36) by (intros n; apply N.mod_lt; lia).
  rewrite !digit36_compare by apply B.
  pose proof (N.div_mod i 36 ltac:(lia)) as I0.
  pose proof (N.div_mod (i / 36) 36 ltac:(lia)) as I1.
  pose proof (N.div_mod (i / 36 / 36) 36 ltac:(lia)) as I2.
  pose proof (N.div_mod j 36 ltac:(lia)) as J0.
  pose proof (N.div_mod (j / 36) 36 ltac:(lia)) as J1.
  pose proof (N.div_mod (j / 36 / 36) 36 ltac:(lia)) as J2.
  assert (D2 : forall n, n / 36 / 36 = n / 1296)
    by (intros n; rewrite N.Div0.div_div; reflexivity).
  assert (D3 : forall n, n / 36 / 36 / 36 = n / 46656)
    by (intros n; rewrite !N.Div0.div_div; reflexivity).
  rewrite D3 in I2, J2. rewrite D2 in I1, J1, I2, J2.
  assert (I3 : i / 46656 mod 36 = i / 46656).
  { apply N.mod_small, N.Div0.div_lt_upper_bound. lia. }
  assert (J3 : j / 46656 mod 36 = j / 46656).
  { apply N.mod_small, N.Div0.div_lt_upper_bound. lia. }
  pose proof (B (i / 1296)) as Bi2. pose proof (B (i / 36)) as Bi1. pose proof (B i) as Bi0.
  pose proof (B (j / 1296)) as Bj2. pose proof (B (j / 36)) as Bj1. pose proof (B j) as Bj0.
  rewrite I3, J3 in *. clear B D2 D3 I3 J3.
  remember (i mod 36) as i0 eqn:X; clear X.
  remember ((i / 36) mod 36) as i1 eqn:X; clear X.
  remember ((i / 1296) mod 36) as i2 eqn:X; clear X.
  remember (i / 46656) as i3 eqn:X; clear X.
  remember (i / 1296) as iq2 eqn:X; clear X.
  remember (i / 36) as iq1 eqn:X; clear X.
  remember (j mod 36) as j0 eqn:X; clear X.
  remember ((j / 36) mod 36) as j1 eqn:X; clear X.
  remember ((j / 1296) mod 36) as j2 eqn:X; clear X.
  remember (j / 46656) as j3 eqn:X; clear X.
  remember (j / 1296) as jq2 eqn:X; clear X.
  remember (j / 36) as jq1 eqn:X; clear X.
  destruct (N.compare_spec i3 j3) as [E3 | L3 | G3];
    [| reflexivity | exfalso; lia].
  destruct (N.compare_spec i2 j2) as [E2 | L2 | G2];
    [| reflexivity | exfalso; lia].
  destruct (N.compare_spec i1 j1) as [E1 | L1 | G1];
    [| reflexivity | exfalso; lia].
  destruct (N.compare_spec i0 j0) as [E0 | L0 | G0];
    [exfalso; lia | reflexivity | exfalso; lia].
Qed.

End IndexFacts.

(** X23. The index strings of one process sort as they are made: for
    counters [i < j] below [36^4 = 1679616], [nextIndex i] comes strictly
    before [nextIndex j] in the order of strings, and both have five
    characters.  At [36^4] the order breaks: the string made there comes
    before the one made just before it. *)
Theorem X23_index_strings_sort_in_creation_order :
  (forall i j,
      (i < j)%N -> (j < 1679616)%N ->
      String.ltb (Elements.nextIndex i) (Elements.nextIndex j) = true
      /\ String.length (Elements.nextIndex i) = 5%nat
      /\ String.length (Elements.nextIndex j) = 5%nat)
  /\ String.ltb (Elements.nextIndex 1679616) (Elements.nextIndex 1679615) = true.
Proof.
  split; [| vm_compute; reflexivity].
  intros i j Hij Hj. unfold Elements.nextIndex.
  rewrite !IndexFacts.padded by lia.
  split; [| split; reflexivity].
  unfold String.ltb. cbn [append String.compare].
  change (Ascii.compare "z" "z") with Eq. cbv iota.
  rewrite (IndexFacts.width4_compare i j Hij Hj). reflexivity.
Qed.

Lemma X23_index_strings_witness :
  String.ltb (Elements.nextIndex 35) (Elements.nextIndex 36) = true.
Proof.
  apply (proj1 X23_index_strings_sort_in_creation_order 35%N 36%N); reflexivity.
Defined.
